(** * QANet layers and the evaluation driver: a shallow embedding

    The development follows [QANetLayers.py] (positional encoding, masked
    multi-head self-attention, the encoder block, the span-output layer) and
    the ensembling branch of [test.py].

    Conventions
    - A tensor is a shape together with a function from index lists to
      entries; float32 arithmetic is idealised to the real numbers of the
      Standard Library.
    - Python integers are [Z]; sizes that have passed torch's own checks are
      [nat].
    - Python exceptions are values of [py_error]; code that may raise lives
      in the [result] monad. *)

From Stdlib Require Import Reals Lra Lia ZArith Ascii String.
From stdpp Require Import base option list gmap strings sorting.

(** ** Exceptions and the error monad *)

Inductive py_error : Type :=
| AssertionError        (* a failed [assert] *)
| ZeroDivisionError     (* [/], [//] or [%] by the integer zero *)
| IndexError            (* an index out of range *)
| ValueError            (* a rejected argument value, a failed unpacking *)
| TypeError             (* a call with the wrong number of arguments *)
| NegativeDimension     (* RuntimeError: tensor created with a negative size *)
| SizeMismatch          (* RuntimeError: sizes that do not broadcast or match *)
| ZeroDimensional       (* RuntimeError: [torch.cat] of a tensor without dimensions *)
| InvalidView.          (* RuntimeError: [view] with an incompatible shape *)

Inductive result (A : Type) : Type :=
| Ok (a : A)
| Raise (e : py_error).
Arguments Ok {A} a.
Arguments Raise {A} e.

#[global] Instance result_ret : MRet result := fun _ a => Ok a.
#[global] Instance result_bind : MBind result :=
  fun _ _ f m => match m with Ok a => f a | Raise e => Raise e end.
#[global] Instance result_fmap : FMap result :=
  fun _ _ f m => match m with Ok a => Ok (f a) | Raise e => Raise e end.

#[global] Instance py_error_eq_dec : EqDecision py_error.
Proof. solve_decision. Defined.

#[global] Instance result_eq_dec {A} `{EqDecision A} : EqDecision (result A).
Proof. solve_decision. Defined.

Definition is_ok {A} (r : result A) : bool :=
  match r with Ok _ => true | Raise _ => false end.

(** ** Tensors *)

Record tensor (A : Type) : Type := Tensor {
  shape : list nat;
  data : list nat -> A;
}.
Arguments Tensor {A} shape data.
Arguments shape {A} t.
Arguments data {A} t idx.

(** [idx] addresses an entry of a tensor of shape [s]. *)
Definition in_range (s idx : list nat) : Prop := Forall2 lt idx s.

Definition numel (s : list nat) : nat := foldr Nat.mul 1 s.

(** [sum_{k < n} f k] *)
Definition rsum (n : nat) (f : nat -> R) : R :=
  foldr (fun k acc => (f k + acc)%R) 0%R (seq 0 n).

(** *** Broadcasting *)

(** One dimension of the rule: equal sizes, or one of them is 1. *)
Definition bcast_dim (a b : nat) : result nat :=
  if decide (a = b) then Ok a
  else if decide (a = 1) then Ok b
  else if decide (b = 1) then Ok a
  else Raise SizeMismatch.

(** Shapes are aligned at their last dimension; the arguments are reversed
    shapes. *)
Fixpoint bcast_rev (s1 s2 : list nat) : result (list nat) :=
  match s1, s2 with
  | [], s | s, [] => Ok s
  | a :: s1', b :: s2' =>
      d ← bcast_dim a b;
      s ← bcast_rev s1' s2';
      Ok (d :: s)
  end.

Definition broadcast_shapes (s1 s2 : list nat) : result (list nat) :=
  reverse <$> bcast_rev (reverse s1) (reverse s2).

(** The index into an operand of shape [s] that an index [idx] of the
    broadcast result reads: leading dimensions are dropped, size-one
    dimensions are read at 0. *)
Definition bidx (s idx : list nat) : list nat :=
  zip_with (fun d i => if decide (d = 1) then 0 else i)
           s (drop (length idx - length s) idx).

(** An elementwise binary operation. *)
Definition tensor_map2 {A B C} (f : A -> B -> C) (x : tensor A) (y : tensor B)
  : result (tensor C) :=
  s ← broadcast_shapes (shape x) (shape y);
  Ok (Tensor s (fun idx => f (data x (bidx (shape x) idx))
                             (data y (bidx (shape y) idx)))).

Definition tensor_map {A B} (f : A -> B) (x : tensor A) : tensor B :=
  Tensor (shape x) (fun idx => f (data x idx)).

Definition tensor_add : tensor R -> tensor R -> result (tensor R) :=
  tensor_map2 Rplus.
Definition tensor_mul : tensor R -> tensor R -> result (tensor R) :=
  tensor_map2 Rmult.

(** [src] can be expanded to exactly the shape [target] (as [copy_] and
    [expand] require). *)
Definition expandable (src target : list nat) : bool :=
  bool_decide (broadcast_shapes src target = Ok target).

(** *** Constructors and shape operations *)

Definition zeros (s : list nat) : tensor R := Tensor s (fun _ => 0%R).

(** [torch.arange(start, stop, step)] for [0 < step]:
    [ceil((stop - start) / step)] entries. *)
Definition arange (start stop step : nat) : tensor R :=
  Tensor [(stop - start + step - 1) `div` step]
         (fun idx => INR (start + hd 0 idx * step)).

(** [x.unsqueeze(d)] *)
Definition unsqueeze {A} (d : nat) (x : tensor A) : tensor A :=
  Tensor (take d (shape x) ++ 1 :: drop d (shape x))
         (fun idx => data x (take d idx ++ drop (S d) idx)).

(** [x.squeeze()]: every dimension of size one is removed. *)
Fixpoint unsqueezed_index (s idx : list nat) : list nat :=
  match s with
  | [] => []
  | d :: s' =>
      if decide (d = 1) then 0 :: unsqueezed_index s' idx
      else match idx with
           | [] => []
           | i :: idx' => i :: unsqueezed_index s' idx'
           end
  end.

Definition squeeze {A} (x : tensor A) : tensor A :=
  Tensor (filter (fun d => d <> 1) (shape x))
         (fun idx => data x (unsqueezed_index (shape x) idx)).

(** [x.transpose(d1, d2)] for non-negative dimensions. *)
Definition swap {A} `{Inhabited A} (d1 d2 : nat) (l : list A) : list A :=
  <[d1 := l !!! d2]> (<[d2 := l !!! d1]> l).

Definition transpose {A} (d1 d2 : nat) (x : tensor A) : tensor A :=
  Tensor (swap d1 d2 (shape x)) (fun idx => data x (swap d1 d2 idx)).

(** Row-major position of an index, and back. *)
Definition flatten_index (s idx : list nat) : nat :=
  foldl (fun acc p => acc * p.1 + p.2) 0 (zip s idx).

Fixpoint unflatten_rev (s_rev : list nat) (k : nat) : list nat :=
  match s_rev with
  | [] => []
  | d :: s' => (k `mod` d) :: unflatten_rev s' (k `div` d)
  end.

Definition unflatten_index (s : list nat) (k : nat) : list nat :=
  reverse (unflatten_rev (reverse s) k).

(** The sizes a [view] call resolves to: at most one [-1], inferred from the
    number of elements. *)
Definition resolve_view (n : nat) (dims : list Z) : result (list nat) :=
  if decide (Exists (fun d => d < -1)%Z dims) then Raise InvalidView
  else
    let known := filter (fun d => d <> (-1)%Z) dims in
    let p := numel (Z.to_nat <$> known) in
    match length dims - length known with
    | 0 => if decide (p = n) then Ok (Z.to_nat <$> dims) else Raise InvalidView
    | 1 => if decide (p <> 0 /\ n `mod` p = 0)
           then Ok ((fun d => if decide (d = (-1)%Z) then n `div` p else Z.to_nat d)
                      <$> dims)
           else Raise InvalidView
    | _ => Raise InvalidView
    end.

(** [x.view(d0, d1, ...)] of a contiguous tensor. *)
Definition view {A} (x : tensor A) (dims : list Z) : result (tensor A) :=
  s ← resolve_view (numel (shape x)) dims;
  Ok (Tensor s (fun idx => data x (unflatten_index (shape x) (flatten_index s idx)))).

(** An operand that [torch.cat] leaves out: a one-dimensional tensor
    without elements. *)
Definition cat_should_skip {A} (x : tensor A) : bool :=
  bool_decide (shape x = [0]).

(** [torch.cat((x, y), dim = d)] for a non-negative [d]. An operand without
    dimensions is refused first. Operands of shape [[0]] are left out, and
    with both left out the result is an empty tensor of that shape. [d] is
    checked against the rank of the first operand that is kept. Two operands
    that are kept need the same rank and the same sizes outside dimension
    [d]. *)
Definition cat {A} (d : nat) (x y : tensor A) : result (tensor A) :=
  if decide (shape x = [] \/ shape y = []) then Raise ZeroDimensional
  else
    match cat_should_skip x, cat_should_skip y with
    | true, true => Ok (Tensor [0] (data x))
    | true, false =>
        if decide (d < length (shape y)) then Ok y else Raise IndexError
    | false, true =>
        if decide (d < length (shape x)) then Ok x else Raise IndexError
    | false, false =>
        match shape x !! d, shape y !! d with
        | Some nx, Some ny =>
            if decide (<[d := 0]> (shape x) = <[d := 0]> (shape y)) then
              Ok (Tensor (<[d := nx + ny]> (shape x))
                    (fun idx =>
                       let i := idx !!! d in
                       if decide (i < nx) then data x idx
                       else data y (<[d := i - nx]> idx)))
            else Raise SizeMismatch
        | Some _, None => Raise SizeMismatch   (* ranks that differ *)
        | None, _ => Raise IndexError
        end
    end.

(** [x @ y] for operands of rank at least two: a matrix product over the
    last two dimensions, the leading ones broadcast. *)
Definition matmul (x y : tensor R) : result (tensor R) :=
  match reverse (shape x), reverse (shape y) with
  | m :: n :: bx, p :: m' :: by_ =>
      if decide (m = m') then
        bs ← bcast_rev bx by_;
        Ok (Tensor (reverse bs ++ [n; p])
              (fun idx =>
                 let r := length idx in
                 let pre := take (r - 2) idx in
                 let i := idx !!! (r - 2) in
                 let j := idx !!! (r - 1) in
                 rsum m (fun k =>
                   data x (bidx (shape x) (pre ++ [i; k])) *
                   data y (bidx (shape y) (pre ++ [k; j])))%R))
      else Raise SizeMismatch
  | _, _ => Raise SizeMismatch
  end.

(** [F.softmax(x, dim = -1)], over the reals: the float32 value of the
    source is this value rounded, so that a weight far below the smallest
    float32 is returned as 0. *)
Definition softmax (x : tensor R) : tensor R :=
  Tensor (shape x)
    (fun idx =>
       let pre := removelast idx in
       (exp (data x idx) /
        rsum (List.last (shape x) 0%nat) (fun j => exp (data x (pre ++ [j]))))%R).

(** [x.masked_fill(m, v)] *)
Definition masked_fill (x : tensor R) (m : tensor bool) (v : R)
  : result (tensor R) :=
  tensor_map2 (fun a (b : bool) => if b then v else a) x m.

(** [mask == 0] *)
Definition eq_zero (mask : tensor Z) : tensor bool :=
  tensor_map (fun z => bool_decide (z = 0%Z)) mask.

(** [x * c] and [x / c] for a Python number [c]. *)
Definition scale (x : tensor R) (c : R) : tensor R :=
  tensor_map (fun a => (a * c)%R) x.
Definition divide (x : tensor R) (c : R) : tensor R :=
  tensor_map (fun a => (a / c)%R) x.

(** [x += y]: the sum has to fit the shape of [x]. *)
Definition tensor_iadd (x y : tensor R) : result (tensor R) :=
  if expandable (shape y) (shape x) then tensor_add x y
  else Raise SizeMismatch.

(** [t[:, :k]] *)
Definition slice_dim1 {A} (k : nat) (t : tensor A) : tensor A :=
  Tensor (alter (Nat.min k) 1 (shape t)) (data t).

(** [t[:, start::2] = src] on a matrix [t]: the columns [start], [start+2],
    ... of [t] are overwritten; as in [copy_], [src] is expanded to the shape
    of the slice. *)
Definition setitem_cols (t : tensor R) (start : nat) (src : tensor R)
  : result (tensor R) :=
  match shape t with
  | [L; n] =>
      let k := (n - start + 1) `div` 2 in
      if expandable (shape src) [L; k] then
        Ok (Tensor [L; n]
              (fun idx =>
                 match idx with
                 | [p; c] =>
                     if decide (start <= c /\ (c - start) `mod` 2 = 0)
                     then data src (bidx (shape src) [p; (c - start) `div` 2])
                     else data t idx
                 | _ => data t idx
                 end))
      else Raise SizeMismatch
  | _ => Raise IndexError
  end.

(** ** position_encoding *)

Record position_encoding : Type := {
  pos_encodings : tensor R;              (* buffer of shape [1, seq_len, n_embd] *)
}.

(** [position_encoding.__init__(n_embd, device, seq_len)]; the device plays
    no part in the values. *)
Definition position_encoding_init (n_embd seq_len : Z)
  : result position_encoding :=
  if decide (seq_len < 0 \/ n_embd < 0)%Z then Raise NegativeDimension
  else
    let n := Z.to_nat n_embd in
    let L := Z.to_nat seq_len in
    let pe := zeros [L; n] in
    let pos := unsqueeze 1 (arange 0 L 1) in
    if decide (n_embd = 0)%Z then Raise ZeroDivisionError
    else
      let val := tensor_map exp
                   (scale (arange 0 n 2) (- (ln 10000 / IZR n_embd))%R) in
      pv ← tensor_mul pos val;
      pe ← setitem_cols pe 0 (tensor_map sin pv);
      pv ← tensor_mul pos val;
      pe ← setitem_cols pe 1 (tensor_map cos pv);
      Ok {| pos_encodings := unsqueeze 0 pe |}.

(** The table entry of the source: [pos * val] at position [p], frequency
    index [i]. *)
Definition angle (n_embd : Z) (p i : nat) : R :=
  (INR (0 + p * 1) * exp (INR (0 + i * 2) * - (ln 10000 / IZR n_embd)))%R.

(** The default [seq_len = 1000]. *)
Definition default_seq_len : Z := 1000.

(** [position_encoding.forward(x)] *)
Definition position_encoding_forward (self : position_encoding) (x : tensor R)
  : result (tensor R) :=
  match shape x !! 1 with
  | None => Raise IndexError
  | Some T => tensor_add x (slice_dim1 T (pos_encodings self))
  end.

(** ** torch.nn building blocks *)

(** Initial values of a layer's parameters (the random draw, or the values a
    checkpoint restores). *)
Record linear_params : Type := {
  init_weight : list nat -> R;
  init_bias : list nat -> R;
}.

Record Linear : Type := {
  in_features : nat;
  out_features : nat;
  weight : tensor R;                     (* [out_features, in_features] *)
  bias : option (tensor R);              (* [out_features] *)
}.

(** [nn.Linear(n_in, n_out, bias)] *)
Definition nn_Linear (n_in n_out : Z) (with_bias : bool) (p : linear_params)
  : result Linear :=
  if decide (n_in < 0 \/ n_out < 0)%Z then Raise NegativeDimension
  else
    let i := Z.to_nat n_in in
    let o := Z.to_nat n_out in
    Ok {| in_features := i; out_features := o;
          weight := Tensor [o; i] (init_weight p);
          bias := if with_bias then Some (Tensor [o] (init_bias p)) else None |}.

(** [Linear.forward]: [y = x W^T + b] over the last dimension. *)
Definition Linear_forward (l : Linear) (x : tensor R) : result (tensor R) :=
  match last (shape x) with
  | None => Raise SizeMismatch
  | Some n =>
      if decide (n = in_features l) then
        Ok (Tensor (removelast (shape x) ++ [out_features l])
              (fun idx =>
                 let o := List.last idx 0 in
                 let pre := removelast idx in
                 (rsum n (fun k => data x (pre ++ [k]) * data (weight l) [o; k])
                  + match bias l with
                    | Some b => data b [o]
                    | None => 0
                    end)%R))
      else Raise SizeMismatch
  end.

Record Dropout : Type := { drop_p : R }.

(** [nn.Dropout(p)] *)
Definition nn_Dropout (p : R) : result Dropout :=
  if Rlt_dec p 0 then Raise ValueError
  else if Rlt_dec 1 p then Raise ValueError
  else Ok {| drop_p := p |}.

Record LayerNorm : Type := { normalized_shape : nat }.

(** [nn.LayerNorm(n)] *)
Definition nn_LayerNorm (n : Z) : result LayerNorm :=
  if decide (n < 0)%Z then Raise NegativeDimension
  else Ok {| normalized_shape := Z.to_nat n |}.

Record Conv1d : Type := {
  in_channels : Z;
  out_channels : Z;
  kernel_size : Z;
  groups : Z;
  padding : Z;
  conv_bias : bool;
}.

(** [nn.Conv1d(in_channels, out_channels, kernel_size, groups, padding, bias)] *)
Definition nn_Conv1d (i o k g p : Z) (b : bool) : result Conv1d :=
  if decide (g <= 0)%Z then Raise ValueError
  else if decide (i `mod` g <> 0)%Z then Raise ValueError
  else if decide (o `mod` g <> 0)%Z then Raise ValueError
  else if decide (o < 0 \/ i `div` g < 0 \/ k < 0)%Z then Raise NegativeDimension
  else Ok {| in_channels := i; out_channels := o; kernel_size := k;
             groups := g; padding := p; conv_bias := b |}.

(** [nn.ReLU] *)
Definition relu (x : tensor R) : tensor R := tensor_map (Rmax 0) x.

(** ** The layers of QANetLayers.py *)

Record attention_params : Type := {
  key_params : linear_params;
  query_params : linear_params;
  value_params : linear_params;
  proj_params : linear_params;
}.

Record CausalSelfAttention : Type := {
  key : Linear;
  query : Linear;
  value : Linear;
  attn_drop : Dropout;
  resid_drop : Dropout;
  proj : Linear;
  n_head : Z;
}.

(** [CausalSelfAttention.__init__(n_embd, n_head, attn_pdrop, resid_pdrop,
    block_size)]; [block_size] is not used. *)
Definition CausalSelfAttention_init (n_embd n_head : Z)
    (attn_pdrop resid_pdrop : R) (block_size : Z) (p : attention_params)
  : result CausalSelfAttention :=
  if decide (n_head = 0)%Z then Raise ZeroDivisionError
  else if decide (n_embd `mod` n_head = 0)%Z then
    k ← nn_Linear n_embd n_embd true (key_params p);
    q ← nn_Linear n_embd n_embd true (query_params p);
    v ← nn_Linear n_embd n_embd true (value_params p);
    ad ← nn_Dropout attn_pdrop;
    rd ← nn_Dropout resid_pdrop;
    pr ← nn_Linear n_embd n_embd true (proj_params p);
    Ok {| key := k; query := q; value := v; attn_drop := ad;
          resid_drop := rd; proj := pr; n_head := n_head |}
  else Raise AssertionError.

(** The fill value of the attention mask. *)
Definition mask_fill_value : R := (- 1e10)%R.

(** [t.view(B, T, self.n_head, C // self.n_head).transpose(1, 2)] *)
Definition split_heads (self : CausalSelfAttention) (B T C : nat) (t : tensor R)
  : result (tensor R) :=
  if decide (n_head self = 0)%Z then Raise ZeroDivisionError
  else
    t4 ← view t [Z.of_nat B; Z.of_nat T; n_head self;
                 (Z.of_nat C `div` n_head self)%Z];
    Ok (transpose 1 2 t4).

(** The scores of [CausalSelfAttention.forward] after [masked_fill], that
    is just before the softmax, together with the value heads. *)
Definition attention_scores (self : CausalSelfAttention)
    (x : tensor R) (mask : tensor Z) : result (tensor R * tensor R) :=
  match shape x with
  | [B; T; C] =>
      kx ← Linear_forward (key self) x;
      k ← split_heads self B T C kx;
      qx ← Linear_forward (query self) x;
      q ← split_heads self B T C qx;
      vx ← Linear_forward (value self) x;
      v ← split_heads self B T C vx;
      mask ← view mask [Z.of_nat B; 1; 1; -1]%Z;
      qk ← matmul q (transpose 2 3 k);
      let hs := List.last (shape k) 0%nat in
      if decide (hs = 0%nat) then Raise ZeroDivisionError   (* 1.0 / 0.0 *)
      else
        let att := scale qk (1 / sqrt (INR hs))%R in
        att ← masked_fill att (eq_zero mask) mask_fill_value;
        Ok (att, v)
  | _ => Raise ValueError
  end.

(** The attention weights: [att] after [F.softmax(att, dim=-1)]. *)
Definition attention_weights (self : CausalSelfAttention)
    (x : tensor R) (mask : tensor Z) : result (tensor R * tensor R) :=
  '(att, v) ← attention_scores self x mask;
  Ok (softmax att, v).

Section Layers.

(** Functions of the torch library whose values no property below depends
    on: [F.dropout(x, p, training)] (for one draw of its noise), and the
    forward passes of [nn.LayerNorm] and of the convolution stack. *)
Variable F_dropout : R -> bool -> tensor R -> tensor R.
Variable LayerNorm_forward : LayerNorm -> tensor R -> result (tensor R).
Variable Conv1d_forward : Conv1d -> tensor R -> result (tensor R).

(** [nn.Dropout.forward] *)
Definition Dropout_forward (d : Dropout) (training : bool) (x : tensor R)
  : tensor R :=
  F_dropout (drop_p d) training x.

(** [CausalSelfAttention.forward(x, mask)] *)
Definition CausalSelfAttention_forward (self : CausalSelfAttention)
    (training : bool) (x : tensor R) (mask : tensor Z) : result (tensor R) :=
  match shape x with
  | [B; T; C] =>
      '(att, v) ← attention_weights self x mask;
      let att := Dropout_forward (attn_drop self) training att in
      y ← matmul att v;
      y ← view (transpose 1 2 y) [Z.of_nat B; Z.of_nat T; Z.of_nat C];
      y ← Linear_forward (proj self) y;
      Ok (Dropout_forward (resid_drop self) training y)
  | _ => Raise ValueError
  end.

(** The [nn.Sequential] of the two convolutions, ReLU and dropout. *)
Record ConvStack : Type := {
  depthwise : Conv1d;
  pointwise : Conv1d;
  conv_drop : Dropout;
}.

Definition ConvStack_forward (c : ConvStack) (training : bool) (x : tensor R)
  : result (tensor R) :=
  x ← Conv1d_forward (depthwise c) x;
  x ← Conv1d_forward (pointwise c) x;
  Ok (Dropout_forward (conv_drop c) training (relu x)).

Record block_params : Type := {
  attn_params : attention_params;
  ff_1_params : linear_params;         (* after [xavier_uniform_] *)
  ff_2_params : linear_params;
}.

Record Block : Type := {
  num_convs : Z;
  position_encoder : position_encoding;
  conv_ln : LayerNorm;
  convolution : ConvStack;
  attn_ln : LayerNorm;
  attn : CausalSelfAttention;
  ff_ln : LayerNorm;
  ff_1 : Linear;
  ff_2 : Linear;
}.

(** [Block.__init__(hidden_size, resid_pdrop, num_convs, device)] *)
Definition Block_init (hidden_size : Z) (resid_pdrop : R) (num_convs : Z)
    (p : block_params) : result Block :=
  pe ← position_encoding_init hidden_size default_seq_len;
  cln ← nn_LayerNorm hidden_size;
  dw ← nn_Conv1d hidden_size hidden_size 7 hidden_size (7 `div` 2) false;
  pw ← nn_Conv1d hidden_size hidden_size 1 1 0 true;
  dr ← nn_Dropout resid_pdrop;
  aln ← nn_LayerNorm hidden_size;
  at_ ← CausalSelfAttention_init hidden_size 8 (1 / 10)%R resid_pdrop 128
          (attn_params p);
  fln ← nn_LayerNorm hidden_size;
  f1 ← nn_Linear hidden_size hidden_size true (ff_1_params p);
  f2 ← nn_Linear hidden_size hidden_size true (ff_2_params p);
  Ok {| num_convs := num_convs; position_encoder := pe; conv_ln := cln;
        convolution := {| depthwise := dw; pointwise := pw; conv_drop := dr |};
        attn_ln := aln; attn := at_; ff_ln := fln; ff_1 := f1; ff_2 := f2 |}.

(** One pass of the convolution loop on the pair [(x, residual)]. *)
Definition conv_step (self : Block) (training : bool)
    (st : tensor R * tensor R) : result (tensor R * tensor R) :=
  let '(x, residual) := st in
  x ← LayerNorm_forward (conv_ln self) x;
  x ← ConvStack_forward (convolution self) training (transpose 1 2 x);
  let x := transpose 1 2 x in
  x ← tensor_iadd x residual;
  let residual := x in
  Ok (x, residual).

(** [for i in range(n): ...] *)
Fixpoint conv_loop (self : Block) (training : bool) (n : nat)
    (st : tensor R * tensor R) : result (tensor R * tensor R) :=
  match n with
  | O => Ok st
  | S n' => st' ← conv_step self training st; conv_loop self training n' st'
  end.

(** The attention sublayer, lines 126 to 129, on the pair [(x, residual)]
    that leaves the convolution loop. *)
Definition attn_sublayer (self : Block) (training : bool)
    (st : tensor R * tensor R) (mask : tensor Z) : result (tensor R) :=
  let '(x, residual) := st in
  x ← LayerNorm_forward (attn_ln self) x;
  let x := F_dropout (1 / 10)%R training x in
  a ← CausalSelfAttention_forward (attn self) training x mask;
  xa ← tensor_add x a;
  tensor_add xa residual.

(** The feed-forward sublayer, lines 129 to 137. *)
Definition ff_sublayer (self : Block) (training : bool) (x : tensor R)
  : result (tensor R) :=
  let residual := x in
  x ← LayerNorm_forward (ff_ln self) x;
  let x := F_dropout (1 / 10)%R training x in
  x ← Linear_forward (ff_1 self) x;
  let x := relu x in
  x ← Linear_forward (ff_2 self) x;
  tensor_iadd x residual.

(** [Block.forward(x, mask)] *)
Definition Block_forward (self : Block) (training : bool)
    (x : tensor R) (mask : tensor Z) : result (tensor R) :=
  x ← position_encoding_forward (position_encoder self) x;
  let residual := x in
  st ← conv_loop self training (Z.to_nat (num_convs self)) (x, residual);
  x ← attn_sublayer self training st mask;
  ff_sublayer self training x.

End Layers.

(** ** Masked softmax *)

(** Log-probabilities: a real number, or minus infinity for probability 0. *)
Inductive logprob : Type :=
| Finite (r : R)
| NegInf.

Definition exp_lp (l : logprob) : R :=
  match l with Finite r => exp r | NegInf => 0%R end.

(** Modelled from the spec: [util.masked_softmax] is imported by
    QANetLayers.py but is not among the sources. Section 4.4 and the glossary
    describe the call with [log_softmax = True] as a log-softmax restricted to
    the valid positions, the invalid ones receiving probability 0, that is
    log-probability minus infinity. The mask is applied position by position,
    which for two torch tensors is an elementwise operation and follows the
    broadcasting rule; the softmax runs over the last dimension. *)
Definition masked_softmax (logits : tensor R) (mask : tensor Z)
  : result (tensor logprob) :=
  ml ← tensor_map2 (fun l m => if decide (m = 0%Z) then NegInf else Finite l)
         logits mask;
  Ok (Tensor (shape ml)
        (fun idx =>
           let pre := removelast idx in
           let z := rsum (List.last (shape ml) 0%nat)
                      (fun j => exp_lp (data ml (pre ++ [j]))) in
           match data ml idx with
           | Finite r => Finite (r - ln z)
           | NegInf => NegInf
           end)).

(** ** QANetOutput *)

Record QANetOutput : Type := {
  w1 : Linear;
  w2 : Linear;
}.

Record output_params : Type := {
  w1_params : linear_params;
  w2_params : linear_params;
}.

(** [QANetOutput.__init__(n_embd)] *)
Definition QANetOutput_init (n_embd : Z) (p : output_params) : result QANetOutput :=
  l1 ← nn_Linear (n_embd * 2) 1 false (w1_params p);
  l2 ← nn_Linear (n_embd * 2) 1 false (w2_params p);
  Ok {| w1 := l1; w2 := l2 |}.

(** [QANetOutput.forward(M1, M2, M3, mask)] *)
Definition QANetOutput_forward (self : QANetOutput)
    (M1 M2 M3 : tensor R) (mask : tensor Z)
  : result (tensor logprob * tensor logprob) :=
  x1 ← cat 2 M1 M2;
  x2 ← cat 2 M2 M3;
  s1 ← Linear_forward (w1 self) x1;
  p1 ← masked_softmax (squeeze s1) mask;
  s2 ← Linear_forward (w2 self) x2;
  p2 ← masked_softmax (squeeze s2) mask;
  Ok (p1, p2).

(** *** What the forward pass returns *)

(** The shape of the tensors [QANetOutput.forward] returns for inputs of
    shape [B, T, H]. *)
Definition returned_shape (B T : nat) : list nat :=
  if decide (T = 1 /\ B <> 1) then [B; B] else [B; T].

(** Row [b] of the log-probabilities [P] is a distribution over the valid
    positions of row [b] of the mask: its probabilities sum to 1 over the
    valid positions, and a masked position has probability 0. *)
Definition distribution_over_valid (mask : tensor Z) (T : nat)
    (P : tensor logprob) (b : nat) : Prop :=
  (forall t, t < T -> data mask [b; t] = 0%Z -> exp_lp (data P [b; t]) = 0%R) /\
  rsum T (fun t => if decide (data mask [b; t] = 0%Z) then 0%R
                   else exp_lp (data P [b; t])) = 1%R.

(** The same over the last dimension of a returned tensor of any shape, the
    mask being read as the softmax broadcasts it: in every row that has a
    valid position the probabilities of the valid positions sum to 1, and a
    masked position has probability 0. *)
Definition normalised_over_valid (mask : tensor Z) (P : tensor logprob) : Prop :=
  (forall idx, data mask (bidx (shape mask) idx) = 0%Z ->
               exp_lp (data P idx) = 0%R) /\
  (forall pre,
     (exists j, j < List.last (shape P) 0 /\
                data mask (bidx (shape mask) (pre ++ [j])) <> 0%Z) ->
     rsum (List.last (shape P) 0)
       (fun j => if decide (data mask (bidx (shape mask) (pre ++ [j])) = 0%Z)
                 then 0%R else exp_lp (data P (pre ++ [j]))) = 1%R).

(** ** The ensembling branch of test.py *)

Section Driver.

(** A batch of the data loader, with [cw_idxs.size()]. *)
Variable batch : Type.
Variable cw_idxs_size : batch -> list nat.

(** Lines 103 to 135: build the model, load the checkpoint at [load_path],
    switch to evaluation mode, and run it on the batch. The models are not
    among the sources; only their two outputs matter here. *)
Variable load_path : Type.
Variable run_model : load_path -> batch -> result (tensor R * tensor R).

(** The body of [for load_path in args.ensemble_list]. *)
Definition accumulate (b : batch) (acc : tensor R * tensor R) (lp : load_path)
  : result (tensor R * tensor R) :=
  let '(avg_log_p1, avg_log_p2) := acc in
  '(log_p1, log_p2) ← run_model lp b;
  avg_log_p1 ← tensor_add avg_log_p1 log_p1;
  avg_log_p2 ← tensor_add avg_log_p2 log_p2;
  Ok (avg_log_p1, avg_log_p2).

Fixpoint ensemble_loop (b : batch) (acc : tensor R * tensor R)
    (l : list load_path) : result (tensor R * tensor R) :=
  match l with
  | [] => Ok acc
  | lp :: l' => acc' ← accumulate b acc lp; ensemble_loop b acc' l'
  end.

(** Lines 97 to 145: the pair [(p1, p2)] handed to the span decoder. *)
Definition ensemble_batch (ensemble_list : list load_path) (b : batch)
  : result (tensor R * tensor R) :=
  let avg_log_p1 := zeros (cw_idxs_size b) in
  let avg_log_p2 := zeros (cw_idxs_size b) in
  '(avg_log_p1, avg_log_p2) ← ensemble_loop b (avg_log_p1, avg_log_p2) ensemble_list;
  let avg_log_p1 := divide avg_log_p1 (INR (length ensemble_list)) in
  let avg_log_p2 := divide avg_log_p2 (INR (length ensemble_list)) in
  Ok (tensor_map exp avg_log_p1, tensor_map exp avg_log_p2).

(** The log-probabilities the model of [lp] assigns on batch [b], entry by
    entry (0 where the model fails). *)
Definition model_log_p1 (lp : load_path) (b : batch) (idx : list nat) : R :=
  match run_model lp b with Ok (l1, _) => data l1 idx | Raise _ => 0%R end.
Definition model_log_p2 (lp : load_path) (b : batch) (idx : list nat) : R :=
  match run_model lp b with Ok (_, l2) => data l2 idx | Raise _ => 0%R end.

(** Every model of the list returns, on [b], two tensors of shape [s]. *)
Definition models_return (s : list nat) (b : batch) (l : list load_path) : Prop :=
  Forall (fun lp => exists l1 l2, run_model lp b = Ok (l1, l2) /\
                     shape l1 = s /\ shape l2 = s) l.

End Driver.

Definition sum_list (l : list R) : R := foldr Rplus 0%R l.
Definition prod_list (l : list R) : R := foldr Rmult 1%R l.

(** ** The submission file *)

Definition dquote : ascii := ascii_of_nat 34.
Definition CR : ascii := ascii_of_nat 13.
Definition LF : ascii := ascii_of_nat 10.
Definition comma : ascii := ascii_of_nat 44.

(** The writer's dialect: delimiter [,], minimal quoting, lines ended by
    CR LF. A field is quoted when it holds the delimiter, the quote character
    or a character of the line terminator. *)
Fixpoint needs_quoting (s : string) : bool :=
  match s with
  | EmptyString => false
  | String c s' =>
      bool_decide (c = comma \/ c = dquote \/ c = CR \/ c = LF) || needs_quoting s'
  end.

Fixpoint double_quotes (s : string) : string :=
  match s with
  | EmptyString => EmptyString
  | String c s' =>
      if decide (c = dquote) then String c (String c (double_quotes s'))
      else String c (double_quotes s')
  end.

Definition csv_field (s : string) : string :=
  if needs_quoting s
  then String dquote (double_quotes s +:+ String dquote EmptyString)
  else s.

Definition line_terminator : string := String CR (String LF EmptyString).

Definition csv_line (row : list string) : string :=
  String.concat (String comma EmptyString) (csv_field <$> row) +:+ line_terminator.

(** [csv_writer.writerow(row)] on the text written so far. *)
Definition writerow (fh : string) (row : list string) : string :=
  fh +:+ csv_line row.

(** [sorted(sub_dict)]: the keys in ascending order. *)
Definition sorted (sub_dict : gmap string string) : list string :=
  merge_sort String.le (map_to_list sub_dict).*1.

(** Lines 195 to 199: the text of the submission file. *)
Definition write_submission (sub_dict : gmap string string) : string :=
  let csv_fh := EmptyString in
  let csv_fh := writerow csv_fh ["Id"; "Predicted"] in
  foldl (fun fh uuid => writerow fh [uuid; sub_dict !!! uuid]) csv_fh
        (sorted sub_dict).


(** ** Sample parameters and inputs *)

Definition zero_linear : linear_params :=
  {| init_weight := fun _ => 0%R; init_bias := fun _ => 0%R |}.

Definition zero_attention : attention_params :=
  {| key_params := zero_linear; query_params := zero_linear;
     value_params := zero_linear; proj_params := zero_linear |}.

Definition zero_block : block_params :=
  {| attn_params := zero_attention; ff_1_params := zero_linear;
     ff_2_params := zero_linear |}.

(** A small block over a hidden size of 2 and sequences of 2 positions, with
    one attention head, and stand-ins for the torch functions: evaluation
    mode dropout, and normalisation and convolution replaced by the
    identity. *)
Definition sample_linear (n : nat) : Linear :=
  {| in_features := n; out_features := n;
     weight := Tensor [n; n] (fun _ => 0%R); bias := None |}.

Definition sample_attention : CausalSelfAttention :=
  {| key := sample_linear 2; query := sample_linear 2; value := sample_linear 2;
     attn_drop := {| drop_p := (1 / 10)%R |};
     resid_drop := {| drop_p := 0%R |};
     proj := sample_linear 2; n_head := 1 |}.

Definition sample_conv : Conv1d :=
  {| in_channels := 2; out_channels := 2; kernel_size := 1; groups := 1;
     padding := 0; conv_bias := false |}.

Definition sample_block : Block :=
  {| num_convs := 1;
     position_encoder := {| pos_encodings := zeros [1; 2; 2] |};
     conv_ln := {| normalized_shape := 2 |};
     convolution := {| depthwise := sample_conv; pointwise := sample_conv;
                       conv_drop := {| drop_p := 0%R |} |};
     attn_ln := {| normalized_shape := 2 |};
     attn := sample_attention;
     ff_ln := {| normalized_shape := 2 |};
     ff_1 := sample_linear 2;
     ff_2 := sample_linear 2 |}.

Definition eval_dropout (p : R) (training : bool) (x : tensor R) : tensor R := x.
Definition id_LayerNorm (l : LayerNorm) (x : tensor R) : result (tensor R) := Ok x.
Definition id_Conv1d (c : Conv1d) (x : tensor R) : result (tensor R) := Ok x.

Definition ones (s : list nat) : tensor R := Tensor s (fun _ => 1%R).
Definition ones_mask (s : list nat) : tensor Z := Tensor s (fun _ => 1%Z).

(** Two models that disagree on a batch of one context of two tokens: the
    first gives the start probabilities (4/5, 1/5), the second (1/5, 4/5). *)
Definition skewed_log_p (first : bool) : tensor R :=
  Tensor [1; 2]
    (fun idx =>
       if bool_decide (idx = [0; 0]) then (if first then ln (4 / 5) else ln (1 / 5))%R
       else (if first then ln (1 / 5) else ln (4 / 5))%R).

Definition two_models (lp : bool) (b : unit) : result (tensor R * tensor R) :=
  Ok (skewed_log_p lp, skewed_log_p lp).

(** An attention layer of hidden size 4 with 2 heads whose query and key
    projections are constant: zero weights, biases [100000] and [-100000].
    Every unmasked score is [-2 * 100000^2 / sqrt 2], below the fill value. *)
Definition big : R := 100000%R.

Definition const_linear (n : nat) (c : R) : Linear :=
  {| in_features := n; out_features := n;
     weight := Tensor [n; n] (fun _ => 0%R);
     bias := Some (Tensor [n] (fun _ => c)) |}.

Definition extreme_attention : CausalSelfAttention :=
  {| key := const_linear 4 (- big)%R; query := const_linear 4 big;
     value := const_linear 4 0%R;
     attn_drop := {| drop_p := (1 / 10)%R |};
     resid_drop := {| drop_p := 0%R |};
     proj := const_linear 4 0%R; n_head := 2 |}.

(** A batch of two sequences of length 5; the first is padded at its last
    two positions, mask [1, 1, 1, 0, 0]. *)
Definition padded_mask : tensor Z :=
  Tensor [2; 5]
    (fun idx =>
       match idx with
       | [0; j] => if decide (j < 3) then 1%Z else 0%Z
       | _ => 1%Z
       end).

(** An output layer over a hidden size of 1 with zero weights. *)
Definition zero_output : QANetOutput :=
  {| w1 := {| in_features := 2; out_features := 1;
              weight := Tensor [1; 2] (fun _ => 0%R); bias := None |};
     w2 := {| in_features := 2; out_features := 1;
              weight := Tensor [1; 2] (fun _ => 0%R); bias := None |} |}.

(** One sequence of two positions, the second one padding. *)
Definition half_mask : tensor Z :=
  Tensor [1; 2] (fun idx => if bool_decide (idx = [0; 1]) then 0%Z else 1%Z).

(** A mask without a valid position. *)
Definition zeros_mask (s : list nat) : tensor Z := Tensor s (fun _ => 0%Z).

(** Two checkpoints of which the second cannot be run. *)
Definition failing_second (lp : bool) (b : unit) : result (tensor R * tensor R) :=
  if lp then Ok (skewed_log_p true, skewed_log_p true) else Raise ValueError.

(** ** test.py: main *)

(** What [main] can raise: its own [Exception], the error of reading a
    local variable that was never assigned, or an error of a callee. *)
Inductive main_error : Type :=
| Exception (msg : string)
| UnboundLocalError
| Raised (e : py_error).

(** A run of [main]: it returns after writing the submission file, whose
    text is kept, or it fails and no file is written. *)
Inductive outcome (A : Type) : Type :=
| Returns (a : A)
| Fails (e : main_error).
Arguments Returns {A} a.
Arguments Fails {A} e.

(** The state of the evaluation loop: the losses handed to
    [nll_meter.update], [pred_dict] and [sub_dict]. *)
Record eval_state : Type := {
  nll_meter : list R;
  pred_dict : gmap string string;
  sub_dict : gmap string string;
}.

Definition initial_state : eval_state :=
  {| nll_meter := []; pred_dict := ∅; sub_dict := ∅ |}.

(** [for x in l: st = body(st, x)] *)
Fixpoint for_each {S X : Type} (body : S -> X -> result S) (st : S) (l : list X)
  : result S :=
  match l with
  | [] => Ok st
  | x :: l' => st' ← body st x; for_each body st' l'
  end.

Fixpoint for_each_outcome {S X : Type} (body : S -> X -> outcome S) (st : S)
    (l : list X) : outcome S :=
  match l with
  | [] => Returns st
  | x :: l' =>
      match body st x with
      | Returns st' => for_each_outcome body st' l'
      | Fails e => Fails e
      end
  end.

(** Lines 46 to 68. *)
Definition valid_model_type (model_type : string) : bool :=
  bool_decide (model_type = "baseline" \/ model_type = "bidaf_char" \/
               model_type = "QANet").

Section Main.

Variable batch : Type.
Variable cw_idxs_size : batch -> list nat.
Variable load_path : Type.
Variable run_model : load_path -> batch -> result (tensor R * tensor R).

(** Lines 146 to 165: [F.nll_loss], [util.discretize] and
    [util.convert_tokens] on a batch and its combined distributions; they
    give the loss of the batch, [idx2pred] and [uuid2pred]. None of the three
    is among the sources. *)
Variable decode : batch -> tensor R -> tensor R ->
  result (R * gmap string string * gmap string string).

(** Lines 171 to 190: [util.eval_dicts], the log line and the TensorBoard
    visualisation, from the loss meter and [pred_dict]. *)
Variable report : list R -> gmap string string -> result unit.

(** The arguments [main] reads. *)
Record Args : Type := {
  model_type : string;
  split : string;
  ensemble_list : list load_path;
}.

(** The body of the loop over the data loader in the branch
    [len(args.ensemble_list) != 0], lines 93 to 167; [d.update(e)] gives the
    entries of [e] precedence. *)
Definition ensemble_step (args : Args) (st : eval_state) (b : batch)
  : result eval_state :=
  '(p1, p2) ← ensemble_batch batch cw_idxs_size load_path run_model
                (ensemble_list args) b;
  '(loss, idx2pred, uuid2pred) ← decode b p1 p2;
  Ok {| nll_meter := nll_meter st ++ [loss];
        pred_dict := idx2pred ∪ pred_dict st;
        sub_dict := uuid2pred ∪ sub_dict st |}.

(** Batch [b] is evaluated and decoded to the predictions [d]. *)
Definition batch_gives (args : Args) (b : batch)
    (d : gmap string string) : Prop :=
  exists p1 p2 loss idx2pred,
    ensemble_batch batch cw_idxs_size load_path run_model
      (ensemble_list args) b = Ok (p1, p2) /\
    decode b p1 p2 = Ok (loss, idx2pred, d).

(** The body of [for model_path in args.ensemble_list] in the other branch,
    lines 227 to 270: the first batch is run through the model and the call
    [tuple(p1, p2)] of line 254 raises; without a batch, line 256 reads [p1],
    which was never assigned. *)
Definition single_model_pass (data_loader : list batch) (st : eval_state)
    (model_path : load_path) : outcome eval_state :=
  match data_loader with
  | [] => Fails UnboundLocalError
  | b :: _ =>
      match run_model model_path b with
      | Ok _ => Fails (Raised TypeError)
      | Raise e => Fails (Raised e)
      end
  end.

(** The end of both branches: the results are reported unless the split is
    the test set, and the submission file is written. *)
Definition finish (args : Args) (st : eval_state) : outcome string :=
  match (if decide (split args = "test") then Ok tt
         else report (nll_meter st) (pred_dict st)) with
  | Ok _ => Returns (write_submission (sub_dict st))
  | Raise e => Fails (Raised e)
  end.

(** [main(args)] on the batches the data loader yields, in order. *)
Definition main (args : Args) (data_loader : list batch) : outcome string :=
  if valid_model_type (model_type args) then
    if decide (length (ensemble_list args) <> 0) then
      match for_each (ensemble_step args) initial_state data_loader with
      | Ok st => finish args st
      | Raise e => Fails (Raised e)
      end
    else
      match for_each_outcome (single_model_pass data_loader) initial_state
              (ensemble_list args) with
      | Returns st => finish args st
      | Fails e => Fails e
      end
  else Fails (Exception "Model provided not valid").

End Main.

Arguments model_type {load_path} _.
Arguments split {load_path} _.
Arguments ensemble_list {load_path} _.

(** A stand-in for the decoding of a batch: no loss, and the one
    prediction [uuid -> answer]. *)
Definition sample_decode (b : string * string) (p1 p2 : tensor R)
  : result (R * gmap string string * gmap string string) :=
  Ok (0%R, ∅, {[ b.1 := b.2 ]}).

Definition no_report (l : list R) (d : gmap string string) : result unit :=
  Ok tt.

Definition sample_models (lp : bool) (b : string * string)
  : result (tensor R * tensor R) :=
  Ok (skewed_log_p lp, skewed_log_p lp).

Definition sample_args (model_type split : string) (l : list bool) : Args bool :=
  {| model_type := model_type; split := split; ensemble_list := l |}.

(** Models of which the second cannot be run on the batch of id [b7]. *)
Definition failing_at_b7 (lp : bool) (b : string * string)
  : result (tensor R * tensor R) :=
  if bool_decide (b.1 = "b7") && negb lp then Raise ValueError
  else Ok (skewed_log_p lp, skewed_log_p lp).

(** * Properties *)

(** One step of the error monad, leaving the operations folded. *)
Ltac rstep := cbn [mbind result_bind fmap result_fmap mret result_ret].

(** ** Shapes and broadcasting *)

Lemma bcast_dim_same (a : nat) : bcast_dim a a = Ok a.
Proof. unfold bcast_dim. by rewrite decide_True. Qed.

Lemma bcast_rev_same (s : list nat) : bcast_rev s s = Ok s.
Proof.
  induction s as [|a s IH]; [done|].
  cbn. rewrite bcast_dim_same. cbn. by rewrite IH.
Qed.

Lemma broadcast_shapes_same (s : list nat) : broadcast_shapes s s = Ok s.
Proof.
  unfold broadcast_shapes. rewrite bcast_rev_same. cbn.
  by rewrite reverse_involutive.
Qed.

(** ** Finite sums *)

Lemma rsum_S (n : nat) (f : nat -> R) : rsum (S n) f = (rsum n f + f n)%R.
Proof.
  unfold rsum. rewrite seq_S, foldr_app. cbn [foldr Nat.add].
  generalize (seq 0 n). intros l.
  induction l as [|a l IH]; cbn [foldr]; [lra|]. rewrite IH. lra.
Qed.

Lemma rsum_ext (n : nat) (f g : nat -> R) :
  (forall k, k < n -> f k = g k) -> rsum n f = rsum n g.
Proof.
  induction n as [|n IH]; intros Hfg; [done|].
  rewrite !rsum_S, IH, Hfg by auto with lia. done.
Qed.

Lemma rsum_div (n : nat) (f : nat -> R) (z : R) :
  rsum n (fun k => f k / z)%R = (rsum n f / z)%R.
Proof.
  induction n as [|n IH]; [unfold rsum; cbn; lra|].
  rewrite !rsum_S, IH. lra.
Qed.

Lemma rsum_nonneg (n : nat) (f : nat -> R) :
  (forall k, k < n -> (0 <= f k)%R) -> (0 <= rsum n f)%R.
Proof.
  induction n as [|n IH]; intros Hf; [unfold rsum; cbn; lra|].
  rewrite rsum_S. specialize (Hf n ltac:(lia)) as Hn.
  assert (0 <= rsum n f)%R by (apply IH; auto with lia). lra.
Qed.

(** A sum of non-negative terms bounds each of them. *)
Lemma rsum_ge_term (n : nat) (f : nat -> R) (j : nat) :
  (forall k, k < n -> (0 <= f k)%R) -> j < n -> (f j <= rsum n f)%R.
Proof.
  induction n as [|n IH]; intros Hf Hj; [lia|].
  rewrite rsum_S. specialize (Hf n ltac:(lia)) as Hn.
  destruct (decide (j = n)) as [->|Hne].
  - assert (0 <= rsum n f)%R by (apply rsum_nonneg; auto with lia). lra.
  - assert (f j <= rsum n f)%R by (apply IH; auto with lia). lra.
Qed.

(** ** Which exceptions the tensor operations raise *)

Lemma bcast_dim_err a b e : bcast_dim a b = Raise e -> e = SizeMismatch.
Proof. unfold bcast_dim. repeat case_decide; congruence. Qed.

Lemma bcast_rev_err s1 s2 e : bcast_rev s1 s2 = Raise e -> e = SizeMismatch.
Proof.
  revert s2. induction s1 as [|a s1 IH]; intros [|b s2]; cbn [bcast_rev]; try done.
  destruct (bcast_dim a b) eqn:Hd; rstep.
  - destruct (bcast_rev s1 s2) eqn:Hr; rstep; [done|].
    intros [= <-]. eauto.
  - intros [= <-]. by eapply bcast_dim_err.
Qed.

Lemma broadcast_shapes_err s1 s2 e :
  broadcast_shapes s1 s2 = Raise e -> e = SizeMismatch.
Proof.
  unfold broadcast_shapes.
  destruct (bcast_rev _ _) eqn:Hr; rstep; [done|].
  intros [= <-]. by eapply bcast_rev_err.
Qed.

Lemma tensor_map2_err {A B C} (f : A -> B -> C) x y e :
  tensor_map2 f x y = Raise e -> e = SizeMismatch.
Proof.
  unfold tensor_map2. destruct (broadcast_shapes _ _) eqn:Hs; rstep; [done|].
  intros [= <-]. by eapply broadcast_shapes_err.
Qed.

Lemma Linear_forward_err l x e : Linear_forward l x = Raise e -> e = SizeMismatch.
Proof.
  unfold Linear_forward. destruct (last (shape x)); [|congruence].
  case_decide; congruence.
Qed.

Lemma resolve_view_err n dims e : resolve_view n dims = Raise e -> e = InvalidView.
Proof.
  unfold resolve_view. case_decide; [congruence|].
  destruct (_ - _) as [|[|?]]; repeat case_decide; congruence.
Qed.

Lemma view_err {A} (x : tensor A) dims e : view x dims = Raise e -> e = InvalidView.
Proof.
  unfold view. destruct (resolve_view _ _) eqn:Hr; rstep; [done|].
  intros [= <-]. by eapply resolve_view_err.
Qed.

Lemma matmul_err x y e : matmul x y = Raise e -> e = SizeMismatch.
Proof.
  unfold matmul.
  destruct (reverse (shape x)) as [|m [|n bx]]; try congruence.
  destruct (reverse (shape y)) as [|p [|m' by_]]; try congruence.
  case_decide; [|congruence].
  destruct (bcast_rev bx by_) eqn:Hr; rstep; [done|].
  intros [= <-]. by eapply bcast_rev_err.
Qed.

Lemma split_heads_err self B T C t e :
  split_heads self B T C t = Raise e -> e = ZeroDivisionError \/ e = InvalidView.
Proof.
  unfold split_heads. case_decide; [intros [= <-]; by left|].
  destruct (view _ _) eqn:Hv; rstep; [done|].
  intros [= <-]. right. by eapply view_err.
Qed.

(** Closes a goal [r = Raise e -> e <> AssertionError] about one operation. *)
Ltac raise_cases :=
  try discriminate;
  match goal with
  | H : Linear_forward _ _ = Raise _ |- _ => apply Linear_forward_err in H
  | H : view _ _ = Raise _ |- _ => apply view_err in H
  | H : matmul _ _ = Raise _ |- _ => apply matmul_err in H
  | H : masked_fill _ _ _ = Raise _ |- _ => apply tensor_map2_err in H
  | H : tensor_map2 _ _ _ = Raise _ |- _ => apply tensor_map2_err in H
  | H : split_heads _ _ _ _ _ = Raise _ |- _ =>
      apply split_heads_err in H; destruct H
  end; congruence.

Lemma attention_scores_no_assert self x mask :
  attention_scores self x mask <> Raise AssertionError.
Proof.
  unfold attention_scores.
  destruct (shape x) as [|B [|T [|C [|??]]]]; try discriminate.
  destruct (Linear_forward (key self) x) eqn:?; rstep; [|intros [=]; raise_cases].
  destruct (split_heads self B T C a) eqn:?; rstep; [|intros [=]; raise_cases].
  destruct (Linear_forward (query self) x) eqn:?; rstep; [|intros [=]; raise_cases].
  destruct (split_heads self B T C a1) eqn:?; rstep; [|intros [=]; raise_cases].
  destruct (Linear_forward (value self) x) eqn:?; rstep; [|intros [=]; raise_cases].
  destruct (split_heads self B T C a3) eqn:?; rstep; [|intros [=]; raise_cases].
  destruct (view mask _) eqn:?; rstep; [|intros [=]; raise_cases].
  destruct (matmul a2 _) eqn:?; rstep; [|intros [=]; raise_cases].
  case_decide; [discriminate|].
  match goal with
  | |- context [masked_fill ?a ?m ?v] => destruct (masked_fill a m v) eqn:?
  end; rstep; [discriminate|intros [=]; raise_cases].
Qed.

Lemma CausalSelfAttention_forward_no_assert F_dropout self training x mask :
  CausalSelfAttention_forward F_dropout self training x mask
    <> Raise AssertionError.
Proof.
  unfold CausalSelfAttention_forward, attention_weights.
  destruct (shape x) as [|B [|T [|C [|??]]]]; try discriminate.
  pose proof (attention_scores_no_assert self x mask) as Hs.
  destruct (attention_scores self x mask) as [[att v]|e]; rstep;
    [|congruence].
  destruct (matmul _ v) eqn:?; rstep; [|intros [=]; raise_cases].
  destruct (view _ _) eqn:?; rstep; [|intros [=]; raise_cases].
  destruct (Linear_forward _ _) eqn:?; rstep; [discriminate|intros [=]; raise_cases].
Qed.

(** ** The positional-encoding table *)

Lemma broadcast_col_row (L k : nat) : broadcast_shapes [L; 1] [k] = Ok [L; k].
Proof.
  unfold broadcast_shapes. cbn [reverse rev_append bcast_rev].
  assert (bcast_dim 1 k = Ok k) as ->.
  { unfold bcast_dim. case_decide; [by subst|]. by rewrite decide_True. }
  done.
Qed.

Lemma expandable_same (s : list nat) : expandable s s = true.
Proof. apply bool_decide_eq_true_2, broadcast_shapes_same. Qed.

(** Widths that do not expand: the cosine block of an odd hidden size. *)
Lemma expandable_odd_width (L m : nat) :
  1 <= m -> expandable [L; S m] [L; m] = false.
Proof.
  intros Hm. apply bool_decide_eq_false_2.
  unfold broadcast_shapes. cbn [reverse rev_append bcast_rev].
  destruct (decide (m = 1)) as [->|Hm1].
  - rewrite bcast_dim_same. by cbn.
  - assert (bcast_dim (S m) m = Raise SizeMismatch) as ->; [|done].
    unfold bcast_dim. by rewrite !decide_False by lia.
Qed.

Lemma position_encoding_init_even (n_embd seq_len : Z) :
  (0 <= seq_len)%Z -> (0 < n_embd)%Z -> (n_embd `mod` 2 = 0)%Z ->
  exists pe,
    position_encoding_init n_embd seq_len = Ok pe /\
    shape (pos_encodings pe) = [1; Z.to_nat seq_len; Z.to_nat n_embd] /\
    forall p i, p < Z.to_nat seq_len -> 2 * i + 1 < Z.to_nat n_embd ->
      data (pos_encodings pe) [0; p; 2 * i] = sin (angle n_embd p i) /\
      data (pos_encodings pe) [0; p; 2 * i + 1] = cos (angle n_embd p i).
Proof.
  intros HL Hn Heven. unfold position_encoding_init.
  rewrite decide_False by lia. rewrite decide_False by lia.
  set (n := Z.to_nat n_embd). set (L := Z.to_nat seq_len).
  assert (exists m, n = 2 * m /\ 1 <= m) as (m & Hm & Hm1).
  { exists (Z.to_nat (n_embd `div` 2)). subst n.
    pose proof (Z_div_exact_full_2 n_embd 2 ltac:(lia) Heven) as Hd.
    assert (0 < n_embd `div` 2)%Z by lia.
    split; [|lia]. rewrite Hd at 1. rewrite Z2Nat.inj_mul by lia. done. }
  unfold tensor_mul, tensor_map2.
  cbn [shape unsqueeze arange tensor_map scale take drop app].
  replace ((L - 0 + 1 - 1) `div` 1) with L
    by (rewrite Nat.div_1_r; lia).
  replace ((n - 0 + 2 - 1) `div` 2) with m
    by (subst n; rewrite Hm; replace (2 * m - 0 + 2 - 1) with (1 + m * 2) by lia;
        rewrite Nat.div_add by lia; done).
  rewrite broadcast_col_row. rstep.
  unfold setitem_cols at 2. cbn [shape zeros tensor_map].
  replace ((n - 0 + 1) `div` 2) with m
    by (rewrite Hm; replace (2 * m - 0 + 1) with (1 + m * 2) by lia;
        rewrite Nat.div_add by lia; done).
  rewrite expandable_same. rstep.
  unfold setitem_cols. cbn [shape tensor_map].
  replace ((n - 1 + 1) `div` 2) with m
    by (rewrite Hm; replace (2 * m - 1 + 1) with (0 + m * 2) by lia;
        rewrite Nat.div_add by lia; done).
  rewrite expandable_same. rstep.
  eexists. split; [done|]. split; [done|].
  intros p i Hp Hi.
  cbn [pos_encodings unsqueeze data take drop app].
  assert (i < m) as Him by lia.
  assert (forall q j, q < L -> j < m ->
            Rmult
              (data (unsqueeze 1 (arange 0 L 1)) (bidx [L; 1] (bidx [L; m] [q; j])))
              (exp (Rmult (data (arange 0 n 2) (bidx [m] (bidx [L; m] [q; j])))
                          (- (ln 10000 / IZR n_embd))%R))
            = angle n_embd q j) as Hang.
  { intros q j Hq Hj. unfold bidx, angle.
    cbn [length zip_with drop Nat.sub unsqueeze arange data take app hd].
    repeat case_decide; subst; repeat f_equal; lia. }
  cbn [tensor_map scale unsqueeze arange shape data] in Hang.
  split.
  - rewrite decide_False; last first.
    { intros [H1 H2]. destruct i as [|i]; [lia|].
      replace (2 * S i - 1) with (1 + i * 2) in H2 by lia.
      rewrite Nat.Div0.mod_add in H2. done. }
    rewrite decide_True; last first.
    { split; [lia|]. replace (2 * i - 0) with (0 + i * 2) by lia.
      by rewrite Nat.Div0.mod_add. }
    replace ((2 * i - 0) `div` 2) with i
      by (replace (2 * i - 0) with (0 + i * 2) by lia;
          by rewrite Nat.div_add by lia).
    cbn [tensor_map scale unsqueeze arange shape data].
    f_equal. by apply Hang.
  - rewrite decide_True; last first.
    { split; [lia|]. replace (2 * i + 1 - 1) with (0 + i * 2) by lia.
      by rewrite Nat.Div0.mod_add. }
    replace ((2 * i + 1 - 1) `div` 2) with i
      by (replace (2 * i + 1 - 1) with (0 + i * 2) by lia;
          by rewrite Nat.div_add by lia).
    cbn [tensor_map scale unsqueeze arange shape data].
    f_equal. by apply Hang.
Qed.

Lemma angle_eq (n_embd : Z) (p i : nat) :
  angle n_embd p i =
    (INR p * exp (INR (2 * i) * - (ln 10000 / IZR n_embd)))%R.
Proof. unfold angle. repeat f_equal; lia. Qed.

Lemma position_encoding_init_odd (n_embd seq_len : Z) :
  (0 <= seq_len)%Z -> (3 <= n_embd)%Z -> (n_embd `mod` 2 = 1)%Z ->
  position_encoding_init n_embd seq_len = Raise SizeMismatch.
Proof.
  intros HL Hn Hodd. unfold position_encoding_init.
  rewrite decide_False by lia. rewrite decide_False by lia.
  set (n := Z.to_nat n_embd). set (L := Z.to_nat seq_len).
  assert (exists m, n = 2 * m + 1 /\ 1 <= m) as (m & Hm & Hm1).
  { exists (Z.to_nat (n_embd `div` 2)). subst n.
    pose proof (Z.div_mod n_embd 2 ltac:(lia)) as Hd. rewrite Hodd in Hd.
    assert (1 <= n_embd `div` 2)%Z by lia.
    split; [|lia]. rewrite Hd at 1.
    rewrite Z2Nat.inj_add, Z2Nat.inj_mul by lia. done. }
  unfold tensor_mul, tensor_map2.
  cbn [shape unsqueeze arange tensor_map scale take drop app].
  replace ((L - 0 + 1 - 1) `div` 1) with L
    by (rewrite Nat.div_1_r; lia).
  replace ((n - 0 + 2 - 1) `div` 2) with (S m)
    by (rewrite Hm; replace (2 * m + 1 - 0 + 2 - 1) with (0 + S m * 2) by lia;
        rewrite Nat.div_add by lia; done).
  rewrite broadcast_col_row. rstep.
  unfold setitem_cols at 2. cbn [shape zeros tensor_map].
  replace ((n - 0 + 1) `div` 2) with (S m)
    by (rewrite Hm; replace (2 * m + 1 - 0 + 1) with (0 + S m * 2) by lia;
        rewrite Nat.div_add by lia; done).
  rewrite expandable_same. rstep.
  unfold setitem_cols. cbn [shape tensor_map].
  replace ((n - 1 + 1) `div` 2) with m
    by (rewrite Hm; replace (2 * m + 1 - 1 + 1) with (1 + m * 2) by lia;
        rewrite Nat.div_add by lia; done).
  by rewrite expandable_odd_width.
Qed.

Lemma position_encoding_init_one (seq_len : Z) :
  (0 <= seq_len)%Z ->
  exists pe,
    position_encoding_init 1 seq_len = Ok pe /\
    shape (pos_encodings pe) = [1; Z.to_nat seq_len; 1] /\
    forall p, p < Z.to_nat seq_len ->
      data (pos_encodings pe) [0; p; 0] = sin (angle 1 p 0).
Proof.
  intros HL. unfold position_encoding_init.
  rewrite decide_False by lia. rewrite decide_False by lia.
  set (L := Z.to_nat seq_len).
  unfold tensor_mul, tensor_map2.
  cbn [shape unsqueeze arange tensor_map scale take drop app].
  replace ((L - 0 + 1 - 1) `div` 1) with L
    by (rewrite Nat.div_1_r; lia).
  change (Z.to_nat 1) with 1. change ((1 - 0 + 2 - 1) `div` 2) with 1.
  rewrite broadcast_col_row. rstep.
  unfold setitem_cols at 2. cbn [shape zeros tensor_map].
  change ((1 - 0 + 1) `div` 2) with 1.
  rewrite expandable_same. rstep.
  unfold setitem_cols. cbn [shape tensor_map].
  change ((1 - 1 + 1) `div` 2) with 0.
  assert (expandable [L; 1] [L; 0] = true) as ->.
  { apply bool_decide_eq_true_2. unfold broadcast_shapes.
    cbn [reverse rev_append bcast_rev].
    change (bcast_dim 1 0) with (Ok (A := nat) 0). rstep.
    rewrite bcast_dim_same. done. }
  rstep. eexists. split; [done|]. split; [done|].
  intros p Hp.
  cbn [pos_encodings unsqueeze data take drop app].
  rewrite decide_False by lia.
  rewrite decide_True by done.
  cbn [tensor_map scale unsqueeze arange shape data].
  unfold angle, bidx.
  cbn [length zip_with drop Nat.sub take app hd Nat.div].
  repeat case_decide; subst; repeat f_equal; lia.
Qed.

(** A table is only built for a hidden size that is positive and even, or
    one. *)
Lemma position_encoding_init_inv (n_embd seq_len : Z) (pe : position_encoding) :
  position_encoding_init n_embd seq_len = Ok pe ->
  (0 <= seq_len)%Z /\
  (n_embd = 1%Z \/ ((0 < n_embd)%Z /\ (n_embd `mod` 2 = 0)%Z)).
Proof.
  intros Hinit.
  destruct (decide (seq_len < 0 \/ n_embd < 0)%Z) as [Hneg|Hpos].
  { unfold position_encoding_init in Hinit. by rewrite decide_True in Hinit. }
  destruct (decide (n_embd = 0)%Z) as [->|Hnz].
  { unfold position_encoding_init in Hinit.
    rewrite decide_False in Hinit by done. by rewrite decide_True in Hinit. }
  split; [lia|].
  destruct (decide (n_embd = 1)%Z) as [|Hn1]; [by left|right].
  split; [lia|].
  pose proof (Z.mod_pos_bound n_embd 2 ltac:(lia)) as Hb.
  destruct (decide (n_embd `mod` 2 = 0)%Z) as [|Hodd]; [done|].
  assert (3 <= n_embd)%Z.
  { destruct (decide (n_embd = 2)%Z) as [->|]; [done|lia]. }
  rewrite position_encoding_init_odd in Hinit by lia. done.
Qed.

(** ** Adding the table to an input *)

Lemma bcast_dim_one_r (a : nat) : bcast_dim a 1 = Ok a.
Proof.
  unfold bcast_dim. repeat case_decide; done.
Qed.

Lemma bidx_in_range (s idx : list nat) : in_range s idx -> bidx s idx = idx.
Proof.
  intros Hr. unfold bidx.
  rewrite (Forall2_length _ _ _ Hr), Nat.sub_diag, drop_0.
  induction Hr as [|i d idx s Hlt _ IH]; [done|].
  cbn [zip_with]. rewrite IH. case_decide; [|done]. f_equal. lia.
Qed.

Lemma position_encoding_forward_ok (pe : position_encoding) (x : tensor R)
    (B T L n : nat) :
  shape (pos_encodings pe) = [1; L; n] ->
  shape x = [B; T; n] ->
  T <= L ->
  exists y,
    position_encoding_forward pe x = Ok y /\
    shape y = [B; T; n] /\
    forall b t c, b < B -> t < T -> c < n ->
      data y [b; t; c] =
        Rplus (data x [b; t; c]) (data (pos_encodings pe) [0; t; c]).
Proof.
  intros Hpe Hx HT. unfold position_encoding_forward.
  rewrite Hx. cbn [lookup list_lookup].
  unfold tensor_add, tensor_map2, slice_dim1. cbn [shape data].
  rewrite Hx, Hpe. cbn [alter list_alter].
  rewrite Nat.min_l by done.
  assert (broadcast_shapes [B; T; n] [1; T; n] = Ok [B; T; n]) as ->.
  { unfold broadcast_shapes. cbn [reverse rev_append bcast_rev].
    rewrite !bcast_dim_same, bcast_dim_one_r. done. }
  rstep. eexists. split; [done|]. split; [done|].
  intros b t c Hb Ht Hc. cbn [data].
  rewrite bidx_in_range by (repeat constructor; done).
  f_equal. f_equal. unfold bidx. cbn [length Nat.sub drop zip_with].
  rewrite decide_True by done.
  repeat case_decide; repeat f_equal; lia.
Qed.

Lemma position_encoding_forward_too_long (pe : position_encoding) (x : tensor R)
    (B T H L n : nat) :
  shape (pos_encodings pe) = [1; L; n] ->
  shape x = [B; T; H] ->
  2 <= L -> L < T ->
  position_encoding_forward pe x = Raise SizeMismatch.
Proof.
  intros Hpe Hx HL HT. unfold position_encoding_forward.
  rewrite Hx. cbn [lookup list_lookup].
  unfold tensor_add, tensor_map2, slice_dim1. cbn [shape data].
  rewrite Hx, Hpe. cbn [alter list_alter].
  rewrite Nat.min_r by lia.
  assert (broadcast_shapes [B; T; H] [1; L; n] = Raise SizeMismatch) as ->; [|done].
  unfold broadcast_shapes. cbn [reverse rev_append bcast_rev].
  assert (bcast_dim T L = Raise SizeMismatch) as HTL.
  { unfold bcast_dim. by rewrite !decide_False by lia. }
  destruct (bcast_dim H n) as [d|e] eqn:Hd.
  - rstep. rewrite HTL. done.
  - apply bcast_dim_err in Hd as ->. done.
Qed.

(** The frequencies [exp (2i * (- ln 10000 / n_embd))] form a geometric
    sequence of ratio less than 1. *)
Lemma frequencies_decrease (n_embd : Z) (i : nat) :
  (0 < n_embd)%Z ->
  exp (INR (2 * (i + 1)) * - (ln 10000 / IZR n_embd)) =
    (exp (INR (2 * i) * - (ln 10000 / IZR n_embd))
     * exp (2 * - (ln 10000 / IZR n_embd)))%R /\
  (0 < exp (2 * - (ln 10000 / IZR n_embd)) < 1)%R.
Proof.
  intros Hn. split.
  - rewrite <- exp_plus. f_equal.
    replace (2 * (i + 1)) with (2 * i + 2) by lia.
    rewrite plus_INR. change (INR 2) with (1 + 1)%R. lra.
  - split; [apply exp_pos|]. rewrite <- exp_0. apply exp_increasing.
    assert (0 < ln 10000)%R as Hln.
    { rewrite <- ln_1. apply ln_increasing; lra. }
    assert (0 < IZR n_embd)%R as Hz by (apply IZR_lt in Hn; exact Hn).
    assert (0 < ln 10000 / IZR n_embd)%R by (apply Rdiv_lt_0_compat; done).
    lra.
Qed.

(** C4: on a constructed encoder the table holds, at every position [p],
    [sin (p * exp (2i * (- ln 10000 / n_embd)))] in the even column [2i] and
    the cosine of the same angle in the odd column [2i+1], the frequencies
    decreasing geometrically with [i]; and for an input of [T] positions, [T]
    at most the table's length, [forward] returns the input plus the first
    [T] rows of the table, for every batch entry. *)
Theorem positional_table_is_sinusoidal
    (n_embd seq_len : Z) (pe : position_encoding) :
  position_encoding_init n_embd seq_len = Ok pe ->
  (forall p i, p < Z.to_nat seq_len ->
     (2 * i < Z.to_nat n_embd ->
      data (pos_encodings pe) [0; p; 2 * i] =
        sin (INR p * exp (INR (2 * i) * - (ln 10000 / IZR n_embd)))) /\
     (2 * i + 1 < Z.to_nat n_embd ->
      data (pos_encodings pe) [0; p; 2 * i + 1] =
        cos (INR p * exp (INR (2 * i) * - (ln 10000 / IZR n_embd)))))
  /\ (forall i,
        exp (INR (2 * (i + 1)) * - (ln 10000 / IZR n_embd)) =
          (exp (INR (2 * i) * - (ln 10000 / IZR n_embd))
           * exp (2 * - (ln 10000 / IZR n_embd)))%R /\
        (0 < exp (2 * - (ln 10000 / IZR n_embd)) < 1)%R)
  /\ (forall x B T, shape x = [B; T; Z.to_nat n_embd] ->
        T <= Z.to_nat seq_len ->
        exists y, position_encoding_forward pe x = Ok y /\
          shape y = [B; T; Z.to_nat n_embd] /\
          forall b t c, b < B -> t < T -> c < Z.to_nat n_embd ->
            data y [b; t; c] =
              Rplus (data x [b; t; c]) (data (pos_encodings pe) [0; t; c])).
Proof.
  intros Hinit.
  destruct (position_encoding_init_inv _ _ _ Hinit) as [HL [->|[Hpos Heven]]].
  - destruct (position_encoding_init_one seq_len HL) as (pe' & Hpe' & Hs & Hd).
    rewrite Hinit in Hpe'. injection Hpe' as <-. split; [|split].
    + intros p i Hp. split.
      * intros Hi. change (Z.to_nat 1) with 1 in Hi.
        assert (i = 0) as -> by lia. rewrite <- angle_eq. by apply Hd.
      * intros Hi. change (Z.to_nat 1) with 1 in Hi. lia.
    + intros i. by apply frequencies_decrease.
    + intros x B T Hx HT. by eapply position_encoding_forward_ok.
  - destruct (position_encoding_init_even n_embd seq_len HL Hpos Heven)
      as (pe' & Hpe' & Hs & Hd).
    rewrite Hinit in Hpe'. injection Hpe' as <-. split; [|split].
    2: { intros i. by apply frequencies_decrease. }
    + intros p i Hp.
      assert (2 * i < Z.to_nat n_embd -> 2 * i + 1 < Z.to_nat n_embd) as Hodd.
      { intros Hi.
        pose proof (Z_div_exact_full_2 n_embd 2 ltac:(lia) Heven) as Hdiv.
        assert (Z.to_nat n_embd = 2 * Z.to_nat (n_embd `div` 2)) as Hn.
        { rewrite Hdiv at 1. rewrite Z2Nat.inj_mul by lia. done. }
        lia. }
      rewrite <- angle_eq.
      split; intros Hi; apply Hd; auto.
    + intros x B T Hx HT. by eapply position_encoding_forward_ok.
Qed.

Lemma positional_table_is_sinusoidal_witness :
  exists pe, position_encoding_init 4 3 = Ok pe /\
    data (pos_encodings pe) [0; 2; 2] =
      sin (INR 2 * exp (INR (2 * 1) * - (ln 10000 / IZR 4))) /\
    data (pos_encodings pe) [0; 2; 3] =
      cos (INR 2 * exp (INR (2 * 1) * - (ln 10000 / IZR 4))) /\
    is_ok (position_encoding_forward pe (zeros [2; 3; 4])) = true.
Proof.
  eexists. split; [reflexivity|].
  pose proof (positional_table_is_sinusoidal 4 3 _ eq_refl) as (Htab & _ & Hfwd).
  destruct (Htab 2 1 ltac:(cbn; lia)) as [Hsin Hcos].
  split; [apply Hsin; cbn; lia|]. split; [apply Hcos; cbn; lia|].
  destruct (Hfwd (zeros [2; 3; 4]) 2 3 eq_refl ltac:(cbn; lia)) as (y & -> & _).
  reflexivity.
Defined.

Lemma position_encoding_init_shape (n_embd seq_len : Z) (pe : position_encoding) :
  position_encoding_init n_embd seq_len = Ok pe ->
  shape (pos_encodings pe) = [1; Z.to_nat seq_len; Z.to_nat n_embd].
Proof.
  intros Hinit.
  destruct (position_encoding_init_inv _ _ _ Hinit) as [HL [->|[Hpos Heven]]].
  - destruct (position_encoding_init_one seq_len HL) as (pe' & Hpe' & Hs & _).
    rewrite Hinit in Hpe'. injection Hpe' as <-. exact Hs.
  - destruct (position_encoding_init_even n_embd seq_len HL Hpos Heven)
      as (pe' & Hpe' & Hs & _).
    rewrite Hinit in Hpe'. injection Hpe' as <-. exact Hs.
Qed.

(** A forward pass that returns keeps the number of positions of its
    input, whatever the length of the table (as long as it has a row). *)
Lemma position_encoding_forward_keeps_length (pe : position_encoding)
    (x y : tensor R) (B T H L n : nat) :
  shape (pos_encodings pe) = [1; L; n] ->
  shape x = [B; T; H] ->
  1 <= L ->
  position_encoding_forward pe x = Ok y ->
  shape y !! 1 = Some T.
Proof.
  intros Hpe Hx HL. unfold position_encoding_forward.
  rewrite Hx. cbn [lookup list_lookup].
  unfold tensor_add, tensor_map2, slice_dim1. cbn [shape data].
  rewrite Hx, Hpe. cbn [alter list_alter].
  unfold broadcast_shapes. cbn [reverse rev_append bcast_rev].
  destruct (bcast_dim H n) as [d0|] eqn:H0; rstep; [|done].
  destruct (bcast_dim T (T `min` L)) as [d1|] eqn:H1; rstep; [|done].
  destruct (bcast_dim B 1) as [d2|] eqn:H2; rstep; [|done].
  intros [= <-]. cbn.
  unfold bcast_dim in H1. repeat case_decide; simplify_eq; f_equal; lia.
Qed.

(** C5, as the code has it: for a table of at least two rows (such as the
    default 1000) an input with more positions than the table has rows makes
    [forward] fail, with the size-mismatch error of the addition (the slice
    clamps and raises nothing); and a forward pass that returns never changes
    the number of positions of its input. *)
Theorem long_input_is_a_size_mismatch
    (n_embd seq_len : Z) (pe : position_encoding) (x : tensor R) (B T H : nat) :
  position_encoding_init n_embd seq_len = Ok pe ->
  shape x = [B; T; H] ->
  (2 <= seq_len)%Z ->
  (Z.to_nat seq_len < T ->
   position_encoding_forward pe x = Raise SizeMismatch) /\
  (forall y, position_encoding_forward pe x = Ok y -> shape y !! 1 = Some T).
Proof.
  intros Hinit Hx HL.
  pose proof (position_encoding_init_shape _ _ _ Hinit) as Hs.
  split.
  - intros HT. eapply position_encoding_forward_too_long; eauto. lia.
  - intros y Hy. eapply position_encoding_forward_keeps_length; eauto. lia.
Qed.

Lemma long_input_is_a_size_mismatch_witness :
  exists pe, position_encoding_init 2 2 = Ok pe /\
    position_encoding_forward pe (zeros [1; 3; 2]) = Raise SizeMismatch.
Proof.
  eexists. split; [reflexivity|].
  apply (long_input_is_a_size_mismatch 2 2 _ (zeros [1; 3; 2]) 1 3 2 eq_refl eq_refl
           ltac:(lia)).
  cbn. lia.
Defined.

(** C5, refuted as stated: over a table of one row an input of two positions
    is accepted, the row being broadcast; and over a table of two rows an
    input of three positions fails with a size mismatch, not an index
    error. *)
Lemma long_input_counterexample :
  (exists pe y, position_encoding_init 2 1 = Ok pe /\
     position_encoding_forward pe (zeros [1; 2; 2]) = Ok y /\
     shape y = [1; 2; 2]) /\
  (exists pe, position_encoding_init 2 2 = Ok pe /\
     position_encoding_forward pe (zeros [1; 3; 2]) = Raise SizeMismatch /\
     position_encoding_forward pe (zeros [1; 3; 2]) <> Raise IndexError).
Proof.
  split.
  - eexists. eexists. split; [reflexivity|]. split; reflexivity.
  - eexists. split; [reflexivity|]. split; [reflexivity|discriminate].
Qed.

(** ** Construction of the attention layer *)

Lemma nn_Linear_ok (n_in n_out : Z) (b : bool) (p : linear_params) :
  (0 <= n_in)%Z -> (0 <= n_out)%Z ->
  nn_Linear n_in n_out b p =
    Ok {| in_features := Z.to_nat n_in; out_features := Z.to_nat n_out;
          weight := Tensor [Z.to_nat n_out; Z.to_nat n_in] (init_weight p);
          bias := if b then Some (Tensor [Z.to_nat n_out] (init_bias p)) else None |}.
Proof. intros ??. unfold nn_Linear. rewrite decide_False; [done|lia]. Qed.

Lemma nn_Linear_inv (n_in n_out : Z) (b : bool) (p : linear_params) (l : Linear) :
  nn_Linear n_in n_out b p = Ok l ->
  (0 <= n_in)%Z /\ (0 <= n_out)%Z /\
  in_features l = Z.to_nat n_in /\ out_features l = Z.to_nat n_out.
Proof.
  unfold nn_Linear. destruct (decide _) as [|Hn]; [done|].
  intros [= <-]. cbn. lia.
Qed.

Lemma nn_Dropout_ok (p : R) :
  (0 <= p <= 1)%R -> nn_Dropout p = Ok {| drop_p := p |}.
Proof.
  intros [??]. unfold nn_Dropout.
  destruct (Rlt_dec p 0); [lra|]. destruct (Rlt_dec 1 p); [lra|done].
Qed.

Lemma nn_Dropout_inv (p : R) (d : Dropout) :
  nn_Dropout p = Ok d -> drop_p d = p.
Proof.
  unfold nn_Dropout. destruct (Rlt_dec p 0); [done|].
  destruct (Rlt_dec 1 p); [done|]. by intros [= <-].
Qed.

(** What a successful construction establishes. *)
Lemma CausalSelfAttention_init_inv n_embd nh ap rp bs p self :
  CausalSelfAttention_init n_embd nh ap rp bs p = Ok self ->
  nh <> 0%Z /\ (n_embd `mod` nh = 0)%Z /\ (0 <= n_embd)%Z /\
  n_head self = nh /\
  (in_features (key self) = Z.to_nat n_embd /\
   out_features (key self) = Z.to_nat n_embd) /\
  (in_features (query self) = Z.to_nat n_embd /\
   out_features (query self) = Z.to_nat n_embd) /\
  (in_features (value self) = Z.to_nat n_embd /\
   out_features (value self) = Z.to_nat n_embd) /\
  drop_p (attn_drop self) = ap.
Proof.
  unfold CausalSelfAttention_init.
  destruct (decide (nh = 0%Z)); [done|].
  destruct (decide _) as [Hm|]; [|done].
  destruct (nn_Linear n_embd n_embd true (key_params p)) as [k|] eqn:Hk; [|done].
  destruct (nn_Linear n_embd n_embd true (query_params p)) as [q|] eqn:Hq; [|done].
  destruct (nn_Linear n_embd n_embd true (value_params p)) as [v|] eqn:Hv; [|done].
  destruct (nn_Dropout ap) as [ad|] eqn:Had; [|done].
  destruct (nn_Dropout rp) as [rd|]; [|done].
  destruct (nn_Linear n_embd n_embd true (proj_params p)) as [pr|]; [|done].
  cbn. intros [= <-]. cbn.
  apply nn_Linear_inv in Hk as (? & ? & ? & ?).
  apply nn_Linear_inv in Hq as (? & ? & ? & ?).
  apply nn_Linear_inv in Hv as (? & ? & ? & ?).
  apply nn_Dropout_inv in Had. done.
Qed.

Lemma Linear_forward_shape (l : Linear) (x y : tensor R) :
  Linear_forward l x = Ok y ->
  last (shape x) = Some (in_features l) /\
  shape y = removelast (shape x) ++ [out_features l].
Proof.
  unfold Linear_forward. destruct (last (shape x)) as [n|]; [|done].
  destruct (decide _) as [->|]; [|done]. by intros [= <-].
Qed.

(** ** The head split never fails on a constructed layer *)

Lemma resolve_view_exact (n : nat) (dims : list Z) :
  Forall (fun d => 0 <= d)%Z dims ->
  numel (Z.to_nat <$> dims) = n ->
  resolve_view n dims = Ok (Z.to_nat <$> dims).
Proof.
  intros Hpos Hn. unfold resolve_view.
  rewrite decide_False; last first.
  { rewrite Exists_exists. intros (d & Hd & Hlt).
    rewrite Forall_forall in Hpos. specialize (Hpos d Hd). lia. }
  assert (filter (fun d => d <> (-1)%Z) dims = dims) as ->.
  { clear Hn. induction Hpos as [|d ds Hd _ IH]; [done|].
    rewrite filter_cons_True by (cbn; lia). by rewrite IH. }
  rewrite Nat.sub_diag. by rewrite decide_True.
Qed.

Lemma split_heads_ok (self : CausalSelfAttention) (B T C : nat) (t : tensor R) :
  (0 < n_head self)%Z ->
  (Z.of_nat C `mod` n_head self = 0)%Z ->
  shape t = [B; T; C] ->
  exists t', split_heads self B T C t = Ok t' /\
    shape t' = [B; Z.to_nat (n_head self); T;
                Z.to_nat (Z.of_nat C `div` n_head self)].
Proof.
  intros Hpos Hmod Hs. unfold split_heads.
  rewrite decide_False by lia. unfold view.
  rewrite resolve_view_exact.
  - rstep. eexists. split; [done|]. cbn. by rewrite !Nat2Z.id.
  - repeat constructor; try lia. apply Z.div_pos; lia.
  - rewrite Hs. cbn. rewrite !Nat2Z.id.
    assert (Z.to_nat (n_head self) * Z.to_nat (Z.of_nat C `div` n_head self) = C)
      as Hc.
    { rewrite <- Z2Nat.inj_mul by (try apply Z.div_pos; lia).
      rewrite <- Z_div_exact_full_2 by lia. by rewrite Nat2Z.id. }
    rewrite <- Hc at 2. lia.
Qed.

(** C7: constructing the attention layer with a hidden size that the head
    count does not divide raises at construction time ([AssertionError], or
    [ZeroDivisionError] from the [%] itself when the head count is zero);
    with [n_embd % n_head == 0] that assertion does not fire, and the
    construction succeeds for a non-negative size and dropout probabilities
    within [0, 1]; the forward pass never raises the assertion's error, and
    on a constructed layer the split of the projections into heads, the only
    step of the forward pass that needs the divisibility, always succeeds. *)
Theorem divisibility_is_checked_at_construction :
  (forall n_embd nh ap rp bs p,
      ~ (nh | n_embd)%Z ->
      CausalSelfAttention_init n_embd nh ap rp bs p =
        Raise (if decide (nh = 0%Z) then ZeroDivisionError else AssertionError))
  /\ (forall n_embd nh ap rp bs p,
      nh <> 0%Z -> (n_embd `mod` nh = 0)%Z ->
      CausalSelfAttention_init n_embd nh ap rp bs p <> Raise AssertionError /\
      ((0 <= n_embd)%Z -> (0 <= ap <= 1)%R -> (0 <= rp <= 1)%R ->
       is_ok (CausalSelfAttention_init n_embd nh ap rp bs p) = true))
  /\ (forall F_dropout self training x mask,
      CausalSelfAttention_forward F_dropout self training x mask
        <> Raise AssertionError)
  /\ (forall n_embd nh ap rp bs p self l x lx B T C,
      CausalSelfAttention_init n_embd nh ap rp bs p = Ok self ->
      (0 < nh)%Z ->
      l = key self \/ l = query self \/ l = value self ->
      shape x = [B; T; C] ->
      Linear_forward l x = Ok lx ->
      is_ok (split_heads self B T C lx) = true).
Proof.
  split; [|split; [|split]].
  - intros n_embd nh ap rp bs p Hdiv. unfold CausalSelfAttention_init.
    destruct (decide (nh = 0%Z)) as [->|Hnz]; [done|].
    rewrite decide_False; [done|].
    intros Hm. apply Hdiv. by apply Z.mod_divide.
  - intros n_embd nh ap rp bs p Hnz Hm. split.
    + unfold CausalSelfAttention_init.
      rewrite decide_False by done. rewrite decide_True by done.
      destruct (nn_Linear n_embd n_embd true (key_params p)) eqn:Hk; rstep;
        [|unfold nn_Linear in Hk; case_decide; congruence].
      destruct (nn_Linear n_embd n_embd true (query_params p)) eqn:Hq; rstep;
        [|unfold nn_Linear in Hq; case_decide; congruence].
      destruct (nn_Linear n_embd n_embd true (value_params p)) eqn:Hv; rstep;
        [|unfold nn_Linear in Hv; case_decide; congruence].
      destruct (nn_Dropout ap) eqn:Ha; rstep;
        [|unfold nn_Dropout in Ha; repeat destruct (Rlt_dec _ _); congruence].
      destruct (nn_Dropout rp) eqn:Hr; rstep;
        [|unfold nn_Dropout in Hr; repeat destruct (Rlt_dec _ _); congruence].
      destruct (nn_Linear n_embd n_embd true (proj_params p)) eqn:Hp; rstep;
        [done|unfold nn_Linear in Hp; case_decide; congruence].
    + intros Hn Hap Hrp. unfold CausalSelfAttention_init.
      rewrite decide_False by done. rewrite decide_True by done.
      rewrite !nn_Linear_ok by done. rstep.
      rewrite !nn_Dropout_ok by done. by rstep.
  - intros. apply CausalSelfAttention_forward_no_assert.
  - intros n_embd nh ap rp bs p self l x lx B T C Hinit Hpos Hl Hx Hlx.
    apply CausalSelfAttention_init_inv in Hinit
      as (_ & Hm & Hn & Hnh & (Hki & Hko) & (Hqi & Hqo) & (Hvi & Hvo) & _).
    apply Linear_forward_shape in Hlx as [Hlast Hshape].
    rewrite Hx in Hlast, Hshape. cbn in Hlast, Hshape.
    assert (C = Z.to_nat n_embd /\ out_features l = Z.to_nat n_embd) as [-> Hout].
    { destruct Hl as [->|[->| ->]]; split; congruence. }
    rewrite Hout in Hshape.
    destruct (split_heads_ok self B T (Z.to_nat n_embd) lx) as (t' & -> & _);
      [lia| |done|done].
    rewrite Z2Nat.id by done. by rewrite Hnh.
Qed.

Lemma divisibility_is_checked_at_construction_witness :
  CausalSelfAttention_init 5 2 0 0 128 zero_attention = Raise AssertionError
  /\ CausalSelfAttention_init 4 2 0 0 128 zero_attention <> Raise AssertionError
  /\ is_ok (CausalSelfAttention_init 4 2 0 0 128 zero_attention) = true
  /\ is_ok (self ← CausalSelfAttention_init 4 2 0 0 128 zero_attention;
            lx ← Linear_forward (key self) (zeros [2; 5; 4]);
            split_heads self 2 5 4 lx) = true.
Proof.
  destruct divisibility_is_checked_at_construction as (H1 & H2 & _ & H4).
  assert (is_ok (CausalSelfAttention_init 4 2 0 0 128 zero_attention) = true)
    as Hok.
  { apply (H2 4%Z 2%Z 0%R 0%R 128%Z zero_attention);
      [lia|reflexivity|lia|lra|lra]. }
  split; [|split; [|split]].
  - apply (H1 5%Z 2%Z 0%R 0%R 128%Z zero_attention). intros [k Hk]. lia.
  - apply (H2 4%Z 2%Z 0%R 0%R 128%Z zero_attention); [lia|reflexivity].
  - exact Hok.
  - destruct (CausalSelfAttention_init 4 2 0 0 128 zero_attention)
      as [self|e] eqn:Hs; [|discriminate Hok].
    rstep.
    destruct (CausalSelfAttention_init_inv _ _ _ _ _ _ _ Hs)
      as (_ & _ & _ & _ & (Hki & _) & _).
    destruct (Linear_forward (key self) (zeros [2; 5; 4])) as [lx|e] eqn:Hl.
    + rstep.
      apply (H4 4%Z 2%Z 0%R 0%R 128%Z zero_attention self (key self)
               (zeros [2; 5; 4]) lx 2 5 4);
        [exact Hs|lia|by left|reflexivity|exact Hl].
    + exfalso. unfold Linear_forward in Hl. cbn [shape zeros last] in Hl.
      rewrite decide_True in Hl; [discriminate|]. by rewrite Hki.
Defined.

(** ** The attention mask *)

Lemma resolve_view_nonneg (n : nat) (dims : list Z) (s : list nat) :
  Forall (fun d => 0 <= d)%Z dims ->
  resolve_view n dims = Ok s -> s = Z.to_nat <$> dims.
Proof.
  intros Hpos. unfold resolve_view.
  rewrite decide_False; last first.
  { rewrite Exists_exists. intros (d & Hd & Hlt).
    rewrite Forall_forall in Hpos. specialize (Hpos d Hd). lia. }
  assert (filter (fun d => d <> (-1)%Z) dims = dims) as ->.
  { induction Hpos as [|d ds Hd _ IH]; [done|].
    rewrite filter_cons_True by (cbn; lia). by rewrite IH. }
  rewrite Nat.sub_diag. case_decide; [|done]. by intros [= <-].
Qed.

Lemma split_heads_shape (self : CausalSelfAttention) (B T C : nat)
    (t t' : tensor R) :
  (0 < n_head self)%Z ->
  split_heads self B T C t = Ok t' ->
  shape t' = [B; Z.to_nat (n_head self); T;
              Z.to_nat (Z.of_nat C `div` n_head self)].
Proof.
  intros Hpos. unfold split_heads. rewrite decide_False by lia.
  unfold view.
  destruct (resolve_view _ _) as [s|] eqn:Hr; rstep; [|done].
  apply resolve_view_nonneg in Hr.
  - intros [= <-]. subst s. cbn. by rewrite !Nat2Z.id.
  - repeat constructor; try lia. apply Z.div_pos; lia.
Qed.

(** [mask.view(B, 1, 1, -1)] of a mask of shape [B, T]. *)
Lemma view_mask (mask m : tensor Z) (B T : nat) :
  shape mask = [B; T] ->
  view mask [Z.of_nat B; 1; 1; -1]%Z = Ok m ->
  shape m = [B; 1; 1; T] /\
  forall b j, b < B -> j < T -> data m [b; 0; 0; j] = data mask [b; j].
Proof.
  intros Hs. unfold view, resolve_view. rewrite Hs.
  rewrite decide_False; last first.
  { rewrite !Exists_cons, Exists_nil. lia. }
  rewrite filter_cons_True by (cbn; lia).
  rewrite filter_cons_True by done. rewrite filter_cons_True by done.
  rewrite filter_cons_False by (cbn; lia). rewrite filter_nil.
  cbn [length Nat.sub fmap list_fmap numel foldr].
  rewrite Nat2Z.id. change (Z.to_nat 1) with 1.
  replace (B * (1 * (1 * 1))) with B by lia.
  replace (B * (T * 1)) with (T * B) by lia.
  case_decide as HB; rstep; [|done].
  destruct HB as [HB _]. intros [= <-]. cbn [shape data].
  rewrite decide_False by lia. rewrite Nat.div_mul by done.
  split; [done|]. intros b j Hb Hj. f_equal.
  unfold flatten_index, unflatten_index.
  cbn [zip zip_with foldl fst snd reverse rev_append unflatten_rev].
  replace ((((0 * B + b) * 1 + 0) * 1 + 0) * T + j) with (j + b * T) by lia.
  rewrite Nat.Div0.mod_add, Nat.div_add by lia.
  rewrite (Nat.mod_small j T), (Nat.div_small j T) by done.
  cbn [Nat.add]. by rewrite Nat.mod_small.
Qed.

Lemma attention_scores_masked (self : CausalSelfAttention) (x : tensor R)
    (mask : tensor Z) (B T C : nat) (att v : tensor R) :
  shape x = [B; T; C] -> shape mask = [B; T] ->
  (0 < n_head self)%Z ->
  attention_scores self x mask = Ok (att, v) ->
  shape att = [B; Z.to_nat (n_head self); T; T] /\
  forall b h i j, b < B -> j < T -> data mask [b; j] = 0%Z ->
    data att [b; h; i; j] = mask_fill_value.
Proof.
  intros Hx Hm Hpos. unfold attention_scores. rewrite Hx.
  destruct (Linear_forward (key self) x) as [kx|]; rstep; [|done].
  destruct (split_heads self B T C kx) as [k|] eqn:Hk; rstep; [|done].
  destruct (Linear_forward (query self) x) as [qx|]; rstep; [|done].
  destruct (split_heads self B T C qx) as [q|] eqn:Hq; rstep; [|done].
  destruct (Linear_forward (value self) x) as [vx|]; rstep; [|done].
  destruct (split_heads self B T C vx) as [v'|]; rstep; [|done].
  destruct (view mask _) as [m|] eqn:Hv; rstep; [|done].
  apply split_heads_shape in Hk; [|done].
  apply split_heads_shape in Hq; [|done].
  destruct (view_mask mask m B T Hm Hv) as [Hms Hmd].
  set (nh := Z.to_nat (n_head self)) in *.
  set (hs := Z.to_nat (Z.of_nat C `div` n_head self)) in *.
  unfold matmul. cbn [transpose shape]. rewrite Hq, Hk.
  cbn [swap insert list_insert lookup_total list_lookup_total reverse rev_append].
  rewrite decide_True by done. rewrite bcast_rev_same. rstep.
  cbn [List.last].
  case_decide as Hhs; [done|].
  unfold masked_fill, tensor_map2.
  cbn [scale tensor_map eq_zero shape reverse rev_append app]. rewrite Hms.
  assert (broadcast_shapes [B; nh; T; T] [B; 1; 1; T] = Ok [B; nh; T; T]) as ->.
  { unfold broadcast_shapes. cbn [reverse rev_append bcast_rev].
    by rewrite !bcast_dim_same, !bcast_dim_one_r. }
  rstep. intros [= <- _]. split; [done|].
  intros b h i j Hb Hj Hz. cbn [data].
  assert (bidx [B; 1; 1; T] [b; h; i; j] = [b; 0; 0; j]) as ->.
  { unfold bidx. cbn [length Nat.sub drop zip_with].
    repeat case_decide; repeat f_equal; lia. }
  rewrite Hmd by done. by rewrite bool_decide_eq_true_2.
Qed.

(** The score of a masked key position, and a bound on its attention
    weight. *)
Lemma masked_weights_spec (self : CausalSelfAttention)
    (x : tensor R) (mask : tensor Z) (B T C : nat) (att v : tensor R) :
  shape x = [B; T; C] -> shape mask = [B; T] ->
  (0 < n_head self)%Z ->
  attention_scores self x mask = Ok (att, v) ->
  attention_weights self x mask = Ok (softmax att, v) /\
  forall b h i j, b < B -> j < T -> data mask [b; j] = 0%Z ->
    data att [b; h; i; j] = (- 1e10)%R /\
    (0 <= data (softmax att) [b; h; i; j])%R /\
    forall j', j' < T ->
      (data (softmax att) [b; h; i; j] <= exp (- 1e10 - data att [b; h; i; j']))%R.
Proof.
  intros Hx Hm Hpos Hs.
  destruct (attention_scores_masked self x mask B T C att v Hx Hm Hpos Hs)
    as [Hshape Hfill].
  split; [unfold attention_weights; by rewrite Hs|].
  intros b h i j Hb Hj Hz.
  specialize (Hfill b h i j Hb Hj Hz). unfold mask_fill_value in Hfill.
  set (z := rsum T (fun j' => exp (data att [b; h; i; j']))).
  assert (data (softmax att) [b; h; i; j] = (exp (- 1e10) / z)%R) as Hw.
  { cbn [softmax data]. rewrite Hshape. cbn [List.last removelast app].
    by rewrite Hfill. }
  assert (forall j', j' < T -> (exp (data att [b; h; i; j']) <= z)%R) as Hle.
  { intros j' Hj'.
    apply (rsum_ge_term T (fun j' => exp (data att [b; h; i; j']))); [|done].
    intros k _. left. apply exp_pos. }
  assert (0 < z)%R as Hzpos.
  { apply Rlt_le_trans with (exp (data att [b; h; i; j])); [apply exp_pos|].
    by apply Hle. }
  split; [done|]. rewrite Hw. split.
  - left. apply Rdiv_lt_0_compat; [apply exp_pos|done].
  - intros j' Hj'. unfold Rminus. rewrite exp_plus, exp_Ropp.
    apply Rmult_le_compat_l; [left; apply exp_pos|].
    apply Rinv_le_contravar; [apply exp_pos|by apply Hle].
Qed.



(** The unmasked scores of [extreme_attention] lie below the fill value. *)
Lemma extreme_score_below_fill :
  ((big * - big + (big * - big + 0)) * (1 / sqrt (INR 2)) < mask_fill_value)%R.
Proof.
  assert (0 < sqrt 2 < 2)%R as [Hs0 Hs2].
  { split; [apply sqrt_lt_R0; lra|apply sqrt_less; lra]. }
  assert (1 / 2 < 1 / sqrt 2)%R as Ht.
  { unfold Rdiv. rewrite !Rmult_1_l. apply Rinv_lt_contravar; [nra|done]. }
  change (INR 2) with (1 + 1)%R. replace (1 + 1)%R with 2%R by lra.
  unfold big, mask_fill_value. nra.
Qed.

(** C2, refuted as stated: in the scenario of the claim (two sequences,
    hidden size 4, two heads, length 5, mask [1, 1, 1, 0, 0] on the first
    row), with query and key projections that put every unmasked score below
    -1e10, the masked key positions 3 and 4 of that row receive more than a
    fifth of the attention each, not 0. *)
Lemma masked_weight_counterexample :
  exists att v,
    attention_weights extreme_attention (zeros [2; 5; 4]) padded_mask
      = Ok (att, v) /\
    data padded_mask [0; 3] = 0%Z /\ data padded_mask [0; 4] = 0%Z /\
    (1 / 5 < data att [0; 0; 0; 3]%nat)%R /\
    (1 / 5 < data att [0; 0; 0; 4]%nat)%R /\
    data att [0; 0; 0; 3] <> 0%R /\ data att [0; 0; 0; 4] <> 0%R.
Proof.
  eexists _, _. split; [reflexivity|]. split; [done|]. split; [done|].
  match goal with
  | |- (_ < ?a)%R /\ (_ < ?b)%R /\ _ =>
      assert (1 / 5 < a)%R as H3; [|assert (1 / 5 < b)%R as H4]
  end.
  1,2: cbv -[Rplus Rmult Rminus Ropp exp ln Rdiv Rinv IZR INR sqrt Rlt
             mask_fill_value big];
    replace (0 * 0 + (0 * 0 + (0 * 0 + (0 * 0 + 0))) + big)%R with big by lra;
    replace (0 * 0 + (0 * 0 + (0 * 0 + (0 * 0 + 0))) + - big)%R
      with (- big)%R by lra;
    pose proof extreme_score_below_fill as Hlt;
    apply exp_increasing in Hlt;
    set (a := exp ((big * - big + (big * - big + 0)) * (1 / sqrt (INR 2)))) in *;
    set (c := exp mask_fill_value) in *;
    assert (0 < a)%R by apply exp_pos;
    set (D := (a + (a + (a + (c + (c + 0)))))%R);
    assert (0 < D)%R by (unfold D; lra);
    assert (D * / D = 1)%R as Hinv by (apply Rinv_r; lra);
    assert (0 < / D)%R as Hi by (apply Rinv_0_lt_compat; lra);
    unfold Rdiv at 2; assert (D < 5 * c)%R by (unfold D; lra); nra.
  split; [exact H3|]. split; [exact H4|]. split; lra.
Qed.

Lemma view_mask_ok (mask : tensor Z) (B T : nat) :
  shape mask = [B; T] -> B <> 0 ->
  exists m, view mask [Z.of_nat B; 1; 1; -1]%Z = Ok m.
Proof.
  intros Hs HB. unfold view, resolve_view. rewrite Hs.
  rewrite decide_False; last first.
  { rewrite !Exists_cons, Exists_nil. lia. }
  rewrite filter_cons_True by (cbn; lia).
  rewrite filter_cons_True by done. rewrite filter_cons_True by done.
  rewrite filter_cons_False by (cbn; lia). rewrite filter_nil.
  cbn [length Nat.sub fmap list_fmap numel foldr].
  rewrite Nat2Z.id. change (Z.to_nat 1) with 1.
  replace (B * (1 * (1 * 1))) with B by lia.
  replace (B * (T * 1)) with (T * B) by lia.
  rewrite decide_True; [rstep; by eexists|].
  split; [done|]. apply Nat.Div0.mod_mul.
Qed.

(** On a constructed layer the scores are computed for every non-empty
    batch of the layer's hidden size with a mask of the batch's shape. *)
Lemma attention_scores_returns n_embd nh ap rp bs p (self : CausalSelfAttention)
    (x : tensor R) (mask : tensor Z) (B T : nat) :
  CausalSelfAttention_init n_embd nh ap rp bs p = Ok self ->
  (0 < nh)%Z -> (0 < n_embd)%Z -> B <> 0 ->
  shape x = [B; T; Z.to_nat n_embd] -> shape mask = [B; T] ->
  exists att v, attention_scores self x mask = Ok (att, v).
Proof.
  intros Hinit Hnh Hn HB Hx Hm.
  apply CausalSelfAttention_init_inv in Hinit
    as (_ & Hmod & _ & Hhead & (Hki & Hko) & (Hqi & Hqo) & (Hvi & Hvo) & _).
  assert (forall l, in_features l = Z.to_nat n_embd ->
                    out_features l = Z.to_nat n_embd ->
            exists lx t, Linear_forward l x = Ok lx /\
              split_heads self B T (Z.to_nat n_embd) lx = Ok t /\
              shape t = [B; Z.to_nat nh; T; Z.to_nat (n_embd `div` nh)])
    as Hproj.
  { intros l Hi Ho. unfold Linear_forward. rewrite Hx. cbn [last].
    rewrite decide_True by done. eexists. 
    edestruct (split_heads_ok self B T (Z.to_nat n_embd)) as (t & Ht & Hts);
      [lia| |shelve|].
    - rewrite Z2Nat.id by lia. by rewrite Hhead.
    - exists t. split; [done|]. split; [exact Ht|].
      rewrite Hts, Hhead. by rewrite Z2Nat.id by lia.
    Unshelve. cbn [shape removelast app]. by rewrite Ho. }
  unfold attention_scores. rewrite Hx.
  destruct (Hproj (key self) Hki Hko) as (kx & k & Hl1 & Hs1 & Hk).
  rewrite Hl1. rstep. rewrite Hs1. rstep.
  destruct (Hproj (query self) Hqi Hqo) as (qx & q & Hl2 & Hs2 & Hq).
  rewrite Hl2. rstep. rewrite Hs2. rstep.
  destruct (Hproj (value self) Hvi Hvo) as (vx & v & Hl3 & Hs3 & Hv).
  rewrite Hl3. rstep. rewrite Hs3. rstep.
  destruct (view_mask_ok mask B T Hm HB) as (m & Hview).
  rewrite Hview. rstep.
  destruct (view_mask mask m B T Hm Hview) as [Hms _].
  unfold matmul. cbn [transpose shape]. rewrite Hq, Hk.
  cbn [swap insert list_insert lookup_total list_lookup_total reverse rev_append].
  rewrite decide_True by done. rewrite bcast_rev_same. rstep.
  cbn [List.last].
  rewrite decide_False; last first.
  { assert (n_embd = nh * (n_embd `div` nh))%Z as Hd
      by (apply Z_div_exact_full_2; [lia|done]).
    assert (0 < n_embd `div` nh)%Z by nia. lia. }
  unfold masked_fill, tensor_map2.
  cbn [scale tensor_map eq_zero shape reverse rev_append app]. rewrite Hms.
  assert (broadcast_shapes [B; Z.to_nat nh; T; T] [B; 1; 1; T]
          = Ok [B; Z.to_nat nh; T; T]) as ->.
  { unfold broadcast_shapes. cbn [reverse rev_append bcast_rev].
    by rewrite !bcast_dim_same, !bcast_dim_one_r. }
  rstep. by eexists _, _.
Qed.

Lemma CausalSelfAttention_init_ok n_embd nh ap rp bs p :
  nh <> 0%Z -> (n_embd `mod` nh = 0)%Z -> (0 <= n_embd)%Z ->
  (0 <= ap <= 1)%R -> (0 <= rp <= 1)%R ->
  exists self, CausalSelfAttention_init n_embd nh ap rp bs p = Ok self.
Proof.
  intros Hnz Hm Hn Hap Hrp. unfold CausalSelfAttention_init.
  rewrite decide_False by done. rewrite decide_True by done.
  rewrite !nn_Linear_ok by done. rstep.
  rewrite !nn_Dropout_ok by done. rstep. by eexists.
Qed.

(** C2, as the code has it: on a constructed layer, for every non-empty
    batch, the mask is viewed as a tensor of shape [B, 1, 1, T], and a key
    position whose mask entry is 0 receives the score -1e10 before the
    softmax over the keys; its attention weight is then at most
    [exp (-1e10 - s)] for every score [s] of the same query: next to nothing
    as soon as one score of the row is not itself near -1e10 or below; how
    small it is depends on the other scores of the row. *)
Theorem masked_keys_get_the_fill_value n_embd nh ap rp bs p
    (self : CausalSelfAttention) (x : tensor R) (mask : tensor Z) (B T : nat) :
  CausalSelfAttention_init n_embd nh ap rp bs p = Ok self ->
  (0 < nh)%Z -> (0 < n_embd)%Z -> B <> 0 ->
  shape x = [B; T; Z.to_nat n_embd] -> shape mask = [B; T] ->
  exists m att v,
    view mask [Z.of_nat B; 1; 1; -1]%Z = Ok m /\
    shape m = [B; 1; 1; T] /\
    attention_scores self x mask = Ok (att, v) /\
    attention_weights self x mask = Ok (softmax att, v) /\
    forall b h i j, b < B -> j < T -> data mask [b; j] = 0%Z ->
      data att [b; h; i; j] = (- 1e10)%R /\
      (0 <= data (softmax att) [b; h; i; j])%R /\
      forall j', j' < T ->
        (data (softmax att) [b; h; i; j]
         <= exp (- 1e10 - data att [b; h; i; j']))%R.
Proof.
  intros Hinit Hnh Hn HB Hx Hm.
  destruct (view_mask_ok mask B T Hm HB) as (m & Hview).
  destruct (view_mask mask m B T Hm Hview) as [Hms _].
  destruct (attention_scores_returns _ _ _ _ _ _ self x mask B T Hinit Hnh Hn HB Hx Hm)
    as (att & v & Hs).
  exists m, att, v. split; [done|]. split; [done|]. split; [done|].
  apply (masked_weights_spec self x mask B T (Z.to_nat n_embd) att v); try done.
  apply CausalSelfAttention_init_inv in Hinit as (_ & _ & _ & -> & _). done.
Qed.

Lemma masked_keys_get_the_fill_value_witness :
  exists self att v,
    CausalSelfAttention_init 2 1 0 0 128 zero_attention = Ok self /\
    attention_scores self (ones [1; 2; 2]) half_mask = Ok (att, v) /\
    data att [0; 0; 0; 1] = (- 1e10)%R /\
    (data (softmax att) [0; 0; 0; 1]%nat
     <= exp (- 1e10 - data att [0; 0; 0; 0]%nat))%R.
Proof.
  destruct (CausalSelfAttention_init_ok 2 1 0 0 128 zero_attention)
    as (self & Hinit); [lia|reflexivity|lia|lra|lra|].
  destruct (masked_keys_get_the_fill_value 2%Z 1%Z 0%R 0%R 128%Z zero_attention
              self (ones [1; 2; 2]) half_mask 1 2 Hinit
              ltac:(lia) ltac:(lia) ltac:(lia) eq_refl eq_refl)
    as (m & att & v & _ & _ & Hs & _ & Hd).
  exists self, att, v. split; [exact Hinit|]. split; [exact Hs|].
  destruct (Hd 0 0 0 1 ltac:(lia) ltac:(lia) eq_refl) as (Hfill & _ & Hle).
  split; [exact Hfill|]. apply (Hle 0). lia.
Defined.

(** ** Construction of the encoder block *)

Lemma nn_LayerNorm_ok (n : Z) :
  (0 <= n)%Z -> nn_LayerNorm n = Ok {| normalized_shape := Z.to_nat n |}.
Proof. intros ?. unfold nn_LayerNorm. by rewrite decide_False by lia. Qed.

Lemma nn_Conv1d_ok (i o k g p : Z) (b : bool) :
  (0 < g)%Z -> (i `mod` g = 0)%Z -> (o `mod` g = 0)%Z ->
  (0 <= o)%Z -> (0 <= i)%Z -> (0 <= k)%Z ->
  is_ok (nn_Conv1d i o k g p b) = true.
Proof.
  intros. unfold nn_Conv1d.
  rewrite decide_False by lia. rewrite decide_False by (intros ?; done).
  rewrite decide_False by (intros ?; done).
  rewrite decide_False; [done|].
  pose proof (Z.div_pos i g ltac:(lia) ltac:(lia)). lia.
Qed.

(** The head count and attention dropout of a constructed block. *)
Lemma Block_init_inv (h : Z) (rp : R) (nc : Z) (p : block_params) (blk : Block) :
  Block_init h rp nc p = Ok blk ->
  n_head (attn blk) = 8%Z /\ drop_p (attn_drop (attn blk)) = (1 / 10)%R /\
  (h `mod` 8 = 0)%Z.
Proof.
  unfold Block_init.
  repeat match goal with
         | |- mbind _ ?m = _ -> _ => destruct m eqn:?; rstep; [|done]
         end.
  intros [= <-]. cbn [attn].
  match goal with
  | H : CausalSelfAttention_init _ _ _ _ _ _ = Ok _ |- _ =>
      apply CausalSelfAttention_init_inv in H as (_ & Hm & _ & Hn & _ & _ & _ & Hd)
  end.
  done.
Qed.

Lemma Block_init_even (h : Z) (rp : R) (nc : Z) (p : block_params) :
  (0 < h)%Z -> (h `mod` 2 = 0)%Z -> (h `mod` 8 <> 0)%Z -> (0 <= rp <= 1)%R ->
  Block_init h rp nc p = Raise AssertionError.
Proof.
  intros Hpos Heven Hn8 Hrp. unfold Block_init.
  destruct (position_encoding_init_even h default_seq_len) as (pe & -> & _);
    [done|done|done|].
  rstep. rewrite nn_LayerNorm_ok by lia. rstep.
  pose proof (nn_Conv1d_ok h h 7 h (7 `div` 2) false) as Hdw.
  rewrite Z.mod_same in Hdw by lia.
  destruct (nn_Conv1d h h 7 h _ false); [|by discriminate Hdw; lia].
  rstep.
  pose proof (nn_Conv1d_ok h h 1 1 0 true) as Hpw.
  rewrite Z.mod_1_r in Hpw.
  destruct (nn_Conv1d h h 1 1 0 true); [|by discriminate Hpw; lia].
  rstep. rewrite nn_Dropout_ok by done. rstep.
  unfold CausalSelfAttention_init.
  rewrite decide_False by done. by rewrite decide_False by done.
Qed.

Lemma Block_init_odd (h : Z) (rp : R) (nc : Z) (p : block_params) :
  (3 <= h)%Z -> (h `mod` 2 = 1)%Z ->
  Block_init h rp nc p = Raise SizeMismatch.
Proof.
  intros Hh Hodd. unfold Block_init.
  by rewrite position_encoding_init_odd.
Qed.

(** C10, as the code has it: a constructed block always carries an attention
    layer of 8 heads with attention dropout 0.1, so no block exists for a
    hidden size that 8 does not divide: the construction always fails, with
    the assertion's error for a positive even size (and a valid residual
    dropout), and, for an odd size of 3 or more, already with the size
    mismatch of the positional table, which is built first. *)
Theorem block_uses_eight_heads :
  (forall h rp nc p blk,
      Block_init h rp nc p = Ok blk ->
      n_head (attn blk) = 8%Z /\ drop_p (attn_drop (attn blk)) = (1 / 10)%R)
  /\ (forall h rp nc p,
      (h `mod` 8 <> 0)%Z -> is_ok (Block_init h rp nc p) = false)
  /\ (forall h rp nc p,
      (0 < h)%Z -> (h `mod` 2 = 0)%Z -> (h `mod` 8 <> 0)%Z -> (0 <= rp <= 1)%R ->
      Block_init h rp nc p = Raise AssertionError)
  /\ (forall h rp nc p,
      (3 <= h)%Z -> (h `mod` 2 = 1)%Z ->
      Block_init h rp nc p = Raise SizeMismatch).
Proof.
  split; [|split; [|split]].
  - intros h rp nc p blk Hb. by apply Block_init_inv in Hb as (? & ? & _).
  - intros h rp nc p Hn8.
    destruct (Block_init h rp nc p) as [blk|] eqn:Hb; [|done].
    by apply Block_init_inv in Hb as (_ & _ & ?).
  - apply Block_init_even.
  - apply Block_init_odd.
Qed.

Lemma block_uses_eight_heads_witness :
  is_ok (Block_init 12 0 4 zero_block) = false
  /\ Block_init 12 0 4 zero_block = Raise AssertionError
  /\ Block_init 5 0 4 zero_block = Raise SizeMismatch.
Proof.
  destruct block_uses_eight_heads as (_ & H2 & H3 & H4).
  split; [|split].
  - apply (H2 12%Z 0%R 4%Z zero_block). done.
  - apply (H3 12%Z 0%R 4%Z zero_block); [lia|done|done|lra].
  - apply (H4 5%Z 0%R 4%Z zero_block); [lia|done].
Defined.

(** C10, refuted as stated: for the odd hidden size 3, which 8 does not
    divide, the construction of a block fails with a size mismatch, not with
    an assertion error. *)
Lemma block_odd_size_counterexample :
  (3 `mod` 8 <> 0)%Z /\
  Block_init 3 0 1 zero_block = Raise SizeMismatch /\
  Block_init 3 0 1 zero_block <> Raise AssertionError.
Proof.
  split; [done|].
  assert (Block_init 3 0 1 zero_block = Raise SizeMismatch) as Hb
    by (by apply Block_init_odd).
  split; [done|]. by rewrite Hb.
Qed.

(** ** The encoder block *)

Lemma tensor_add_same_shape (x y : tensor R) :
  shape y = shape x ->
  exists s, tensor_add x y = Ok s /\ shape s = shape x /\
    forall idx, in_range (shape x) idx ->
      data s idx = (data x idx + data y idx)%R.
Proof.
  intros Hs. unfold tensor_add, tensor_map2.
  rewrite Hs, broadcast_shapes_same. rstep.
  eexists. split; [done|]. split; [done|].
  intros idx Hr. cbn [data]. by rewrite bidx_in_range.
Qed.

Section BlockProperties.

Variable F_dropout : R -> bool -> tensor R -> tensor R.
Variable LayerNorm_forward : LayerNorm -> tensor R -> result (tensor R).
Variable Conv1d_forward : Conv1d -> tensor R -> result (tensor R).

(** After any number of passes of the convolution loop, [x] and
    [residual] are the same tensor. *)
Lemma conv_loop_residual (self : Block) (training : bool) (n : nat)
    (st st' : tensor R * tensor R) :
  st.1 = st.2 ->
  conv_loop F_dropout LayerNorm_forward Conv1d_forward self training n st
    = Ok st' ->
  st'.1 = st'.2.
Proof.
  revert st. induction n as [|n IH]; intros st Heq; cbn [conv_loop].
  - by intros [= <-].
  - destruct (conv_step _ _ _ self training st) as [st1|] eqn:Hstep;
      rstep; [|done].
    apply IH. unfold conv_step in Hstep. destruct st as [x residual].
    destruct (LayerNorm_forward _ x); rstep; [|done].
    revert Hstep. rstep.
    destruct (ConvStack_forward _ _ _ _ _); rstep; [|done].
    destruct (tensor_iadd _ _); rstep; [|done].
    by intros [= <-].
Qed.

(** C3: in [Block.forward] the value [y] that enters the attention is the
    layer-normalised, then dropped-out, output of the convolution stage;
    the residual is that same output of the convolution stage; and the new
    activation is [y + attention(y, mask) + residual], entry by entry the
    sum of the three. *)
Theorem attention_sublayer_adds_three_terms
    (self : Block) (training : bool) (x0 x1 c r : tensor R) (mask : tensor Z) :
  position_encoding_forward (position_encoder self) x0 = Ok x1 ->
  conv_loop F_dropout LayerNorm_forward Conv1d_forward self training
    (Z.to_nat (num_convs self)) (x1, x1) = Ok (c, r) ->
  r = c
  /\ Block_forward F_dropout LayerNorm_forward Conv1d_forward self training x0 mask
     = (n ← LayerNorm_forward (attn_ln self) c;
        let y := F_dropout (1 / 10)%R training n in
        a ← CausalSelfAttention_forward F_dropout (attn self) training y mask;
        ya ← tensor_add y a;
        x ← tensor_add ya r;
        ff_sublayer F_dropout LayerNorm_forward self training x)
  /\ (forall n a,
        LayerNorm_forward (attn_ln self) c = Ok n ->
        let y := F_dropout (1 / 10)%R training n in
        CausalSelfAttention_forward F_dropout (attn self) training y mask = Ok a ->
        shape a = shape y -> shape r = shape y ->
        exists x,
          attn_sublayer F_dropout LayerNorm_forward self training (c, r) mask
            = Ok x /\
          shape x = shape y /\
          forall idx, in_range (shape y) idx ->
            data x idx = (data y idx + data a idx + data r idx)%R).
Proof.
  intros Hpe Hloop. split; [|split].
  - symmetry. exact (conv_loop_residual _ _ _ (x1, x1) (c, r) eq_refl Hloop).
  - unfold Block_forward. rewrite Hpe. rstep. rewrite Hloop. rstep.
    unfold attn_sublayer.
    destruct (LayerNorm_forward (attn_ln self) c); rstep; [|done].
    destruct (CausalSelfAttention_forward _ _ _ _ _); rstep; [|done].
    by destruct (tensor_add _ _).
  - intros n a Hn y Ha Hsa Hsr. unfold attn_sublayer.
    rewrite Hn. rstep. fold y. rewrite Ha. rstep.
    destruct (tensor_add_same_shape y a Hsa) as (ya & -> & Hya & Hd1). rstep.
    destruct (tensor_add_same_shape ya r) as (x & -> & Hx & Hd2);
      [congruence|].
    exists x. split; [done|]. split; [congruence|].
    intros idx Hr. rewrite Hd2 by (by rewrite Hya). by rewrite Hd1.
Qed.

End BlockProperties.

Lemma attention_sublayer_adds_three_terms_witness :
  exists x1 c a x,
    position_encoding_forward (position_encoder sample_block) (ones [1; 2; 2])
      = Ok x1 /\
    conv_loop eval_dropout id_LayerNorm id_Conv1d sample_block false 1 (x1, x1)
      = Ok (c, c) /\
    CausalSelfAttention_forward eval_dropout sample_attention false c
      (ones_mask [1; 2]) = Ok a /\
    attn_sublayer eval_dropout id_LayerNorm sample_block false (c, c)
      (ones_mask [1; 2]) = Ok x /\
    data x [0; 1; 1] =
      Rplus (Rplus (data c [0; 1; 1]) (data a [0; 1; 1])) (data c [0; 1; 1]).
Proof.
  epose proof (attention_sublayer_adds_three_terms
                 eval_dropout id_LayerNorm id_Conv1d sample_block false
                 (ones [1; 2; 2]) _ _ _ (ones_mask [1; 2]) eq_refl eq_refl)
    as (_ & _ & Hsum).
  destruct (Hsum _ _ eq_refl eq_refl eq_refl eq_refl) as (x & Hx & _ & Hd).
  eexists _, _, _, x.
  split; [reflexivity|]. split; [reflexivity|]. split; [reflexivity|].
  split; [exact Hx|].
  apply Hd. repeat constructor.
Defined.

(** ** Masked softmax *)

Lemma masked_softmax_spec (logits : tensor R) (mask : tensor Z) (s : list nat) :
  broadcast_shapes (shape logits) (shape mask) = Ok s ->
  exists P,
    masked_softmax logits mask = Ok P /\ shape P = s /\
    (forall idx, data mask (bidx (shape mask) idx) = 0%Z -> data P idx = NegInf) /\
    (forall pre,
       (exists j, j < List.last s 0 /\
                  data mask (bidx (shape mask) (pre ++ [j])) <> 0%Z) ->
       rsum (List.last s 0) (fun j => exp_lp (data P (pre ++ [j]))) = 1%R).
Proof.
  intros Hs. unfold masked_softmax, tensor_map2. rewrite Hs. rstep.
  eexists. split; [done|]. split; [done|]. cbn [shape data]. split.
  - intros idx Hm. by rewrite decide_True.
  - intros pre (j0 & Hj0 & Hvalid).
    set (n := List.last s 0).
    set (ml := fun idx : list nat =>
                 if decide (data mask (bidx (shape mask) idx) = 0%Z)
                 then NegInf
                 else Finite (data logits (bidx (shape logits) idx))).
    set (z := rsum n (fun j => exp_lp (ml (pre ++ [j])))).
    assert (forall k, 0 <= exp_lp (ml (pre ++ [k])))%R as Hnn.
    { intros k. destruct (ml (pre ++ [k])); cbn; [left; apply exp_pos|lra]. }
    assert (0 < z)%R as Hz.
    { apply Rlt_le_trans with (exp_lp (ml (pre ++ [j0]))).
      - unfold ml. rewrite decide_False by done. apply exp_pos.
      - apply (rsum_ge_term n (fun j => exp_lp (ml (pre ++ [j])))); auto. }
    rewrite (rsum_ext n _ (fun j => exp_lp (ml (pre ++ [j])) / z)%R).
    + rewrite rsum_div. fold z. by field; lra.
    + intros k _. rewrite removelast_last.
      change (exp_lp match ml (pre ++ [k]) with
                     | Finite r => Finite (r - ln z)
                     | NegInf => NegInf
                     end = (exp_lp (ml (pre ++ [k])) / z)%R).
      destruct (ml (pre ++ [k])) as [r|]; cbn [exp_lp];
        [|unfold Rdiv; by rewrite Rmult_0_l].
      unfold Rminus. rewrite exp_plus, exp_Ropp, exp_ln by done. done.
Qed.

(** ** The span-output layer *)

(** [torch.cat] along dimension 2 of two tensors of rank 3. *)
Lemma cat_2_rank3 {A} (X Y : tensor A) (B T H1 B' T' H2 : nat) :
  shape X = [B; T; H1] -> shape Y = [B'; T'; H2] ->
  cat 2 X Y =
    if decide ([B; T; 0] = [B'; T'; 0]) then
      Ok (Tensor [B; T; H1 + H2]
            (fun idx =>
               let i := idx !!! 2 in
               if decide (i < H1) then data X idx
               else data Y (<[2 := i - H1]> idx)))
    else Raise SizeMismatch.
Proof.
  intros HX HY. unfold cat, cat_should_skip. rewrite HX, HY.
  rewrite decide_False by (intros [?|?]; done).
  rewrite !bool_decide_eq_false_2 by done.
  cbn [lookup list_lookup insert list_insert]. done.
Qed.

Lemma output_scores (l : Linear) (X Y : tensor R) (B T H : nat) :
  shape X = [B; T; H] -> shape Y = [B; T; H] ->
  in_features l = H + H -> out_features l = 1 ->
  exists x s, cat 2 X Y = Ok x /\ Linear_forward l x = Ok s /\
              shape s = [B; T; 1].
Proof.
  intros HX HY Hin Hout.
  rewrite (cat_2_rank3 X Y B T H B T H HX HY), decide_True by done.
  eexists _, _. split; [done|].
  unfold Linear_forward. cbn [shape insert list_insert last].
  rewrite decide_True by done. split; [done|].
  cbn [shape removelast app]. by rewrite Hout.
Qed.

Lemma squeezed_scores_shape (B T : nat) :
  filter (fun d => d <> 1) [B; T; 1] = filter (fun d => d <> 1) [B; T].
Proof.
  rewrite !filter_cons, filter_nil.
  repeat case_decide; try done.
Qed.

Lemma broadcast_squeezed (B T : nat) :
  broadcast_shapes (filter (fun d => d <> 1) [B; T]) [B; T]
    = Ok (returned_shape B T).
Proof.
  unfold returned_shape. rewrite !filter_cons, filter_nil.
  repeat case_decide; try (exfalso; lia);
    unfold broadcast_shapes; cbn [reverse rev_append bcast_rev];
    rewrite ?bcast_dim_same, ?bcast_dim_one_r; rstep; try done.
  subst T. by rewrite bcast_dim_one_r.
Qed.

Lemma masked_scores_distribution (s : tensor R) (mask : tensor Z) (B T : nat) :
  shape s = [B; T; 1] -> shape mask = [B; T] ->
  exists P,
    masked_softmax (squeeze s) mask = Ok P /\
    shape P = returned_shape B T /\
    normalised_over_valid mask P /\
    (B = 1 \/ T <> 1 ->
     forall b, b < B ->
       (exists t, t < T /\ data mask [b; t] <> 0%Z) ->
       distribution_over_valid mask T P b).
Proof.
  intros Hs Hm.
  destruct (masked_softmax_spec (squeeze s) mask (returned_shape B T))
    as (P & HP & Hshape & Hmasked & Hsum).
  { cbn [squeeze shape]. rewrite Hs, Hm, squeezed_scores_shape.
    apply broadcast_squeezed. }
  exists P. split; [done|]. split; [done|]. split.
  { split.
    - intros idx Hz. by rewrite Hmasked.
    - intros pre Hex. rewrite Hshape in Hex |- *. rewrite <- (Hsum pre Hex).
      apply rsum_ext. intros j _. case_decide as Hz; [|done].
      by rewrite Hmasked. }
  intros HBT b Hb (t0 & Ht0 & Hvalid).
  assert (returned_shape B T = [B; T]) as Hret.
  { unfold returned_shape. by rewrite decide_False by lia. }
  rewrite Hret in Hsum. cbn [List.last] in Hsum.
  assert (forall t, t < T -> bidx (shape mask) [b; t] = [b; t]) as Hidx.
  { intros t Ht. rewrite Hm. apply bidx_in_range. by repeat constructor. }
  assert (forall t, t < T -> data mask [b; t] = 0%Z ->
                    exp_lp (data P [b; t]) = 0%R) as Hzero.
  { intros t Ht Hz. rewrite Hmasked; [done|]. by rewrite Hidx. }
  split; [done|].
  rewrite <- (Hsum [b]).
  - apply rsum_ext. intros t Ht. cbn [app].
    case_decide; [|done]. symmetry. by apply Hzero.
  - exists t0. split; [done|]. cbn [app]. by rewrite Hidx.
Qed.

(** What [QANetOutput.forward] returns on inputs of shape [B, T, H]. *)
Lemma QANetOutput_forward_spec (self : QANetOutput) (M1 M2 M3 : tensor R)
    (mask : tensor Z) (B T H : nat) :
  shape M1 = [B; T; H] -> shape M2 = [B; T; H] -> shape M3 = [B; T; H] ->
  shape mask = [B; T] ->
  in_features (w1 self) = H + H -> out_features (w1 self) = 1 ->
  in_features (w2 self) = H + H -> out_features (w2 self) = 1 ->
  exists p1 p2,
    QANetOutput_forward self M1 M2 M3 mask = Ok (p1, p2) /\
    shape p1 = returned_shape B T /\ shape p2 = returned_shape B T /\
    (normalised_over_valid mask p1 /\ normalised_over_valid mask p2) /\
    (B = 1 \/ T <> 1 ->
     forall b, b < B ->
       (exists t, t < T /\ data mask [b; t] <> 0%Z) ->
       distribution_over_valid mask T p1 b /\
       distribution_over_valid mask T p2 b).
Proof.
  intros H1 H2 H3 Hm Hi1 Ho1 Hi2 Ho2. unfold QANetOutput_forward.
  destruct (output_scores (w1 self) M1 M2 B T H) as (x1 & s1 & -> & Hl1 & Hs1);
    [done..|].
  destruct (output_scores (w2 self) M2 M3 B T H) as (x2 & s2 & -> & Hl2 & Hs2);
    [done..|].
  rstep. rewrite Hl1. rstep.
  destruct (masked_scores_distribution s1 mask B T Hs1 Hm)
    as (p1 & -> & Hp1 & Hn1 & Hd1).
  rstep. rewrite Hl2. rstep.
  destruct (masked_scores_distribution s2 mask B T Hs2 Hm)
    as (p2 & -> & Hp2 & Hn2 & Hd2).
  rstep. exists p1, p2. split; [done|]. split; [done|]. split; [done|].
  split; [done|].
  intros HBT b Hb Hv. split; [by apply Hd1|by apply Hd2].
Qed.

Lemma returned_shape_documented (B T : nat) :
  returned_shape B T = [B; T] <-> B = 1 \/ T <> 1.
Proof.
  unfold returned_shape. case_decide as HBT.
  - split; [|lia]. intros [= ->]. lia.
  - split; [lia|done].
Qed.

(** C9, as the code has it: the unqualified [squeeze()] turns the projected
    [B, T, 1] scores into logits without their batch dimension when the batch
    size is 1 and without their sequence dimension when the sequence length
    is 1; the masked softmax broadcasts these logits against the [B, T] mask,
    so the returned tensors have the shape [B, T] exactly when the batch size
    is 1 or the sequence length is not 1, and the shape [B, B] otherwise. *)
Theorem squeeze_and_returned_shape (self : QANetOutput) (M1 M2 M3 : tensor R)
    (mask : tensor Z) (B T H : nat) :
  shape M1 = [B; T; H] -> shape M2 = [B; T; H] -> shape M3 = [B; T; H] ->
  shape mask = [B; T] ->
  in_features (w1 self) = H + H -> out_features (w1 self) = 1 ->
  in_features (w2 self) = H + H -> out_features (w2 self) = 1 ->
  (exists x1 s1,
      cat 2 M1 M2 = Ok x1 /\ Linear_forward (w1 self) x1 = Ok s1 /\
      shape s1 = [B; T; 1] /\
      shape (squeeze s1) = filter (fun d => d <> 1) [B; T])
  /\ exists p1 p2,
      QANetOutput_forward self M1 M2 M3 mask = Ok (p1, p2) /\
      shape p2 = shape p1 /\
      (shape p1 = [B; T] <-> B = 1 \/ T <> 1) /\
      (T = 1 -> B <> 1 -> shape p1 = [B; B]).
Proof.
  intros H1 H2 H3 Hm Hi1 Ho1 Hi2 Ho2. split.
  - destruct (output_scores (w1 self) M1 M2 B T H) as (x1 & s1 & Hc & Hl & Hs);
      [done..|].
    exists x1, s1. repeat split; try done.
    cbn [squeeze shape]. by rewrite Hs, squeezed_scores_shape.
  - destruct (QANetOutput_forward_spec self M1 M2 M3 mask B T H)
      as (p1 & p2 & Hf & Hp1 & Hp2 & _ & _); [done..|].
    exists p1, p2. split; [done|]. split; [congruence|]. rewrite Hp1. split.
    + apply returned_shape_documented.
    + intros HT HB. unfold returned_shape. by rewrite decide_True.
Qed.

Lemma squeeze_and_returned_shape_witness :
  exists p1 p2,
    QANetOutput_forward zero_output (zeros [2; 1; 1]) (zeros [2; 1; 1])
      (zeros [2; 1; 1]) (ones_mask [2; 1]) = Ok (p1, p2) /\
    shape p1 = [2; 2].
Proof.
  destruct (squeeze_and_returned_shape zero_output
              (zeros [2; 1; 1]) (zeros [2; 1; 1]) (zeros [2; 1; 1])
              (ones_mask [2; 1]) 2 1 1
              eq_refl eq_refl eq_refl eq_refl eq_refl eq_refl eq_refl eq_refl)
    as (_ & p1 & p2 & Hf & _ & _ & Hs).
  exists p1, p2. split; [exact Hf|]. apply Hs; [reflexivity|lia].
Defined.

(** C9, refuted as stated: for a batch of one sequence of two positions the
    returned tensors do have the documented shape [B, T] = [1, 2], although
    the batch size is 1. *)
Lemma single_sequence_counterexample :
  exists p1 p2,
    QANetOutput_forward zero_output (zeros [1; 2; 1]) (zeros [1; 2; 1])
      (zeros [1; 2; 1]) (ones_mask [1; 2]) = Ok (p1, p2) /\
    shape p1 = [1; 2] /\ shape p2 = [1; 2].
Proof.
  eexists _, _. split; [reflexivity|]. split; reflexivity.
Qed.




(** ** Ensembling *)

Lemma exp_pow (x : R) (n : nat) : (exp x ^ n = exp (INR n * x))%R.
Proof.
  induction n as [|n IH].
  - cbn. by rewrite Rmult_0_l, exp_0.
  - rewrite S_INR. cbn [pow]. rewrite IH, <- exp_plus. f_equal. lra.
Qed.

Lemma exp_sum_list (l : list R) : exp (sum_list l) = prod_list (exp <$> l).
Proof.
  induction l as [|a l IH]; [apply exp_0|].
  rewrite fmap_cons. unfold sum_list, prod_list in *. cbn [foldr].
  by rewrite exp_plus, IH.
Qed.

Section DriverProperties.

Variable batch : Type.
Variable cw_idxs_size : batch -> list nat.
Variable load_path : Type.
Variable run_model : load_path -> batch -> result (tensor R * tensor R).

Lemma ensemble_loop_sums (b : batch) (s : list nat) (l : list load_path)
    (acc : tensor R * tensor R) :
  shape acc.1 = s -> shape acc.2 = s ->
  models_return batch load_path run_model s b l ->
  exists a1 a2,
    ensemble_loop batch load_path run_model b acc l = Ok (a1, a2) /\
    shape a1 = s /\ shape a2 = s /\
    forall idx, in_range s idx ->
      data a1 idx =
        (data acc.1 idx + sum_list ((fun lp => model_log_p1 batch load_path run_model lp b idx) <$> l))%R /\
      data a2 idx =
        (data acc.2 idx + sum_list ((fun lp => model_log_p2 batch load_path run_model lp b idx) <$> l))%R.
Proof.
  intros H1 H2 Hl. revert acc H1 H2.
  induction Hl as [|lp l (l1 & l2 & Hrun & Hs1 & Hs2) _ IH]; intros [c1 c2] H1 H2.
  - exists c1, c2. cbn. repeat split; try done; lra.
  - cbn [ensemble_loop]. unfold accumulate. rewrite Hrun. rstep.
    cbn [fst snd] in H1, H2.
    destruct (tensor_add_same_shape c1 l1) as (a1 & -> & Ha1 & Hd1);
      [congruence|]. rstep.
    destruct (tensor_add_same_shape c2 l2) as (a2 & -> & Ha2 & Hd2);
      [congruence|]. rstep.
    destruct (IH (a1, a2)) as (r1 & r2 & -> & Hr1 & Hr2 & Hd);
      [cbn; congruence..|].
    exists r1, r2. repeat split; try done.
    + destruct (Hd idx H) as [-> _]. cbn [fst].
      rewrite Hd1 by (by rewrite H1). rewrite fmap_cons.
      assert (model_log_p1 batch load_path run_model lp b idx = data l1 idx)
        as -> by (unfold model_log_p1; by rewrite Hrun).
      unfold sum_list. cbn [foldr]. lra.
    + destruct (Hd idx H) as [_ ->]. cbn [snd].
      rewrite Hd2 by (by rewrite H2). rewrite fmap_cons.
      assert (model_log_p2 batch load_path run_model lp b idx = data l2 idx)
        as -> by (unfold model_log_p2; by rewrite Hrun).
      unfold sum_list. cbn [foldr]. lra.
Qed.

(** The value of the combined distributions. *)
Lemma ensemble_batch_value (ensemble_list : list load_path) (b : batch) :
  models_return batch load_path run_model (cw_idxs_size b) b ensemble_list ->
  exists p1 p2,
    ensemble_batch batch cw_idxs_size load_path run_model ensemble_list b
      = Ok (p1, p2) /\
    shape p1 = cw_idxs_size b /\ shape p2 = cw_idxs_size b /\
    forall idx, in_range (cw_idxs_size b) idx ->
      data p1 idx =
        exp (sum_list ((fun lp => model_log_p1 batch load_path run_model lp b idx)
                         <$> ensemble_list)
             / INR (length ensemble_list)) /\
      data p2 idx =
        exp (sum_list ((fun lp => model_log_p2 batch load_path run_model lp b idx)
                         <$> ensemble_list)
             / INR (length ensemble_list)).
Proof.
  intros Hl. unfold ensemble_batch.
  destruct (ensemble_loop_sums b (cw_idxs_size b) ensemble_list
              (zeros (cw_idxs_size b), zeros (cw_idxs_size b)) eq_refl eq_refl Hl)
    as (a1 & a2 & -> & Hs1 & Hs2 & Hd).
  rstep. eexists _, _. split; [done|]. split; [done|]. split; [done|].
  intros idx Hr. destruct (Hd idx Hr) as [Hd1 Hd2].
  cbn [data tensor_map divide]. rewrite Hd1, Hd2. cbn [fst snd zeros data].
  by rewrite !Rplus_0_l.
Qed.

(** C1, as the code has it: in ensembling mode the combined distribution
    of a batch is, entry by entry, the exponential of the arithmetic mean of
    the models' log-probabilities; raised to the number of models it is the
    product of the models' probabilities, so it is their geometric mean,
    not renormalised. *)
Theorem ensemble_averages_log_probabilities
    (ensemble_list : list load_path) (b : batch) :
  ensemble_list <> [] ->
  models_return batch load_path run_model (cw_idxs_size b) b ensemble_list ->
  exists p1 p2,
    ensemble_batch batch cw_idxs_size load_path run_model ensemble_list b
      = Ok (p1, p2) /\
    forall idx, in_range (cw_idxs_size b) idx ->
      let n := length ensemble_list in
      let log_p1 := (fun lp => model_log_p1 batch load_path run_model lp b idx)
                      <$> ensemble_list in
      let log_p2 := (fun lp => model_log_p2 batch load_path run_model lp b idx)
                      <$> ensemble_list in
      data p1 idx = exp (sum_list log_p1 / INR n) /\
      data p2 idx = exp (sum_list log_p2 / INR n) /\
      (data p1 idx ^ n = prod_list (exp <$> log_p1))%R /\
      (data p2 idx ^ n = prod_list (exp <$> log_p2))%R.
Proof.
  intros Hne Hl.
  destruct (ensemble_batch_value ensemble_list b Hl)
    as (p1 & p2 & Hb & _ & _ & Hd).
  exists p1, p2. split; [done|]. intros idx Hr n lp1 lp2.
  destruct (Hd idx Hr) as [Hd1 Hd2].
  assert (INR n <> 0)%R as Hn.
  { apply not_0_INR. subst n. by destruct ensemble_list. }
  repeat split; try done.
  - rewrite Hd1, exp_pow, <- exp_sum_list. f_equal. fold n lp1. by field.
  - rewrite Hd2, exp_pow, <- exp_sum_list. f_equal. fold n lp2. by field.
Qed.

End DriverProperties.

Lemma two_models_return :
  models_return unit bool two_models [1; 2] tt [true; false].
Proof.
  repeat constructor; eexists _, _; (split; [reflexivity|]); split; reflexivity.
Defined.

Lemma ensemble_averages_log_probabilities_witness :
  exists p1 p2,
    ensemble_batch unit (fun _ => [1; 2]) bool two_models [true; false] tt
      = Ok (p1, p2) /\
    (data p1 [0; 0]%nat ^ 2 = prod_list (exp <$> [ln (4 / 5); ln (1 / 5)]))%R.
Proof.
  destruct (ensemble_averages_log_probabilities
              unit (fun _ => [1; 2]) bool two_models [true; false] tt
              ltac:(discriminate) two_models_return)
    as (p1 & p2 & Hb & Hd).
  exists p1, p2. split; [exact Hb|].
  destruct (Hd [0; 0] ltac:(repeat constructor)) as (_ & _ & H3 & _).
  exact H3.
Defined.

(** The geometric mean of 4/5 and 1/5. *)
Lemma exp_half_sum_logs :
  exp ((ln (4 / 5) + (ln (1 / 5) + 0)) / 2) = (2 / 5)%R.
Proof.
  set (y := exp ((ln (4 / 5) + (ln (1 / 5) + 0)) / 2)).
  assert (0 < y)%R as Hy by apply exp_pos.
  assert (y * y = 4 / 25)%R as Hsq.
  { unfold y. rewrite <- exp_plus.
    replace ((ln (4 / 5) + (ln (1 / 5) + 0)) / 2 +
             (ln (4 / 5) + (ln (1 / 5) + 0)) / 2)%R
      with (ln (4 / 5) + ln (1 / 5))%R by lra.
    rewrite exp_plus, !exp_ln by lra. lra. }
  nra.
Qed.

(** C1, refuted as stated: for two models that give a token the
    probabilities 4/5 and 1/5, the driver's combined value is 2/5, the
    exponential of the mean log-probability, while the arithmetic mean of the
    two probabilities is 1/2. *)
Lemma ensemble_counterexample :
  exists p1 p2,
    ensemble_batch unit (fun _ => [1; 2]) bool two_models [true; false] tt
      = Ok (p1, p2) /\
    data p1 [0; 0] = (2 / 5)%R /\
    ((exp (model_log_p1 unit bool two_models true tt [0; 0]%nat) +
      exp (model_log_p1 unit bool two_models false tt [0; 0]%nat)) / 2 = 1 / 2)%R /\
    data p1 [0; 0] <>
      ((exp (model_log_p1 unit bool two_models true tt [0; 0]%nat) +
        exp (model_log_p1 unit bool two_models false tt [0; 0]%nat)) / 2)%R.
Proof.
  destruct (ensemble_batch_value unit (fun _ => [1; 2]) bool two_models
              [true; false] tt two_models_return)
    as (p1 & p2 & Hb & _ & _ & Hd).
  exists p1, p2. split; [exact Hb|].
  destruct (Hd [0; 0] ltac:(repeat constructor)) as [Hd1 _].
  assert (data p1 [0; 0] = (2 / 5)%R) as Hp.
  { rewrite Hd1. exact exp_half_sum_logs. }
  assert ((exp (model_log_p1 unit bool two_models true tt [0; 0]%nat) +
           exp (model_log_p1 unit bool two_models false tt [0; 0]%nat)) / 2
          = 1 / 2)%R as Hm.
  { change (model_log_p1 unit bool two_models true tt [0; 0]%nat) with (ln (4 / 5)).
    change (model_log_p1 unit bool two_models false tt [0; 0]%nat) with (ln (1 / 5)).
    rewrite !exp_ln by lra. lra. }
  split; [exact Hp|]. split; [exact Hm|].
  rewrite Hp, Hm. lra.
Qed.

(** ** The submission file *)




Lemma sorted_spec (sub_dict : gmap string string) :
  StronglySorted String.le (sorted sub_dict) /\
  NoDup (sorted sub_dict) /\
  (forall k, k ∈ sorted sub_dict <-> is_Some (sub_dict !! k)) /\
  length (sorted sub_dict) = size sub_dict.
Proof.
  unfold sorted.
  pose proof (merge_sort_Permutation String.le (map_to_list sub_dict).*1) as Hp.
  split; [apply StronglySorted_merge_sort; apply _|].
  split; [rewrite Hp; apply NoDup_fst_map_to_list|].
  split.
  - intros k. rewrite Hp, list_elem_of_fmap. split.
    + intros ([k' v] & -> & Hin). apply elem_of_map_to_list in Hin. by exists v.
    + intros [v Hv]. exists (k, v). split; [done|].
      by apply elem_of_map_to_list.
  - rewrite Hp, length_fmap. by rewrite length_map_to_list.
Qed.


(** ** Sample runs *)

Example write_submission_sample :
  write_submission (<["b7" := "1,5"]> (<["a3" := "Paris"]> (<["c1" := ""]> ∅)))
  = "Id,Predicted" +:+ line_terminator
    +:+ "a3,Paris" +:+ line_terminator
    +:+ "b7," +:+ String dquote ("1,5" +:+ String dquote line_terminator)
    +:+ "c1," +:+ line_terminator.
Proof. vm_compute. reflexivity. Qed.

Example broadcast_samples :
  broadcast_shapes [2; 5; 4] [1; 5; 4] = Ok [2; 5; 4] /\
  broadcast_shapes [5] [1; 5] = Ok [1; 5] /\
  broadcast_shapes [3] [3; 1] = Ok [3; 3] /\
  broadcast_shapes [2; 3; 4] [1; 2; 4] = Raise SizeMismatch.
Proof. repeat split; reflexivity. Qed.

Example squeeze_samples :
  shape (squeeze (zeros [4; 7; 1])) = [4; 7] /\
  shape (squeeze (zeros [1; 7; 1])) = [7] /\
  shape (squeeze (zeros [4; 1; 1])) = [4] /\
  shape (squeeze (zeros [1; 1; 1])) = [].
Proof. repeat split; reflexivity. Qed.

Example arange_samples :
  shape (arange 0 6 2) = [3] /\ shape (arange 0 5 2) = [3] /\
  shape (arange 0 1000 1) = [1000] /\
  data (arange 0 6 2) [2] = INR 4.
Proof. repeat split; reflexivity. Qed.

Example view_samples :
  (shape <$> view (zeros [2; 5; 4]) [2; 5; 2; 2]%Z) = Ok [2; 5; 2; 2] /\
  (shape <$> view (zeros [2; 5]) [2; 1; 1; -1]%Z) = Ok [2; 1; 1; 5] /\
  (shape <$> view (zeros [2; 5; 4]) [2; 5; 3; 1]%Z) = Raise InvalidView /\
  unflatten_index [2; 5; 4] (flatten_index [2; 5; 2; 2] [1; 3; 1; 0]) = [1; 3; 2].
Proof. repeat split; reflexivity. Qed.

(** * Further properties *)

(** ** More on the positional encoder *)

(** X1: what [position_encoding.__init__] does for every pair of integers
    [n_embd] and [seq_len]. It returns exactly when [seq_len] is not negative
    and [n_embd] is 1 or a positive even number, and the table then has the
    shape [1, seq_len, n_embd]. Otherwise it raises: the negative-dimension
    error of [torch.zeros] when one of the two is negative, else
    [ZeroDivisionError] from [math.log(10000.0) / n_embd] when [n_embd] is 0,
    else, for an odd [n_embd] of 3 or more, the size mismatch of the
    assignment of the cosines. *)
Theorem position_encoding_init_outcome (n_embd seq_len : Z) :
  match position_encoding_init n_embd seq_len with
  | Ok pe =>
      (0 <= seq_len)%Z /\
      (n_embd = 1%Z \/ ((0 < n_embd)%Z /\ (n_embd `mod` 2 = 0)%Z)) /\
      shape (pos_encodings pe) = [1; Z.to_nat seq_len; Z.to_nat n_embd]
  | Raise e =>
      e = (if decide (seq_len < 0 \/ n_embd < 0)%Z then NegativeDimension
           else if decide (n_embd = 0)%Z then ZeroDivisionError
           else SizeMismatch) /\
      ((seq_len < 0)%Z \/ (n_embd <= 0)%Z \/
       ((3 <= n_embd)%Z /\ (n_embd `mod` 2 = 1)%Z))
  end.
Proof.
  destruct (position_encoding_init n_embd seq_len) as [pe|e] eqn:Hinit.
  - destruct (position_encoding_init_inv _ _ _ Hinit) as [HL Hn].
    split; [done|]. split; [done|]. by apply position_encoding_init_shape.
  - destruct (decide (seq_len < 0 \/ n_embd < 0)%Z) as [Hneg|Hpos].
    { unfold position_encoding_init in Hinit.
      rewrite decide_True in Hinit by done. injection Hinit as <-.
      split; [done|]. lia. }
    destruct (decide (n_embd = 0)%Z) as [->|Hnz].
    { unfold position_encoding_init in Hinit.
      rewrite decide_False in Hinit by done.
      rewrite decide_True in Hinit by done. injection Hinit as <-.
      split; [done|]. lia. }
    assert (0 <= seq_len)%Z as HL by lia.
    pose proof (Z.mod_pos_bound n_embd 2 ltac:(lia)) as Hb.
    destruct (decide (n_embd `mod` 2 = 0)%Z) as [Heven|Hodd].
    { destruct (position_encoding_init_even n_embd seq_len) as (pe & Hpe & _);
        [lia..|done|]. congruence. }
    destruct (decide (n_embd = 1)%Z) as [->|Hn1].
    { destruct (position_encoding_init_one seq_len HL) as (pe & Hpe & _).
      congruence. }
    assert (3 <= n_embd)%Z.
    { destruct (decide (n_embd = 2)%Z) as [->|]; [done|lia]. }
    rewrite position_encoding_init_odd in Hinit by lia.
    injection Hinit as <-. split; [done|]. right. right. lia.
Qed.

Lemma table_entry_cases (n_embd seq_len : Z) (pe : position_encoding) (p c : nat) :
  position_encoding_init n_embd seq_len = Ok pe ->
  p < Z.to_nat seq_len -> c < Z.to_nat n_embd ->
  exists i,
    (c = 2 * i /\ data (pos_encodings pe) [0; p; c] = sin (angle n_embd p i)) \/
    (c = 2 * i + 1 /\ data (pos_encodings pe) [0; p; c] = cos (angle n_embd p i)).
Proof.
  intros Hinit Hp Hc.
  destruct (position_encoding_init_inv _ _ _ Hinit) as [HL [->|[Hpos Heven]]].
  - destruct (position_encoding_init_one seq_len HL) as (pe' & Hpe' & _ & Hd).
    rewrite Hinit in Hpe'. injection Hpe' as <-.
    change (Z.to_nat 1) with 1 in Hc. assert (c = 0) as -> by lia.
    exists 0. left. split; [done|]. by apply Hd.
  - destruct (position_encoding_init_even n_embd seq_len HL Hpos Heven)
      as (pe' & Hpe' & _ & Hd).
    rewrite Hinit in Hpe'. injection Hpe' as <-.
    assert (Z.to_nat n_embd = 2 * Z.to_nat (n_embd `div` 2)) as Hn.
    { pose proof (Z_div_exact_full_2 n_embd 2 ltac:(lia) Heven) as Hdiv.
      rewrite Hdiv at 1. rewrite Z2Nat.inj_mul by lia. done. }
    exists (c `div` 2).
    pose proof (Nat.div_mod_eq c 2) as Hc2.
    pose proof (Nat.mod_upper_bound c 2 ltac:(lia)) as Hm.
    destruct (Hd p (c `div` 2) Hp ltac:(lia)) as [Hsin Hcos].
    destruct (decide (c `mod` 2 = 0)) as [H0|H1].
    + left. assert (c = 2 * (c `div` 2)) as Hc' by lia.
      split; [done|]. by rewrite Hc' at 1.
    + right. assert (c = 2 * (c `div` 2) + 1) as Hc' by lia.
      split; [done|]. by rewrite Hc' at 1.
Qed.

(** X2: the positional encoder moves every entry of its input by at most 1
    in absolute value, and at position 0 it adds exactly 0 to the even
    columns ([sin 0]) and exactly 1 to the odd columns ([cos 0]). *)
Theorem position_encoding_shifts_by_at_most_one
    (n_embd seq_len : Z) (pe : position_encoding) (x : tensor R) (B T : nat) :
  position_encoding_init n_embd seq_len = Ok pe ->
  shape x = [B; T; Z.to_nat n_embd] ->
  T <= Z.to_nat seq_len ->
  exists y, position_encoding_forward pe x = Ok y /\
    forall b t c, b < B -> t < T -> c < Z.to_nat n_embd ->
      (Rabs (data y [b; t; c] - data x [b; t; c]) <= 1)%R /\
      (t = 0 ->
       data y [b; t; c] =
         (data x [b; t; c] + if Nat.even c then 0 else 1)%R).
Proof.
  intros Hinit Hx HT.
  pose proof (position_encoding_init_shape _ _ _ Hinit) as Hs.
  destruct (position_encoding_forward_ok pe x B T _ _ Hs Hx HT) as (y & Hy & _ & Hd).
  exists y. split; [done|]. intros b t c Hb Ht Hc.
  rewrite (Hd b t c Hb Ht Hc).
  destruct (table_entry_cases n_embd seq_len pe t c Hinit ltac:(lia) Hc)
    as (i & [[-> ->]|[-> ->]]).
  - split.
    + set (a := data x _).
      replace (a + sin (angle n_embd t i) - a)%R
        with (sin (angle n_embd t i)) by lra.
      apply Rabs_le. apply SIN_bound.
    + intros ->. replace (Nat.even (2 * i)) with true
        by (symmetry; apply Nat.even_spec; by exists i).
      unfold angle. cbn [Nat.add Nat.mul INR]. by rewrite Rmult_0_l, sin_0.
  - split.
    + set (a := data x _).
      replace (a + cos (angle n_embd t i) - a)%R
        with (cos (angle n_embd t i)) by lra.
      apply Rabs_le. apply COS_bound.
    + intros ->. replace (Nat.even (2 * i + 1)) with false.
      * unfold angle. cbn [Nat.add Nat.mul INR]. by rewrite Rmult_0_l, cos_0.
      * symmetry. rewrite <- Nat.negb_odd. apply negb_false_iff.
        apply Nat.odd_spec. by exists i.
Qed.

Lemma position_encoding_shifts_by_at_most_one_witness :
  exists pe y,
    position_encoding_init 4 3 = Ok pe /\
    position_encoding_forward pe (zeros [2; 3; 4]) = Ok y /\
    data y [1; 0; 3] = Rplus (data (zeros [2; 3; 4]) [1; 0; 3]) 1.
Proof.
  eexists. 
  destruct (position_encoding_shifts_by_at_most_one 4 3 _ (zeros [2; 3; 4]) 2 3
              eq_refl eq_refl ltac:(cbn; lia)) as (y & Hy & Hd).
  exists y. split; [reflexivity|]. split; [exact Hy|].
  apply (Hd 1 0 3); [lia|lia|cbn; lia|reflexivity].
Defined.

Lemma bcast_dim_one_l (b : nat) : bcast_dim 1 b = Ok b.
Proof. unfold bcast_dim. repeat case_decide; by subst. Qed.

Lemma position_encoding_forward_low_rank (pe : position_encoding) (x : tensor R) :
  length (shape x) < 2 -> position_encoding_forward pe x = Raise IndexError.
Proof.
  intros Hlen. unfold position_encoding_forward.
  destruct (shape x) as [|a [|a' s]]; cbn in Hlen |- *; [done|done|lia].
Qed.

Lemma position_encoding_forward_width_mismatch
    (pe : position_encoding) (x : tensor R) (B T H L n : nat) :
  shape (pos_encodings pe) = [1; L; n] ->
  shape x = [B; T; H] -> H <> n -> H <> 1 -> n <> 1 ->
  position_encoding_forward pe x = Raise SizeMismatch.
Proof.
  intros Hs Hx HH H1 Hn1. unfold position_encoding_forward.
  rewrite Hx. cbn [lookup list_lookup].
  unfold tensor_add, tensor_map2, slice_dim1. cbn [shape data].
  rewrite Hx, Hs. cbn [alter list_alter].
  unfold broadcast_shapes. cbn [reverse rev_append bcast_rev].
  assert (bcast_dim H n = Raise SizeMismatch) as ->; [|done].
  unfold bcast_dim. by rewrite !decide_False.
Qed.

Lemma position_encoding_forward_width_one
    (pe : position_encoding) (x : tensor R) (B T L n : nat) :
  shape (pos_encodings pe) = [1; L; n] ->
  shape x = [B; T; 1] -> T <= L ->
  exists y, position_encoding_forward pe x = Ok y /\
    shape y = [B; T; n] /\
    forall b t c, b < B -> t < T -> c < n ->
      data y [b; t; c] =
        Rplus (data x [b; t; 0]) (data (pos_encodings pe) [0; t; c]).
Proof.
  intros Hs Hx HT. unfold position_encoding_forward.
  rewrite Hx. cbn [lookup list_lookup].
  unfold tensor_add, tensor_map2, slice_dim1. cbn [shape data].
  rewrite Hx, Hs. cbn [alter list_alter]. rewrite Nat.min_l by done.
  assert (broadcast_shapes [B; T; 1] [1; T; n] = Ok [B; T; n]) as ->.
  { unfold broadcast_shapes. cbn [reverse rev_append bcast_rev].
    by rewrite bcast_dim_one_l, bcast_dim_same, bcast_dim_one_r. }
  rstep. eexists. split; [done|]. split; [done|].
  intros b t c Hb Ht Hc. cbn [data]. unfold bidx.
  cbn [length Nat.sub drop zip_with].
  repeat case_decide; try done; repeat f_equal; lia.
Qed.

(** X3: inputs of [position_encoding.forward] that are not of shape
    [B, T, n_embd]. An input of rank below 2 raises [IndexError] at
    [x.shape[1]]. A rank-3 input whose last size is neither [n_embd] nor 1
    raises the size mismatch of the addition (for a table wider than one
    column). An input whose last size is 1 is not rejected: its single
    column is broadcast, and the result has [n_embd] columns, entry
    [[b; t; c]] being [x[b; t; 0]] plus the table entry. *)
Theorem position_encoding_forward_edge_cases
    (n_embd seq_len : Z) (pe : position_encoding) (x : tensor R) :
  position_encoding_init n_embd seq_len = Ok pe ->
  (length (shape x) < 2 -> position_encoding_forward pe x = Raise IndexError)
  /\ (forall B T H,
        shape x = [B; T; H] ->
        H <> Z.to_nat n_embd -> H <> 1 -> n_embd <> 1%Z ->
        position_encoding_forward pe x = Raise SizeMismatch)
  /\ (forall B T,
        shape x = [B; T; 1] -> T <= Z.to_nat seq_len ->
        exists y, position_encoding_forward pe x = Ok y /\
          shape y = [B; T; Z.to_nat n_embd] /\
          forall b t c, b < B -> t < T -> c < Z.to_nat n_embd ->
            data y [b; t; c] =
              Rplus (data x [b; t; 0]) (data (pos_encodings pe) [0; t; c])).
Proof.
  intros Hinit.
  pose proof (position_encoding_init_shape _ _ _ Hinit) as Hs.
  destruct (position_encoding_init_inv _ _ _ Hinit) as [_ Hn].
  split; [|split].
  - apply position_encoding_forward_low_rank.
  - intros B T H Hx HH H1 Hn1.
    apply (position_encoding_forward_width_mismatch pe x B T H _ _ Hs Hx);
      [done|done|lia].
  - intros B T Hx HT.
    by apply (position_encoding_forward_width_one pe x B T _ _ Hs Hx).
Qed.

Lemma position_encoding_forward_edge_cases_witness :
  exists pe,
    position_encoding_init 4 3 = Ok pe /\
    position_encoding_forward pe (zeros [5]) = Raise IndexError /\
    position_encoding_forward pe (zeros [2; 3; 6]) = Raise SizeMismatch /\
    is_ok (position_encoding_forward pe (zeros [2; 3; 1])) = true.
Proof.
  eexists. split; [reflexivity|].
  destruct (position_encoding_forward_edge_cases 4 3 _ (zeros [5]) eq_refl)
    as (H1 & _ & _).
  destruct (position_encoding_forward_edge_cases 4 3 _ (zeros [2; 3; 6]) eq_refl)
    as (_ & H2 & _).
  destruct (position_encoding_forward_edge_cases 4 3 _ (zeros [2; 3; 1]) eq_refl)
    as (_ & _ & H3).
  split; [apply H1; cbn; lia|].
  split; [apply (H2 2 3 6); [reflexivity|cbn; lia|lia|lia]|].
  destruct (H3 2 3 eq_refl ltac:(cbn; lia)) as (y & -> & _). reflexivity.
Defined.

(** ** The attention weights *)

Lemma rsum_const (n : nat) (c : R) : rsum n (fun _ => c) = (INR n * c)%R.
Proof.
  induction n as [|n IH]; [unfold rsum; cbn; lra|].
  rewrite rsum_S, IH, S_INR. lra.
Qed.

Lemma rsum_exp_pos (n : nat) (f : nat -> R) :
  0 < n -> (0 < rsum n (fun j => exp (f j)))%R.
Proof.
  intros Hn. apply Rlt_le_trans with (exp (f 0%nat)); [apply exp_pos|].
  apply (rsum_ge_term n (fun j => exp (f j))); [|done].
  intros k _. left. apply exp_pos.
Qed.

(** A row of [F.softmax(x, dim=-1)]. *)
Lemma softmax_row (x : tensor R) (pre : list nat) (j : nat) :
  data (softmax x) (pre ++ [j]) =
    (exp (data x (pre ++ [j])) /
     rsum (List.last (shape x) 0%nat) (fun j' => exp (data x (pre ++ [j']))))%R.
Proof. cbn [softmax data]. by rewrite removelast_last. Qed.

Lemma softmax_row_sums_to_one (x : tensor R) (pre : list nat) :
  0 < List.last (shape x) 0%nat ->
  rsum (List.last (shape x) 0%nat) (fun j => data (softmax x) (pre ++ [j])) = 1%R.
Proof.
  intros HT.
  rewrite (rsum_ext _ _ (fun j => (exp (data x (pre ++ [j])) /
      rsum (List.last (shape x) 0%nat) (fun j' => exp (data x (pre ++ [j']))))%R))
    by (intros; apply softmax_row).
  rewrite rsum_div. apply Rdiv_diag.
  apply Rgt_not_eq, Rlt_gt, (rsum_exp_pos _ (fun j => data x (pre ++ [j]))), HT.
Qed.

Lemma softmax_row_bounds (x : tensor R) (pre : list nat) (j : nat) :
  j < List.last (shape x) 0%nat ->
  (0 <= data (softmax x) (pre ++ [j]) <= 1)%R.
Proof.
  intros Hj. rewrite softmax_row.
  set (z := rsum _ _).
  assert (0 < z)%R as Hz
    by (apply (rsum_exp_pos _ (fun j => data x (pre ++ [j]))); lia).
  assert (exp (data x (pre ++ [j])) <= z)%R as Hle.
  { apply (rsum_ge_term _ (fun j' => exp (data x (pre ++ [j'])))); [|done].
    intros k _. left. apply exp_pos. }
  split.
  - left. apply Rdiv_lt_0_compat; [apply exp_pos|done].
  - apply Rmult_le_reg_r with z; [done|].
    unfold Rdiv. rewrite Rmult_assoc, Rinv_l by lra. lra.
Qed.

(** The scores of a constructed layer and their shape. *)
Lemma attention_scores_shape n_embd nh ap rp bs p (self : CausalSelfAttention)
    (x : tensor R) (mask : tensor Z) (B T : nat) :
  CausalSelfAttention_init n_embd nh ap rp bs p = Ok self ->
  (0 < nh)%Z -> (0 < n_embd)%Z -> B <> 0 ->
  shape x = [B; T; Z.to_nat n_embd] -> shape mask = [B; T] ->
  exists att v,
    attention_scores self x mask = Ok (att, v) /\
    shape att = [B; Z.to_nat nh; T; T] /\
    forall b h i j, b < B -> j < T -> data mask [b; j] = 0%Z ->
      data att [b; h; i; j] = mask_fill_value.
Proof.
  intros Hinit Hnh Hn HB Hx Hm.
  destruct (attention_scores_returns _ _ _ _ _ _ self x mask B T
              Hinit Hnh Hn HB Hx Hm) as (att & v & Hs).
  apply CausalSelfAttention_init_inv in Hinit as (_ & _ & _ & Hhead & _).
  destruct (attention_scores_masked self x mask B T _ att v Hx Hm
              ltac:(by rewrite Hhead) Hs) as [Hshape Hfill].
  exists att, v. rewrite Hhead in Hshape. done.
Qed.

(** X4: on a constructed attention layer, for a non-empty batch of
    non-empty sequences, the attention weights ([att] after the softmax,
    before dropout) have the shape [B, n_head, T, T], every weight lies
    between 0 and 1, and the weights of every query sum to 1 over the keys,
    whatever the mask is, a mask without a valid position included. *)
Theorem attention_weights_are_distributions n_embd nh ap rp bs p
    (self : CausalSelfAttention) (x : tensor R) (mask : tensor Z) (B T : nat) :
  CausalSelfAttention_init n_embd nh ap rp bs p = Ok self ->
  (0 < nh)%Z -> (0 < n_embd)%Z -> B <> 0 -> T <> 0 ->
  shape x = [B; T; Z.to_nat n_embd] -> shape mask = [B; T] ->
  exists w v,
    attention_weights self x mask = Ok (w, v) /\
    shape w = [B; Z.to_nat nh; T; T] /\
    forall b h i,
      rsum T (fun j => data w [b; h; i; j]) = 1%R /\
      forall j, j < T -> (0 <= data w [b; h; i; j] <= 1)%R.
Proof.
  intros Hinit Hnh Hn HB HT Hx Hm.
  destruct (attention_scores_shape _ _ _ _ _ _ self x mask B T
              Hinit Hnh Hn HB Hx Hm) as (att & v & Hs & Hshape & _).
  exists (softmax att), v.
  split; [unfold attention_weights; by rewrite Hs|].
  split; [done|]. intros b h i.
  assert (List.last (shape att) 0 = T) as HL by (by rewrite Hshape).
  split.
  - pose proof (softmax_row_sums_to_one att [b; h; i]) as Hsum.
    rewrite HL in Hsum. apply Hsum. lia.
  - intros j Hj. apply (softmax_row_bounds att [b; h; i] j). by rewrite HL.
Qed.

Lemma attention_weights_are_distributions_witness :
  exists self w v,
    CausalSelfAttention_init 2 1 0 0 128 zero_attention = Ok self /\
    attention_weights self (ones [1; 2; 2]) half_mask = Ok (w, v) /\
    rsum 2 (fun j => data w [0; 0; 1; j]) = 1%R.
Proof.
  destruct (CausalSelfAttention_init_ok 2 1 0 0 128 zero_attention)
    as (self & Hinit); [lia|reflexivity|lia|lra|lra|].
  destruct (attention_weights_are_distributions 2%Z 1%Z 0%R 0%R 128%Z
              zero_attention self (ones [1; 2; 2]) half_mask 1 2 Hinit
              ltac:(lia) ltac:(lia) ltac:(lia) ltac:(lia) eq_refl eq_refl)
    as (w & v & Hw & _ & Hd).
  exists self, w, v. split; [exact Hinit|]. split; [exact Hw|].
  apply (Hd 0 0 1).
Defined.

(** X5: a sequence whose mask is 0 at every position. All its scores are
    filled with -1e10, so the softmax is uniform: every query of the
    sequence attends to each of the [T] keys with weight [1 / T]. *)
Theorem fully_masked_row_attends_uniformly n_embd nh ap rp bs p
    (self : CausalSelfAttention) (x : tensor R) (mask : tensor Z)
    (B T b : nat) :
  CausalSelfAttention_init n_embd nh ap rp bs p = Ok self ->
  (0 < nh)%Z -> (0 < n_embd)%Z ->
  shape x = [B; T; Z.to_nat n_embd] -> shape mask = [B; T] ->
  b < B -> (forall j, j < T -> data mask [b; j] = 0%Z) ->
  exists w v,
    attention_weights self x mask = Ok (w, v) /\
    forall h i j, j < T -> data w [b; h; i; j] = (1 / INR T)%R.
Proof.
  intros Hinit Hnh Hn Hx Hm Hb Hz.
  destruct (attention_scores_shape _ _ _ _ _ _ self x mask B T
              Hinit Hnh Hn ltac:(lia) Hx Hm) as (att & v & Hs & Hshape & Hfill).
  exists (softmax att), v.
  split; [unfold attention_weights; by rewrite Hs|].
  intros h i j Hj.
  change [b; h; i; j] with ([b; h; i] ++ [j]). rewrite softmax_row.
  rewrite Hshape. cbn [List.last app].
  rewrite (rsum_ext _ _ (fun _ => exp mask_fill_value)); last first.
  { intros k Hk. by rewrite Hfill by auto. }
  rewrite rsum_const, Hfill by auto.
  assert (0 < INR T)%R by (apply lt_0_INR; lia).
  pose proof (exp_pos mask_fill_value).
  field. split; lra.
Qed.

Lemma fully_masked_row_attends_uniformly_witness :
  exists self w v,
    CausalSelfAttention_init 2 1 0 0 128 zero_attention = Ok self /\
    attention_weights self (ones [1; 2; 2]) (zeros_mask [1; 2]) = Ok (w, v) /\
    data w [0; 0; 0; 1] = (1 / INR 2)%R.
Proof.
  destruct (CausalSelfAttention_init_ok 2 1 0 0 128 zero_attention)
    as (self & Hinit); [lia|reflexivity|lia|lra|lra|].
  destruct (fully_masked_row_attends_uniformly 2%Z 1%Z 0%R 0%R 128%Z
              zero_attention self (ones [1; 2; 2]) (zeros_mask [1; 2]) 1 2 0
              Hinit ltac:(lia) ltac:(lia) eq_refl eq_refl ltac:(lia)
              ltac:(reflexivity))
    as (w & v & Hw & Hd).
  exists self, w, v. split; [exact Hinit|]. split; [exact Hw|].
  apply (Hd 0 0 1). lia.
Defined.

(** ** The attention scores *)

(** Entry [[b; h; i; d]] of a split projection is entry [h * hs + d] of row
    [[b; i]] of the projection. *)
Lemma split_heads_data (self : CausalSelfAttention) (B T C : nat)
    (t t' : tensor R) :
  (0 < n_head self)%Z -> (Z.of_nat C `mod` n_head self = 0)%Z ->
  shape t = [B; T; C] ->
  split_heads self B T C t = Ok t' ->
  forall b h i d,
    b < B -> h < Z.to_nat (n_head self) -> i < T ->
    d < Z.to_nat (Z.of_nat C `div` n_head self) ->
    data t' [b; h; i; d] =
      data t [b; i; h * Z.to_nat (Z.of_nat C `div` n_head self) + d].
Proof.
  intros Hpos Hmod Hs. unfold split_heads.
  rewrite decide_False by lia. unfold view.
  assert (Z.to_nat (n_head self) * Z.to_nat (Z.of_nat C `div` n_head self) = C)
    as Hc.
  { rewrite <- Z2Nat.inj_mul by (try apply Z.div_pos; lia).
    rewrite <- Z_div_exact_full_2 by lia. by rewrite Nat2Z.id. }
  rewrite resolve_view_exact; first last.
  - rewrite Hs. cbn. rewrite !Nat2Z.id. rewrite <- Hc at 2. lia.
  - repeat constructor; try lia. apply Z.div_pos; lia.
  - rstep. intros [= <-] b h i d Hb Hh Hi Hd.
    set (nh := Z.to_nat (n_head self)) in *.
    set (hs := Z.to_nat (Z.of_nat C `div` n_head self)) in *.
    cbn [transpose data shape fmap list_fmap].
    cbn [swap insert list_insert lookup_total list_lookup_total].
    rewrite Hs. f_equal.
    unfold flatten_index, unflatten_index. rewrite !Nat2Z.id. fold nh hs.
    cbn [zip zip_with foldl fst snd reverse rev_append unflatten_rev].
    assert (h * hs + d < C) as Hlt by (rewrite <- Hc; nia).
    replace ((((0 * B + b) * T + i) * nh + h) * hs + d)
      with ((h * hs + d) + (b * T + i) * C) by (rewrite <- Hc; nia).
    rewrite Nat.Div0.mod_add, Nat.div_add by lia.
    rewrite (Nat.mod_small _ C), (Nat.div_small _ C) by done.
    cbn [Nat.add].
    replace (b * T + i) with (i + b * T) by lia.
    rewrite Nat.Div0.mod_add, Nat.div_add by lia.
    rewrite (Nat.mod_small i T), (Nat.div_small i T) by done.
    cbn [Nat.add]. by rewrite Nat.mod_small.
Qed.

Lemma attention_scores_unmasked (self : CausalSelfAttention) (x : tensor R)
    (mask : tensor Z) (B T C : nat) (qx kx att v : tensor R) :
  shape x = [B; T; C] -> shape mask = [B; T] ->
  (0 < n_head self)%Z -> (Z.of_nat C `mod` n_head self = 0)%Z ->
  Linear_forward (query self) x = Ok qx -> shape qx = [B; T; C] ->
  Linear_forward (key self) x = Ok kx -> shape kx = [B; T; C] ->
  attention_scores self x mask = Ok (att, v) ->
  let hs := Z.to_nat (Z.of_nat C `div` n_head self) in
  forall b h i j,
    b < B -> h < Z.to_nat (n_head self) -> i < T -> j < T ->
    data mask [b; j] <> 0%Z ->
    data att [b; h; i; j] =
      Rmult (rsum hs (fun d => Rmult (data qx [b; i; h * hs + d])
                                     (data kx [b; j; h * hs + d])))
            (1 / sqrt (INR hs)).
Proof.
  intros Hx Hm Hpos Hmod Hq Hqs Hk Hks. unfold attention_scores.
  rewrite Hx, Hk, Hq. rstep.
  destruct (split_heads self B T C kx) as [k|] eqn:Hsk; rstep; [|done].
  destruct (split_heads self B T C qx) as [q|] eqn:Hsq; rstep; [|done].
  destruct (Linear_forward (value self) x) as [vx|]; rstep; [|done].
  destruct (split_heads self B T C vx) as [v'|]; rstep; [|done].
  destruct (view mask _) as [m|] eqn:Hv; rstep; [|done].
  pose proof (split_heads_data self B T C kx k Hpos Hmod Hks Hsk) as Hkd.
  pose proof (split_heads_data self B T C qx q Hpos Hmod Hqs Hsq) as Hqd.
  apply split_heads_shape in Hsk; [|done].
  apply split_heads_shape in Hsq; [|done].
  destruct (view_mask mask m B T Hm Hv) as [Hms Hmd].
  set (nh := Z.to_nat (n_head self)) in *.
  set (hs := Z.to_nat (Z.of_nat C `div` n_head self)) in *.
  unfold matmul. cbn [transpose shape]. rewrite Hsq, Hsk.
  cbn [swap insert list_insert lookup_total list_lookup_total reverse rev_append].
  rewrite decide_True by done. rewrite bcast_rev_same. rstep.
  cbn [List.last].
  case_decide as Hhs; [done|].
  unfold masked_fill, tensor_map2.
  cbn [scale tensor_map eq_zero shape reverse rev_append app]. rewrite Hms.
  assert (broadcast_shapes [B; nh; T; T] [B; 1; 1; T] = Ok [B; nh; T; T]) as ->.
  { unfold broadcast_shapes. cbn [reverse rev_append bcast_rev].
    by rewrite !bcast_dim_same, !bcast_dim_one_r. }
  rstep. intros [= <- _]. intros b h i j Hb Hh Hi Hj Hnz. cbn [data].
  assert (bidx [B; 1; 1; T] [b; h; i; j] = [b; 0; 0; j]) as ->.
  { unfold bidx. cbn [length Nat.sub drop zip_with].
    repeat case_decide; repeat f_equal; lia. }
  rewrite Hmd by done. rewrite bool_decide_eq_false_2 by done.
  rewrite bidx_in_range by (repeat constructor; done).
  cbn [length Nat.sub take lookup_total list_lookup_total app].
  f_equal. apply rsum_ext. intros d Hd.
  rewrite !bidx_in_range by (repeat constructor; done).
  cbn [swap insert list_insert lookup_total list_lookup_total].
  by rewrite Hqd, Hkd by done.
Qed.

Lemma Linear_forward_ok (l : Linear) (x : tensor R) (B T n : nat) :
  shape x = [B; T; n] -> in_features l = n ->
  exists y, Linear_forward l x = Ok y /\ shape y = [B; T; out_features l].
Proof.
  intros Hx Hi. unfold Linear_forward. rewrite Hx. cbn [last].
  rewrite decide_True by done. eexists. split; [done|]. done.
Qed.

(** X6: the score of a key that is not masked. On a constructed layer, for
    head [h], query position [i] and key position [j] of sequence [b], the
    score before the softmax is the dot product of the slices
    [h * hs, ..., h * hs + hs - 1] of the query projection at [i] and of the
    key projection at [j], times [1 / sqrt hs], where [hs = n_embd // n_head]
    is the size of a head. *)
Theorem unmasked_scores_are_scaled_dot_products n_embd nh ap rp bs p
    (self : CausalSelfAttention) (x : tensor R) (mask : tensor Z) (B T : nat) :
  CausalSelfAttention_init n_embd nh ap rp bs p = Ok self ->
  (0 < nh)%Z -> (0 < n_embd)%Z -> B <> 0 ->
  shape x = [B; T; Z.to_nat n_embd] -> shape mask = [B; T] ->
  exists qx kx att v,
    Linear_forward (query self) x = Ok qx /\
    Linear_forward (key self) x = Ok kx /\
    attention_scores self x mask = Ok (att, v) /\
    let hs := Z.to_nat (n_embd `div` nh) in
    forall b h i j,
      b < B -> h < Z.to_nat nh -> i < T -> j < T ->
      data mask [b; j] <> 0%Z ->
      data att [b; h; i; j] =
        Rmult (rsum hs (fun d => Rmult (data qx [b; i; h * hs + d])
                                       (data kx [b; j; h * hs + d])))
              (1 / sqrt (INR hs)).
Proof.
  intros Hinit Hnh Hn HB Hx Hm.
  destruct (attention_scores_returns _ _ _ _ _ _ self x mask B T
              Hinit Hnh Hn HB Hx Hm) as (att & v & Hs).
  apply CausalSelfAttention_init_inv in Hinit
    as (_ & Hmod & _ & Hhead & (Hki & Hko) & (Hqi & Hqo) & _).
  destruct (Linear_forward_ok (query self) x B T _ Hx Hqi) as (qx & Hq & Hqs).
  destruct (Linear_forward_ok (key self) x B T _ Hx Hki) as (kx & Hk & Hks).
  rewrite Hqo in Hqs. rewrite Hko in Hks.
  exists qx, kx, att, v. split; [done|]. split; [done|]. split; [done|].
  pose proof (attention_scores_unmasked self x mask B T (Z.to_nat n_embd)
                qx kx att v Hx Hm) as H.
  rewrite Hhead, Z2Nat.id in H by lia.
  apply H; done || lia.
Qed.

Lemma unmasked_scores_are_scaled_dot_products_witness :
  exists self att v,
    CausalSelfAttention_init 2 1 0 0 128 zero_attention = Ok self /\
    attention_scores self (ones [1; 2; 2]) (ones_mask [1; 2]) = Ok (att, v) /\
    exists qx kx,
      data att [0; 0; 1; 0] =
        Rmult (rsum 2 (fun d => Rmult (data qx [0; 1; 0 * 2 + d])
                                      (data kx [0; 0; 0 * 2 + d])))
              (1 / sqrt (INR 2)).
Proof.
  destruct (CausalSelfAttention_init_ok 2 1 0 0 128 zero_attention)
    as (self & Hinit); [lia|reflexivity|lia|lra|lra|].
  destruct (unmasked_scores_are_scaled_dot_products 2%Z 1%Z 0%R 0%R 128%Z
              zero_attention self (ones [1; 2; 2]) (ones_mask [1; 2]) 1 2 Hinit
              ltac:(lia) ltac:(lia) ltac:(lia) eq_refl eq_refl)
    as (qx & kx & att & v & _ & _ & Hs & Hd).
  exists self, att, v. split; [exact Hinit|]. split; [exact Hs|].
  exists qx, kx. apply (Hd 0 0 1 0); [lia|cbn; lia|lia|lia|discriminate].
Defined.

(** ** The output of the attention layer *)

Lemma nn_Dropout_range (p : R) (d : Dropout) :
  nn_Dropout p = Ok d -> (0 <= p <= 1)%R.
Proof.
  unfold nn_Dropout. destruct (Rlt_dec p 0); [done|].
  destruct (Rlt_dec 1 p); [done|]. intros _. lra.
Qed.

(** The output projection and the dropout probabilities of a constructed
    layer. *)
Lemma CausalSelfAttention_init_proj n_embd nh ap rp bs p self :
  CausalSelfAttention_init n_embd nh ap rp bs p = Ok self ->
  in_features (proj self) = Z.to_nat n_embd /\
  out_features (proj self) = Z.to_nat n_embd /\
  drop_p (resid_drop self) = rp /\
  (0 <= ap <= 1)%R /\ (0 <= rp <= 1)%R.
Proof.
  unfold CausalSelfAttention_init.
  destruct (decide (nh = 0%Z)); [done|].
  destruct (decide _) as [Hm|]; [|done].
  destruct (nn_Linear n_embd n_embd true (key_params p)) as [k|]; [|done].
  destruct (nn_Linear n_embd n_embd true (query_params p)) as [q|]; [|done].
  destruct (nn_Linear n_embd n_embd true (value_params p)) as [v|]; [|done].
  destruct (nn_Dropout ap) as [ad|] eqn:Had; [|done].
  destruct (nn_Dropout rp) as [rd|] eqn:Hrd; [|done].
  destruct (nn_Linear n_embd n_embd true (proj_params p)) as [pr|] eqn:Hpr;
    [|done].
  cbn. intros [= <-]. cbn.
  apply nn_Linear_inv in Hpr as (? & ? & ? & ?).
  pose proof (nn_Dropout_range _ _ Had). pose proof (nn_Dropout_range _ _ Hrd).
  apply nn_Dropout_inv in Hrd. done.
Qed.

(** The shape of the value heads. *)
Lemma attention_scores_value_shape (self : CausalSelfAttention) (x : tensor R)
    (mask : tensor Z) (B T C : nat) (att v : tensor R) :
  shape x = [B; T; C] -> (0 < n_head self)%Z ->
  attention_scores self x mask = Ok (att, v) ->
  shape v = [B; Z.to_nat (n_head self); T;
             Z.to_nat (Z.of_nat C `div` n_head self)].
Proof.
  intros Hx Hpos. unfold attention_scores. rewrite Hx.
  destruct (Linear_forward (key self) x) as [kx|]; rstep; [|done].
  destruct (split_heads self B T C kx) as [k|]; rstep; [|done].
  destruct (Linear_forward (query self) x) as [qx|]; rstep; [|done].
  destruct (split_heads self B T C qx) as [q|]; rstep; [|done].
  destruct (Linear_forward (value self) x) as [vx|]; rstep; [|done].
  destruct (split_heads self B T C vx) as [v'|] eqn:Hv; rstep; [|done].
  destruct (view mask _) as [m|]; rstep; [|done].
  destruct (matmul _ _) as [qk|]; rstep; [|done].
  case_decide; [done|].
  destruct (masked_fill _ _ _) as [a|]; rstep; [|done].
  intros [= _ <-]. by apply split_heads_shape in Hv.
Qed.

Section AttentionOutput.

Variable F_dropout : R -> bool -> tensor R -> tensor R.
Hypothesis F_dropout_shape :
  forall p training t, shape (F_dropout p training t) = shape t.

Lemma CausalSelfAttention_forward_shape n_embd nh ap rp bs p
    (self : CausalSelfAttention) (training : bool)
    (x : tensor R) (mask : tensor Z) (B T : nat) :
  CausalSelfAttention_init n_embd nh ap rp bs p = Ok self ->
  (0 < nh)%Z -> (0 < n_embd)%Z -> B <> 0 ->
  shape x = [B; T; Z.to_nat n_embd] -> shape mask = [B; T] ->
  exists y,
    CausalSelfAttention_forward F_dropout self training x mask = Ok y /\
    shape y = shape x.
Proof.
  intros Hinit Hnh Hn HB Hx Hm.
  destruct (attention_scores_shape _ _ _ _ _ _ self x mask B T
              Hinit Hnh Hn HB Hx Hm) as (att & v & Hs & Hshape & _).
  pose proof (CausalSelfAttention_init_proj _ _ _ _ _ _ _ Hinit)
    as (Hpi & Hpo & _).
  apply CausalSelfAttention_init_inv in Hinit
    as (_ & Hmod & _ & Hhead & _).
  pose proof (attention_scores_value_shape self x mask B T _ att v Hx
                ltac:(by rewrite Hhead) Hs) as Hvs.
  rewrite Hhead, Z2Nat.id in Hvs by lia.
  set (n := Z.to_nat n_embd) in *.
  set (h := Z.to_nat nh) in *.
  set (hs := Z.to_nat (n_embd `div` nh)) in *.
  assert (h * hs = n) as Hc.
  { unfold h, hs, n. rewrite <- Z2Nat.inj_mul by (try apply Z.div_pos; lia).
    by rewrite <- Z_div_exact_full_2 by lia. }
  unfold CausalSelfAttention_forward, attention_weights.
  rewrite Hx, Hs. rstep.
  unfold matmul, Dropout_forward. rewrite F_dropout_shape.
  cbn [softmax shape]. rewrite Hshape, Hvs.
  cbn [reverse rev_append]. rewrite decide_True by done.
  rewrite bcast_rev_same. rstep. cbn [reverse rev_append app].
  unfold view. cbn [transpose shape].
  cbn [swap insert list_insert lookup_total list_lookup_total].
  rewrite resolve_view_exact; first last.
  - cbn. rewrite !Nat2Z.id. rewrite <- Hc. lia.
  - repeat constructor; lia.
  - rstep. unfold Linear_forward. cbn [shape fmap list_fmap last].
    rewrite Nat2Z.id. rewrite decide_True by done.
    eexists. split; [done|]. rewrite F_dropout_shape.
    cbn [shape removelast app]. by rewrite !Nat2Z.id, Hpo.
Qed.

(** X7: [CausalSelfAttention.forward] returns, for a non-empty batch of the
    layer's hidden size and a mask of the batch's shape, a tensor of the
    shape of its input; dropout is only assumed to keep shapes. *)
Theorem attention_output_has_the_input_shape n_embd nh ap rp bs p
    (self : CausalSelfAttention) (training : bool)
    (x : tensor R) (mask : tensor Z) (B T : nat) :
  CausalSelfAttention_init n_embd nh ap rp bs p = Ok self ->
  (0 < nh)%Z -> (0 < n_embd)%Z -> B <> 0 ->
  shape x = [B; T; Z.to_nat n_embd] -> shape mask = [B; T] ->
  exists y,
    CausalSelfAttention_forward F_dropout self training x mask = Ok y /\
    shape y = shape x.
Proof. apply CausalSelfAttention_forward_shape. Qed.

End AttentionOutput.

Lemma attention_output_has_the_input_shape_witness :
  exists self y,
    CausalSelfAttention_init 2 1 0 0 128 zero_attention = Ok self /\
    CausalSelfAttention_forward eval_dropout self false (ones [1; 2; 2])
      half_mask = Ok y /\
    shape y = [1; 2; 2].
Proof.
  destruct (CausalSelfAttention_init_ok 2 1 0 0 128 zero_attention)
    as (self & Hinit); [lia|reflexivity|lia|lra|lra|].
  destruct (attention_output_has_the_input_shape eval_dropout
              ltac:(reflexivity) 2%Z 1%Z 0%R 0%R 128%Z
              zero_attention self false (ones [1; 2; 2]) half_mask 1 2 Hinit
              ltac:(lia) ltac:(lia) ltac:(lia) eq_refl eq_refl)
    as (y & Hy & Hsh).
  exists self, y. split; [exact Hinit|]. split; [exact Hy|]. exact Hsh.
Defined.

(** ** Inputs the attention layer rejects *)

Lemma view_mask_empty_batch (mask : tensor Z) (T : nat) :
  shape mask = [0; T] ->
  view mask [Z.of_nat 0; 1; 1; -1]%Z = Raise InvalidView.
Proof.
  intros Hs. unfold view, resolve_view. rewrite Hs.
  rewrite decide_False; last first.
  { rewrite !Exists_cons, Exists_nil. lia. }
  rewrite filter_cons_True by (cbn; lia).
  rewrite filter_cons_True by done. rewrite filter_cons_True by done.
  rewrite filter_cons_False by (cbn; lia). rewrite filter_nil.
  cbn [length Nat.sub fmap list_fmap numel foldr].
  rewrite decide_False; [done|]. cbn. lia.
Qed.

(** X8: inputs a constructed attention layer rejects. An input that is not
    of rank 3 raises [ValueError] at [B, T, C = x.size()]; an input whose
    last size is not the layer's hidden size raises the size mismatch of the
    key projection; an empty batch (with the right hidden size and a mask of
    its shape) fails at [mask.view(B, 1, 1, -1)], which cannot infer the -1
    for a tensor without elements. *)
Theorem attention_rejects_malformed_input n_embd nh ap rp bs p
    (F_dropout : R -> bool -> tensor R -> tensor R)
    (self : CausalSelfAttention) (training : bool)
    (x : tensor R) (mask : tensor Z) :
  CausalSelfAttention_init n_embd nh ap rp bs p = Ok self ->
  (0 < nh)%Z -> (0 < n_embd)%Z ->
  (length (shape x) <> 3 ->
   CausalSelfAttention_forward F_dropout self training x mask
   = Raise ValueError)
  /\ (forall B T C,
        shape x = [B; T; C] -> C <> Z.to_nat n_embd ->
        CausalSelfAttention_forward F_dropout self training x mask
        = Raise SizeMismatch)
  /\ (forall T,
        shape x = [0; T; Z.to_nat n_embd] -> shape mask = [0; T] ->
        CausalSelfAttention_forward F_dropout self training x mask
        = Raise InvalidView).
Proof.
  intros Hinit Hnh Hn.
  apply CausalSelfAttention_init_inv in Hinit
    as (_ & Hmod & _ & Hhead & (Hki & Hko) & (Hqi & Hqo) & (Hvi & Hvo) & _).
  split; [|split].
  - intros Hlen. unfold CausalSelfAttention_forward.
    destruct (shape x) as [|a [|b [|c [|d s]]]]; done.
  - intros B T C Hx HC.
    unfold CausalSelfAttention_forward, attention_weights, attention_scores.
    rewrite Hx.
    assert (Linear_forward (key self) x = Raise SizeMismatch) as ->; [|done].
    unfold Linear_forward. rewrite Hx. cbn [last].
    by rewrite decide_False by (by rewrite Hki).
  - intros T Hx Hm.
    assert (forall l, in_features l = Z.to_nat n_embd ->
                      out_features l = Z.to_nat n_embd ->
              exists lx t, Linear_forward l x = Ok lx /\
                split_heads self 0 T (Z.to_nat n_embd) lx = Ok t) as Hproj.
    { intros l Hi Ho.
      destruct (Linear_forward_ok l x 0 T _ Hx Hi) as (lx & Hl & Hls).
      rewrite Ho in Hls.
      destruct (split_heads_ok self 0 T (Z.to_nat n_embd) lx) as (t & Ht & _);
        [lia| |done|by exists lx, t].
      rewrite Z2Nat.id by lia. by rewrite Hhead. }
    unfold CausalSelfAttention_forward, attention_weights, attention_scores.
    rewrite Hx.
    destruct (Hproj (key self) Hki Hko) as (kx & k & -> & Hs1). rstep.
    rewrite Hs1. rstep.
    destruct (Hproj (query self) Hqi Hqo) as (qx & q & -> & Hs2). rstep.
    rewrite Hs2. rstep.
    destruct (Hproj (value self) Hvi Hvo) as (vx & v & -> & Hs3). rstep.
    rewrite Hs3. rstep.
    by rewrite (view_mask_empty_batch mask T Hm).
Qed.

Lemma attention_rejects_malformed_input_witness :
  exists self,
    CausalSelfAttention_init 2 1 0 0 128 zero_attention = Ok self /\
    CausalSelfAttention_forward eval_dropout self false (ones [2; 2])
      half_mask = Raise ValueError /\
    CausalSelfAttention_forward eval_dropout self false (ones [1; 2; 3])
      half_mask = Raise SizeMismatch /\
    CausalSelfAttention_forward eval_dropout self false (ones [0; 2; 2])
      (ones_mask [0; 2]) = Raise InvalidView.
Proof.
  destruct (CausalSelfAttention_init_ok 2 1 0 0 128 zero_attention)
    as (self & Hinit); [lia|reflexivity|lia|lra|lra|].
  exists self. split; [exact Hinit|].
  destruct (attention_rejects_malformed_input 2%Z 1%Z 0%R 0%R 128%Z
              zero_attention eval_dropout self false (ones [2; 2]) half_mask
              Hinit ltac:(lia) ltac:(lia)) as (H1 & _ & _).
  destruct (attention_rejects_malformed_input 2%Z 1%Z 0%R 0%R 128%Z
              zero_attention eval_dropout self false (ones [1; 2; 3]) half_mask
              Hinit ltac:(lia) ltac:(lia)) as (_ & H2 & _).
  destruct (attention_rejects_malformed_input 2%Z 1%Z 0%R 0%R 128%Z
              zero_attention eval_dropout self false (ones [0; 2; 2])
              (ones_mask [0; 2]) Hinit ltac:(lia) ltac:(lia)) as (_ & _ & H3).
  split; [apply H1; cbn; lia|].
  split; [apply (H2 1 2 3 eq_refl); cbn; lia|].
  apply (H3 2); reflexivity.
Defined.

(** ** More on the construction of the encoder block *)

(** The parts of a constructed block. *)
Lemma Block_init_parts (h : Z) (rp : R) (nc : Z) (p : block_params) (blk : Block) :
  Block_init h rp nc p = Ok blk ->
  position_encoding_init h default_seq_len = Ok (position_encoder blk) /\
  CausalSelfAttention_init h 8 (1 / 10)%R rp 128 (attn_params p)
    = Ok (attn blk) /\
  nn_Linear h h true (ff_1_params p) = Ok (ff_1 blk) /\
  nn_Linear h h true (ff_2_params p) = Ok (ff_2 blk) /\
  nn_Dropout rp = Ok (conv_drop (convolution blk)) /\
  num_convs blk = nc.
Proof.
  unfold Block_init.
  destruct (position_encoding_init h default_seq_len) as [pe|]; rstep; [|done].
  destruct (nn_LayerNorm h) as [ln|]; rstep; [|done].
  destruct (nn_Conv1d h h 7 h _ false) as [dw|]; rstep; [|done].
  destruct (nn_Conv1d h h 1 1 0 true) as [pw|]; rstep; [|done].
  destruct (nn_Dropout rp) as [dr|]; rstep; [|done].
  destruct (CausalSelfAttention_init h 8 _ rp 128 _) as [at_|]; rstep; [|done].
  destruct (nn_Linear h h true (ff_1_params p)) as [f1|]; rstep; [|done].
  destruct (nn_Linear h h true (ff_2_params p)) as [f2|]; rstep; [|done].
  by intros [= <-].
Qed.

Lemma Block_init_ok (h : Z) (rp : R) (nc : Z) (p : block_params) :
  (0 < h)%Z -> (h `mod` 8 = 0)%Z -> (0 <= rp <= 1)%R ->
  exists blk, Block_init h rp nc p = Ok blk.
Proof.
  intros Hpos H8 Hrp. unfold Block_init.
  assert (h `mod` 2 = 0)%Z as Heven.
  { rewrite (Z_div_exact_full_2 h 8) by lia.
    replace (8 * (h `div` 8))%Z with ((h `div` 8) * 4 * 2)%Z by lia.
    apply Z.mod_mul. lia. }
  destruct (position_encoding_init_even h default_seq_len) as (pe & -> & _);
    [done|done|done|].
  rstep. rewrite nn_LayerNorm_ok by lia. rstep.
  pose proof (nn_Conv1d_ok h h 7 h (7 `div` 2) false) as Hdw.
  rewrite Z.mod_same in Hdw by lia.
  destruct (nn_Conv1d h h 7 h _ false); [|by discriminate Hdw; lia].
  rstep.
  pose proof (nn_Conv1d_ok h h 1 1 0 true) as Hpw.
  rewrite Z.mod_1_r in Hpw.
  destruct (nn_Conv1d h h 1 1 0 true); [|by discriminate Hpw; lia].
  rstep. rewrite nn_Dropout_ok by done. rstep.
  destruct (CausalSelfAttention_init_ok h 8 (1 / 10)%R rp 128 (attn_params p))
    as (at_ & ->); [lia|done|lia|lra|done|].
  rstep. rewrite !nn_Linear_ok by lia. rstep. by eexists.
Qed.

(** X9: [Block.__init__] succeeds exactly when the hidden size is positive
    and divisible by 8 and the residual dropout probability lies in [0, 1];
    the number of convolutions plays no part. *)
Theorem block_construction_succeeds_iff
    (h : Z) (rp : R) (nc : Z) (p : block_params) :
  (exists blk, Block_init h rp nc p = Ok blk) <->
  (0 < h)%Z /\ (h `mod` 8 = 0)%Z /\ (0 <= rp <= 1)%R.
Proof.
  split.
  - intros (blk & Hb).
    pose proof (Block_init_inv _ _ _ _ _ Hb) as (_ & _ & H8).
    apply Block_init_parts in Hb as (Hpe & _ & _ & _ & Hdr & _).
    apply position_encoding_init_inv in Hpe as [_ Hh].
    apply nn_Dropout_range in Hdr.
    split; [|done]. destruct Hh as [->|[? _]]; [done|done].
  - intros (Hpos & H8 & Hrp). by apply Block_init_ok.
Qed.

Lemma block_construction_succeeds_iff_witness :
  (exists blk, Block_init 16 (1 / 2) 4 zero_block = Ok blk) /\
  ~ (exists blk, Block_init 16 2 4 zero_block = Ok blk).
Proof.
  split.
  - apply (block_construction_succeeds_iff 16 (1 / 2)%R 4 zero_block).
    split; [lia|]. split; [reflexivity|lra].
  - intros H.
    apply (block_construction_succeeds_iff 16 2%R 4 zero_block) in H
      as (_ & _ & H). lra.
Defined.

(** ** Inputs the encoder block rejects *)

(** X10: inputs a constructed block rejects in its first step, the
    positional encoder, whatever the normalisation, convolution and dropout
    do: an input of rank below 2 ([IndexError]), a sequence of more than 1000
    positions (size mismatch: the table is built with the default length),
    and an input whose last size is neither the hidden size nor 1 (size
    mismatch). *)
Theorem block_rejects_at_the_positional_encoder
    (F_dropout : R -> bool -> tensor R -> tensor R)
    (LayerNorm_forward : LayerNorm -> tensor R -> result (tensor R))
    (Conv1d_forward : Conv1d -> tensor R -> result (tensor R))
    (h : Z) (rp : R) (nc : Z) (p : block_params) (blk : Block)
    (training : bool) (x : tensor R) (mask : tensor Z) :
  Block_init h rp nc p = Ok blk ->
  (length (shape x) < 2 ->
   Block_forward F_dropout LayerNorm_forward Conv1d_forward blk training x mask
   = Raise IndexError)
  /\ (forall B T H,
        shape x = [B; T; H] -> 1000 < T ->
        Block_forward F_dropout LayerNorm_forward Conv1d_forward blk training
          x mask = Raise SizeMismatch)
  /\ (forall B T H,
        shape x = [B; T; H] -> H <> Z.to_nat h -> H <> 1 ->
        Block_forward F_dropout LayerNorm_forward Conv1d_forward blk training
          x mask = Raise SizeMismatch).
Proof.
  intros Hb.
  pose proof (Block_init_inv _ _ _ _ _ Hb) as (_ & _ & H8).
  apply Block_init_parts in Hb as (Hpe & _).
  pose proof (position_encoding_init_shape _ _ _ Hpe) as Hs.
  split; [|split].
  - intros Hlen. unfold Block_forward.
    by rewrite position_encoding_forward_low_rank.
  - intros B T H Hx HT. unfold Block_forward.
    rewrite (position_encoding_forward_too_long _ x B T H _ _ Hs Hx); [done| |].
    + unfold default_seq_len. cbn. lia.
    + unfold default_seq_len. cbn. lia.
  - intros B T H Hx HH H1'. unfold Block_forward.
    rewrite (position_encoding_forward_width_mismatch _ x B T H _ _ Hs Hx);
      [done|done|done|].
    intros Hh. assert (h = 1%Z) as -> by lia. done.
Qed.

Lemma block_rejects_at_the_positional_encoder_witness :
  exists blk,
    Block_init 8 0 1 zero_block = Ok blk /\
    Block_forward eval_dropout id_LayerNorm id_Conv1d blk false
      (zeros [1; 1001; 8]) (ones_mask [1; 1001]) = Raise SizeMismatch /\
    Block_forward eval_dropout id_LayerNorm id_Conv1d blk false
      (zeros [1; 2; 4]) (ones_mask [1; 2]) = Raise SizeMismatch.
Proof.
  destruct (Block_init_ok 8 0 1 zero_block) as (blk & Hb);
    [lia|reflexivity|lra|].
  exists blk. split; [exact Hb|].
  destruct (block_rejects_at_the_positional_encoder eval_dropout id_LayerNorm
              id_Conv1d 8 0%R 1 zero_block blk false (zeros [1; 1001; 8])
              (ones_mask [1; 1001]) Hb) as (_ & H2 & _).
  destruct (block_rejects_at_the_positional_encoder eval_dropout id_LayerNorm
              id_Conv1d 8 0%R 1 zero_block blk false (zeros [1; 2; 4])
              (ones_mask [1; 2]) Hb) as (_ & _ & H3).
  split; [apply (H2 1 1001 8 eq_refl); lia|].
  apply (H3 1 2 4 eq_refl); cbn; lia.
Defined.

(** ** The shape of the encoder block's output *)

Lemma nn_LayerNorm_inv (n : Z) (l : LayerNorm) :
  nn_LayerNorm n = Ok l -> normalized_shape l = Z.to_nat n.
Proof.
  unfold nn_LayerNorm. destruct (decide _); [done|]. by intros [= <-].
Qed.

Lemma nn_Conv1d_inv (i o k g pd : Z) (b : bool) (c : Conv1d) :
  nn_Conv1d i o k g pd b = Ok c ->
  in_channels c = i /\ out_channels c = o /\ kernel_size c = k /\
  padding c = pd.
Proof.
  unfold nn_Conv1d. repeat (destruct (decide _); [done|]). by intros [= <-].
Qed.

(** The normalisations and convolutions of a constructed block. *)
Lemma Block_init_norms (h : Z) (rp : R) (nc : Z) (p : block_params) (blk : Block) :
  Block_init h rp nc p = Ok blk ->
  normalized_shape (conv_ln blk) = Z.to_nat h /\
  normalized_shape (attn_ln blk) = Z.to_nat h /\
  normalized_shape (ff_ln blk) = Z.to_nat h /\
  (in_channels (depthwise (convolution blk)) = h /\
   out_channels (depthwise (convolution blk)) = h /\
   kernel_size (depthwise (convolution blk)) = 7%Z /\
   padding (depthwise (convolution blk)) = 3%Z) /\
  (in_channels (pointwise (convolution blk)) = h /\
   out_channels (pointwise (convolution blk)) = h /\
   kernel_size (pointwise (convolution blk)) = 1%Z /\
   padding (pointwise (convolution blk)) = 0%Z).
Proof.
  unfold Block_init.
  destruct (position_encoding_init h default_seq_len) as [pe|]; rstep; [|done].
  destruct (nn_LayerNorm h) as [ln|] eqn:Hln; rstep; [|done].
  destruct (nn_Conv1d h h 7 h _ false) as [dw|] eqn:Hdw; rstep; [|done].
  destruct (nn_Conv1d h h 1 1 0 true) as [pw|] eqn:Hpw; rstep; [|done].
  destruct (nn_Dropout rp) as [dr|]; rstep; [|done].
  destruct (CausalSelfAttention_init h 8 _ rp 128 _) as [at_|]; rstep; [|done].
  destruct (nn_Linear h h true (ff_1_params p)) as [f1|]; rstep; [|done].
  destruct (nn_Linear h h true (ff_2_params p)) as [f2|]; rstep; [|done].
  intros [= <-]. cbn.
  apply nn_LayerNorm_inv in Hln. apply nn_Conv1d_inv in Hdw, Hpw. done.
Qed.

Lemma tensor_iadd_same_shape (x y : tensor R) :
  shape y = shape x ->
  exists s, tensor_iadd x y = Ok s /\ shape s = shape x /\
    forall idx, in_range (shape x) idx ->
      data s idx = (data x idx + data y idx)%R.
Proof.
  intros Hs. unfold tensor_iadd, expandable.
  rewrite Hs, broadcast_shapes_same, bool_decide_eq_true_2 by done.
  by apply tensor_add_same_shape.
Qed.

Section BlockShape.

Variable F_dropout : R -> bool -> tensor R -> tensor R.
Variable LayerNorm_forward : LayerNorm -> tensor R -> result (tensor R).
Variable Conv1d_forward : Conv1d -> tensor R -> result (tensor R).

(** What the torch functions are assumed to do to shapes: dropout keeps
    the shape; a layer normalisation over the last dimension returns a
    tensor of the input's shape; so does a convolution of stride 1 with
    as many output as input channels and [kernel_size = 2 * padding + 1]
    on a sequence that is not empty. *)
Hypothesis F_dropout_shape :
  forall p training t, shape (F_dropout p training t) = shape t.
Hypothesis LayerNorm_forward_shape :
  forall l t, last (shape t) = Some (normalized_shape l) ->
    exists y, LayerNorm_forward l t = Ok y /\ shape y = shape t.
Hypothesis Conv1d_forward_shape :
  forall c t B C T,
    shape t = [B; C; T] -> 0 < T ->
    in_channels c = Z.of_nat C -> out_channels c = Z.of_nat C ->
    kernel_size c = (2 * padding c + 1)%Z ->
    exists y, Conv1d_forward c t = Ok y /\ shape y = shape t.

Lemma conv_step_shape (h : Z) (rp : R) (nc : Z) (p : block_params) (blk : Block)
    (training : bool) (B T : nat) (st : tensor R * tensor R) :
  Block_init h rp nc p = Ok blk -> 0 < T ->
  shape st.1 = [B; T; Z.to_nat h] -> shape st.2 = [B; T; Z.to_nat h] ->
  exists st',
    conv_step F_dropout LayerNorm_forward Conv1d_forward blk training st
      = Ok st' /\
    shape st'.1 = [B; T; Z.to_nat h] /\ shape st'.2 = [B; T; Z.to_nat h].
Proof.
  intros Hb HT Hx Hr. destruct st as [x r]. cbn [fst snd] in Hx, Hr.
  pose proof (Block_init_inv _ _ _ _ _ Hb) as (_ & _ & H8).
  pose proof (Block_init_parts _ _ _ _ _ Hb) as (Hpe & _).
  apply position_encoding_init_inv in Hpe as [_ Hh].
  assert (0 < h)%Z as Hpos by (destruct Hh as [->|[? _]]; done).
  apply Block_init_norms in Hb
    as (Hcl & _ & _ & (Hd1 & Hd2 & Hd3 & Hd4) & (Hp1 & Hp2 & Hp3 & Hp4)).
  unfold conv_step.
  destruct (LayerNorm_forward_shape (conv_ln blk) x) as (n & -> & Hn).
  { by rewrite Hx, Hcl. }
  rstep. unfold ConvStack_forward.
  destruct (Conv1d_forward_shape (depthwise (convolution blk))
              (transpose 1 2 n) B (Z.to_nat h) T) as (c1 & -> & Hc1).
  { cbn [transpose shape]. by rewrite Hn, Hx. }
  { done. }
  { rewrite Hd1. lia. }
  { rewrite Hd2. lia. }
  { rewrite Hd3, Hd4. done. }
  rstep.
  destruct (Conv1d_forward_shape (pointwise (convolution blk))
              c1 B (Z.to_nat h) T) as (c2 & -> & Hc2).
  { rewrite Hc1. cbn [transpose shape]. by rewrite Hn, Hx. }
  { done. }
  { rewrite Hp1. lia. }
  { rewrite Hp2. lia. }
  { rewrite Hp3, Hp4. done. }
  rstep.
  set (y := transpose 1 2 _).
  assert (shape y = [B; T; Z.to_nat h]) as Hy.
  { unfold y, Dropout_forward. cbn [transpose shape].
    rewrite F_dropout_shape. cbn [relu tensor_map shape].
    rewrite Hc2, Hc1. cbn [transpose shape]. by rewrite Hn, Hx. }
  destruct (tensor_iadd_same_shape y r) as (s & -> & Hs & _);
    [congruence|].
  rstep. eexists. split; [done|]. cbn [fst snd]. split; congruence.
Qed.

Lemma conv_loop_shape (h : Z) (rp : R) (nc : Z) (p : block_params) (blk : Block)
    (training : bool) (B T n : nat) (st : tensor R * tensor R) :
  Block_init h rp nc p = Ok blk -> 0 < T ->
  shape st.1 = [B; T; Z.to_nat h] -> shape st.2 = [B; T; Z.to_nat h] ->
  exists st',
    conv_loop F_dropout LayerNorm_forward Conv1d_forward blk training n st
      = Ok st' /\
    shape st'.1 = [B; T; Z.to_nat h] /\ shape st'.2 = [B; T; Z.to_nat h].
Proof.
  intros Hb HT. revert st.
  induction n as [|n IH]; intros st Hx Hr; cbn [conv_loop].
  - by exists st.
  - destruct (conv_step_shape h rp nc p blk training B T st Hb HT Hx Hr)
      as (st1 & -> & Hx1 & Hr1).
    rstep. by apply IH.
Qed.

Lemma attn_sublayer_shape (h : Z) (rp : R) (nc : Z) (p : block_params)
    (blk : Block) (training : bool) (B T : nat) (st : tensor R * tensor R)
    (mask : tensor Z) :
  Block_init h rp nc p = Ok blk -> B <> 0 ->
  shape st.1 = [B; T; Z.to_nat h] -> shape st.2 = [B; T; Z.to_nat h] ->
  shape mask = [B; T] ->
  exists y,
    attn_sublayer F_dropout LayerNorm_forward blk training st mask = Ok y /\
    shape y = [B; T; Z.to_nat h].
Proof.
  intros Hb HB Hx Hr Hm. destruct st as [x r]. cbn [fst snd] in Hx, Hr.
  pose proof (Block_init_parts _ _ _ _ _ Hb) as (Hpe & Hat & _).
  apply position_encoding_init_inv in Hpe as [_ Hh].
  assert (0 < h)%Z as Hpos by (destruct Hh as [->|[? _]]; done).
  apply Block_init_norms in Hb as (_ & Hal & _).
  unfold attn_sublayer.
  destruct (LayerNorm_forward_shape (attn_ln blk) x) as (n & -> & Hn).
  { by rewrite Hx, Hal. }
  rstep. set (y := F_dropout _ training n).
  assert (shape y = [B; T; Z.to_nat h]) as Hy.
  { unfold y. rewrite F_dropout_shape. congruence. }
  destruct (CausalSelfAttention_forward_shape F_dropout F_dropout_shape
              _ _ _ _ _ _ (attn blk) training y mask B T Hat
              ltac:(lia) Hpos HB Hy Hm) as (a & -> & Ha).
  rstep.
  destruct (tensor_add_same_shape y a Ha) as (ya & -> & Hya & _). rstep.
  destruct (tensor_add_same_shape ya r) as (s & -> & Hs & _); [congruence|].
  exists s. split; [done|]. congruence.
Qed.

Lemma ff_sublayer_shape (h : Z) (rp : R) (nc : Z) (p : block_params)
    (blk : Block) (training : bool) (B T : nat) (x : tensor R) :
  Block_init h rp nc p = Ok blk ->
  shape x = [B; T; Z.to_nat h] ->
  exists y,
    ff_sublayer F_dropout LayerNorm_forward blk training x = Ok y /\
    shape y = [B; T; Z.to_nat h].
Proof.
  intros Hb Hx.
  pose proof (Block_init_parts _ _ _ _ _ Hb) as (_ & _ & Hf1 & Hf2 & _).
  apply nn_Linear_inv in Hf1 as (_ & _ & H1i & H1o).
  apply nn_Linear_inv in Hf2 as (_ & _ & H2i & H2o).
  apply Block_init_norms in Hb as (_ & _ & Hfl & _).
  unfold ff_sublayer.
  destruct (LayerNorm_forward_shape (ff_ln blk) x) as (n & -> & Hn).
  { by rewrite Hx, Hfl. }
  rstep. set (d := F_dropout _ training n).
  assert (shape d = [B; T; Z.to_nat h]) as Hd.
  { unfold d. rewrite F_dropout_shape. congruence. }
  destruct (Linear_forward_ok (ff_1 blk) d B T _ Hd H1i) as (h1 & -> & Hh1).
  rstep.
  destruct (Linear_forward_ok (ff_2 blk) (relu h1) B T (Z.to_nat h))
    as (h2 & -> & Hh2).
  { cbn [relu tensor_map shape]. by rewrite Hh1, H1o. }
  { done. }
  rstep.
  destruct (tensor_iadd_same_shape h2 x) as (s & -> & Hs & _).
  { by rewrite Hh2, H2o. }
  exists s. split; [done|]. by rewrite Hs, Hh2, H2o.
Qed.

(** X11: [Block.forward] returns, for a constructed block, a non-empty
    batch of sequences of 1 to 1000 positions of the block's hidden size and
    a mask of the batch's shape, a tensor of the shape of its input. The
    torch functions are only assumed to keep shapes: dropout always, the
    layer normalisation on inputs whose last size it normalises, and a
    convolution with as many output as input channels and
    [kernel_size = 2 * padding + 1] on sequences that are not empty. *)
Theorem block_output_has_the_input_shape
    (h : Z) (rp : R) (nc : Z) (p : block_params) (blk : Block)
    (training : bool) (x : tensor R) (mask : tensor Z) (B T : nat) :
  Block_init h rp nc p = Ok blk ->
  B <> 0 -> 0 < T <= 1000 ->
  shape x = [B; T; Z.to_nat h] -> shape mask = [B; T] ->
  exists y,
    Block_forward F_dropout LayerNorm_forward Conv1d_forward blk training
      x mask = Ok y /\
    shape y = shape x.
Proof.
  intros Hb HB HT Hx Hm.
  pose proof (Block_init_parts _ _ _ _ _ Hb) as (Hpe & _).
  pose proof (position_encoding_init_shape _ _ _ Hpe) as Hs.
  unfold Block_forward.
  destruct (position_encoding_forward_ok (position_encoder blk) x B T _ _
              Hs Hx) as (x1 & -> & Hx1 & _).
  { unfold default_seq_len. cbn. lia. }
  rstep.
  destruct (conv_loop_shape h rp nc p blk training B T
              (Z.to_nat (num_convs blk)) (x1, x1) Hb ltac:(lia) Hx1 Hx1)
    as (st & -> & Hc & Hr).
  rstep.
  destruct (attn_sublayer_shape h rp nc p blk training B T st mask
              Hb HB Hc Hr Hm) as (a & -> & Ha).
  rstep.
  destruct (ff_sublayer_shape h rp nc p blk training B T a Hb Ha)
    as (y & -> & Hy).
  exists y. split; [done|]. congruence.
Qed.

End BlockShape.

Lemma block_output_has_the_input_shape_witness :
  exists blk y,
    Block_init 8 0 1 zero_block = Ok blk /\
    Block_forward eval_dropout id_LayerNorm id_Conv1d blk false
      (zeros [1; 2; 8]) (ones_mask [1; 2]) = Ok y /\
    shape y = [1; 2; 8].
Proof.
  destruct (Block_init_ok 8 0 1 zero_block) as (blk & Hb);
    [lia|reflexivity|lra|].
  destruct (block_output_has_the_input_shape eval_dropout id_LayerNorm
              id_Conv1d ltac:(reflexivity)
              ltac:(intros; eexists; split; reflexivity)
              ltac:(intros; eexists; split; reflexivity)
              8 0%R 1 zero_block blk false (zeros [1; 2; 8])
              (ones_mask [1; 2]) 1 2 Hb ltac:(lia) ltac:(lia) eq_refl eq_refl)
    as (y & Hy & Hsh).
  exists blk, y. split; [exact Hb|]. split; [exact Hy|]. exact Hsh.
Defined.

(** ** The feed-forward sublayer *)

(** The value of a linear layer with a bias on a batch of sequences. *)
Lemma Linear_forward_data (l : Linear) (x y b : tensor R) (B T n : nat) :
  shape x = [B; T; n] -> in_features l = n -> bias l = Some b ->
  Linear_forward l x = Ok y ->
  shape y = [B; T; out_features l] /\
  forall i t c,
    data y [i; t; c] =
      Rplus (rsum n (fun k => Rmult (data x [i; t; k]) (data (weight l) [c; k])))
            (data b [c]).
Proof.
  intros Hx Hi Hb. unfold Linear_forward. rewrite Hx. cbn [last].
  rewrite decide_True by done. intros [= <-]. split; [done|].
  intros i t c. cbn [data removelast List.last app]. by rewrite Hb.
Qed.

(** X12: the feed-forward sublayer of a constructed block. With [d] the
    dropped-out layer normalisation of the input [x], the result at position
    [[b; t]] and column [c] is
    [sum_k max(0, sum_j d[b,t,j] * W1[k,j] + b1[k]) * W2[c,k] + b2[c]
     + x[b,t,c]]:
    the two linear layers act on each position separately, and the input of
    the sublayer is added once. *)
Theorem feed_forward_is_position_wise
    (F_dropout : R -> bool -> tensor R -> tensor R)
    (LayerNorm_forward : LayerNorm -> tensor R -> result (tensor R))
    (h : Z) (rp : R) (nc : Z) (p : block_params) (blk : Block)
    (training : bool) (x n : tensor R) (B T : nat) :
  Block_init h rp nc p = Ok blk ->
  shape x = [B; T; Z.to_nat h] ->
  LayerNorm_forward (ff_ln blk) x = Ok n ->
  let d := F_dropout (1 / 10)%R training n in
  shape d = [B; T; Z.to_nat h] ->
  exists y,
    ff_sublayer F_dropout LayerNorm_forward blk training x = Ok y /\
    shape y = shape x /\
    forall b t c, b < B -> t < T -> c < Z.to_nat h ->
      data y [b; t; c] =
        Rplus
          (Rplus
             (rsum (Z.to_nat h) (fun k =>
                Rmult
                  (Rmax 0
                     (Rplus
                        (rsum (Z.to_nat h) (fun j =>
                           Rmult (data d [b; t; j])
                                 (init_weight (ff_1_params p) [k; j])))
                        (init_bias (ff_1_params p) [k])))
                  (init_weight (ff_2_params p) [c; k])))
             (init_bias (ff_2_params p) [c]))
          (data x [b; t; c]).
Proof.
  intros Hb Hx Hn d Hd.
  pose proof (Block_init_parts _ _ _ _ _ Hb) as (_ & _ & Hf1 & Hf2 & _).
  pose proof (nn_Linear_inv _ _ _ _ _ Hf1) as (Hh & _ & H1i & H1o).
  pose proof (nn_Linear_inv _ _ _ _ _ Hf2) as (_ & _ & H2i & H2o).
  rewrite nn_Linear_ok in Hf1, Hf2 by done.
  injection Hf1 as Hf1. injection Hf2 as Hf2.
  unfold ff_sublayer. rewrite Hn. rstep. fold d.
  destruct (Linear_forward_ok (ff_1 blk) d B T _ Hd H1i) as (h1 & Hl1 & Hh1).
  rewrite Hl1. rstep.
  destruct (Linear_forward_ok (ff_2 blk) (relu h1) B T (Z.to_nat h))
    as (h2 & Hl2 & Hh2).
  { cbn [relu tensor_map shape]. by rewrite Hh1, H1o. }
  { done. }
  rewrite Hl2. rstep.
  destruct (tensor_iadd_same_shape h2 x) as (s & -> & Hs & Hsd).
  { by rewrite Hh2, H2o. }
  exists s. split; [done|]. split; [by rewrite Hs, Hh2, H2o|].
  intros b t c Hlb Hlt Hlc.
  rewrite Hsd by (rewrite Hh2, H2o; repeat constructor; done).
  f_equal.
  destruct (Linear_forward_data (ff_2 blk) (relu h1) h2
              (Tensor [Z.to_nat h] (init_bias (ff_2_params p))) B T (Z.to_nat h))
    as (_ & ->); [|done|by rewrite <- Hf2|done|].
  { cbn [relu tensor_map shape]. by rewrite Hh1, H1o. }
  cbn [data]. f_equal. apply rsum_ext. intros k Hk.
  rewrite <- Hf2 at 1. cbn [weight data relu tensor_map]. f_equal. f_equal.
  destruct (Linear_forward_data (ff_1 blk) d h1
              (Tensor [Z.to_nat h] (init_bias (ff_1_params p))) B T (Z.to_nat h))
    as (_ & ->); [done|done|by rewrite <- Hf1|done|].
  cbn [data]. f_equal. apply rsum_ext. intros j Hj.
  rewrite <- Hf1 at 1. done.
Qed.

Lemma feed_forward_is_position_wise_witness :
  exists blk y,
    Block_init 8 0 1 zero_block = Ok blk /\
    ff_sublayer eval_dropout id_LayerNorm blk false (ones [1; 2; 8]) = Ok y /\
    shape y = [1; 2; 8].
Proof.
  destruct (Block_init_ok 8 0 1 zero_block) as (blk & Hb);
    [lia|reflexivity|lra|].
  destruct (feed_forward_is_position_wise eval_dropout id_LayerNorm
              8 0%R 1 zero_block blk false (ones [1; 2; 8]) (ones [1; 2; 8])
              1 2 Hb eq_refl eq_refl eq_refl)
    as (y & Hy & Hsh & _).
  exists blk, y. split; [exact Hb|]. split; [exact Hy|]. exact Hsh.
Defined.

(** ** The scores of the span-output layer *)

Lemma rsum_split (n m : nat) (f : nat -> R) :
  rsum (n + m) f = Rplus (rsum n f) (rsum m (fun k => f (n + k))).
Proof.
  induction m as [|m IH].
  - rewrite Nat.add_0_r. unfold rsum at 3. cbn. lra.
  - rewrite Nat.add_succ_r, !rsum_S, IH. lra.
Qed.

(** The score of position [t] of sequence [b]: the weights of the layer
    applied to the concatenation of the two encodings. *)
Lemma cat_Linear_scores (l : Linear) (X Y : tensor R) (B T H : nat)
    (w : list nat -> R) :
  shape X = [B; T; H] -> shape Y = [B; T; H] ->
  in_features l = H + H -> out_features l = 1 ->
  weight l = Tensor [1; H + H] w -> bias l = None ->
  exists x s, cat 2 X Y = Ok x /\ Linear_forward l x = Ok s /\
    shape s = [B; T; 1] /\
    forall b t,
      data s [b; t; 0] =
        Rplus (rsum H (fun c => Rmult (data X [b; t; c]) (w [0; c])))
              (rsum H (fun c => Rmult (data Y [b; t; c]) (w [0; H + c]))).
Proof.
  intros HX HY Hin Hout Hw Hb.
  rewrite (cat_2_rank3 X Y B T H B T H HX HY), decide_True by done.
  eexists _, _. split; [done|].
  unfold Linear_forward. cbn [shape insert list_insert last].
  rewrite decide_True by done. split; [done|].
  split; [cbn [shape removelast app]; by rewrite Hout|].
  intros b t. cbn [data removelast List.last app].
  rewrite Hb, Hw, Rplus_0_r. cbn [data]. rewrite rsum_split. f_equal.
  - apply rsum_ext. intros c Hc.
    cbn [lookup_total list_lookup_total]. by rewrite decide_True.
  - apply rsum_ext. intros c Hc.
    cbn [lookup_total list_lookup_total insert list_insert].
    rewrite decide_False by lia.
    by replace (H + c - H) with c by lia.
Qed.

Lemma QANetOutput_init_inv (n : Z) (p : output_params) (self : QANetOutput) :
  QANetOutput_init n p = Ok self ->
  (0 <= n)%Z /\
  w1 self = {| in_features := Z.to_nat n + Z.to_nat n; out_features := 1;
               weight := Tensor [1; Z.to_nat n + Z.to_nat n]
                           (init_weight (w1_params p));
               bias := None |} /\
  w2 self = {| in_features := Z.to_nat n + Z.to_nat n; out_features := 1;
               weight := Tensor [1; Z.to_nat n + Z.to_nat n]
                           (init_weight (w2_params p));
               bias := None |}.
Proof.
  unfold QANetOutput_init.
  destruct (nn_Linear (n * 2) 1 false (w1_params p)) as [l1|] eqn:H1;
    rstep; [|done].
  destruct (nn_Linear (n * 2) 1 false (w2_params p)) as [l2|] eqn:H2;
    rstep; [|done].
  intros [= <-]. cbn [w1 w2].
  pose proof (nn_Linear_inv _ _ _ _ _ H1) as (Hn & _).
  rewrite nn_Linear_ok in H1, H2 by lia.
  injection H1 as <-. injection H2 as <-.
  replace (Z.to_nat (n * 2)) with (Z.to_nat n + Z.to_nat n) by lia.
  split; [lia|]. done.
Qed.

(** X13: the scores behind the two distributions of
    [QANetOutput.forward]. For encodings of shape [B, T, n_embd] the forward
    pass is the masked softmax of the squeezed scores [s1] and [s2], both of
    shape [B, T, 1], where [s1[b, t, 0]] applies the first [n_embd] weights
    of [w1] to [M1[b, t]] and the last [n_embd] to [M2[b, t]], and [s2] does
    the same with [w2], [M2] and [M3]; there is no bias. *)
Theorem output_scores_weigh_both_encodings (n : Z) (p : output_params)
    (self : QANetOutput) (M1 M2 M3 : tensor R) (mask : tensor Z) (B T : nat) :
  QANetOutput_init n p = Ok self ->
  shape M1 = [B; T; Z.to_nat n] -> shape M2 = [B; T; Z.to_nat n] ->
  shape M3 = [B; T; Z.to_nat n] ->
  exists s1 s2,
    QANetOutput_forward self M1 M2 M3 mask =
      (p1 ← masked_softmax (squeeze s1) mask;
       p2 ← masked_softmax (squeeze s2) mask;
       Ok (p1, p2)) /\
    shape s1 = [B; T; 1] /\ shape s2 = [B; T; 1] /\
    forall b t,
      let H := Z.to_nat n in
      data s1 [b; t; 0] =
        Rplus (rsum H (fun c => Rmult (data M1 [b; t; c])
                                      (init_weight (w1_params p) [0; c])))
              (rsum H (fun c => Rmult (data M2 [b; t; c])
                                      (init_weight (w1_params p) [0; H + c])))
      /\
      data s2 [b; t; 0] =
        Rplus (rsum H (fun c => Rmult (data M2 [b; t; c])
                                      (init_weight (w2_params p) [0; c])))
              (rsum H (fun c => Rmult (data M3 [b; t; c])
                                      (init_weight (w2_params p) [0; H + c]))).
Proof.
  intros Hinit H1 H2 H3.
  apply QANetOutput_init_inv in Hinit as (Hn & Hw1 & Hw2).
  destruct (cat_Linear_scores (w1 self) M1 M2 B T _
              (init_weight (w1_params p)) H1 H2)
    as (x1 & s1 & Hc1 & Hl1 & Hs1 & Hd1); [by rewrite Hw1..|].
  destruct (cat_Linear_scores (w2 self) M2 M3 B T _
              (init_weight (w2_params p)) H2 H3)
    as (x2 & s2 & Hc2 & Hl2 & Hs2 & Hd2); [by rewrite Hw2..|].
  exists s1, s2. split; [|split; [done|split; [done|]]].
  - unfold QANetOutput_forward. rewrite Hc1. rstep. rewrite Hc2. rstep.
    rewrite Hl1. rstep.
    destruct (masked_softmax (squeeze s1) mask); rstep; [|done].
    by rewrite Hl2.
  - intros b t H. split; [apply Hd1|apply Hd2].
Qed.

Lemma output_scores_weigh_both_encodings_witness :
  exists self s1 s2,
    QANetOutput_init 1 {| w1_params := zero_linear; w2_params := zero_linear |}
      = Ok self /\
    shape s1 = [2; 3; 1] /\ shape s2 = [2; 3; 1] /\
    QANetOutput_forward self (ones [2; 3; 1]) (ones [2; 3; 1]) (ones [2; 3; 1])
      (ones_mask [2; 3]) =
      (p1 ← masked_softmax (squeeze s1) (ones_mask [2; 3]);
       p2 ← masked_softmax (squeeze s2) (ones_mask [2; 3]);
       Ok (p1, p2)).
Proof.
  eexists.
  destruct (output_scores_weigh_both_encodings 1
              {| w1_params := zero_linear; w2_params := zero_linear |} _
              (ones [2; 3; 1]) (ones [2; 3; 1]) (ones [2; 3; 1])
              (ones_mask [2; 3]) 2 3 eq_refl eq_refl eq_refl eq_refl)
    as (s1 & s2 & Hf & Hs1 & Hs2 & _).
  exists s1, s2. split; [reflexivity|]. split; [exact Hs1|].
  split; [exact Hs2|]. exact Hf.
Defined.

(** ** Inputs the span-output layer rejects *)

Lemma cat_2_ok (X Y : tensor R) (B T H1 H2 : nat) :
  shape X = [B; T; H1] -> shape Y = [B; T; H2] ->
  exists x, cat 2 X Y = Ok x /\ shape x = [B; T; H1 + H2].
Proof.
  intros HX HY.
  rewrite (cat_2_rank3 X Y B T H1 B T H2 HX HY), decide_True by done.
  by eexists.
Qed.

(** X14: inputs a constructed span-output layer rejects in the
    concatenation of the first two encodings or in the first projection,
    before any softmax is computed: an encoding without dimensions (refused
    by [torch.cat]); two encodings of the same rank 1 or 2, the first not of
    shape [[0]] ([IndexError]: dimension 2 is out of range); a first encoding
    of rank 3 with a second one of another rank, not of shape [[0]] (the
    ranks differ); two encodings of rank 3 that differ in batch size or in
    length (size mismatch of the concatenation); and encodings whose hidden
    sizes do not add up to the [2 * n_embd] inputs of [w1] (size mismatch of
    the projection). *)
Theorem output_layer_rejects_mismatched_encodings (n : Z) (p : output_params)
    (self : QANetOutput) (M1 M2 M3 : tensor R) (mask : tensor Z) :
  QANetOutput_init n p = Ok self ->
  (shape M1 = [] \/ shape M2 = [] ->
   QANetOutput_forward self M1 M2 M3 mask = Raise ZeroDimensional)
  /\ (length (shape M2) = length (shape M1) ->
      0 < length (shape M1) < 3 -> shape M1 <> [0] ->
      QANetOutput_forward self M1 M2 M3 mask = Raise IndexError)
  /\ (forall B T H1,
        shape M1 = [B; T; H1] ->
        length (shape M2) <> 3 -> shape M2 <> [] -> shape M2 <> [0] ->
        QANetOutput_forward self M1 M2 M3 mask = Raise SizeMismatch)
  /\ (forall B T H1 B' T' H2,
        shape M1 = [B; T; H1] -> shape M2 = [B'; T'; H2] ->
        B <> B' \/ T <> T' ->
        QANetOutput_forward self M1 M2 M3 mask = Raise SizeMismatch)
  /\ (forall B T H1 H2 H3,
        shape M1 = [B; T; H1] -> shape M2 = [B; T; H2] ->
        shape M3 = [B; T; H3] ->
        H1 + H2 <> 2 * Z.to_nat n ->
        QANetOutput_forward self M1 M2 M3 mask = Raise SizeMismatch).
Proof.
  intros Hinit.
  apply QANetOutput_init_inv in Hinit as (Hn & Hw1 & Hw2).
  split; [|split; [|split; [|split]]].
  - intros Hz. unfold QANetOutput_forward.
    assert (cat 2 M1 M2 = Raise ZeroDimensional) as ->; [|done].
    unfold cat. by rewrite decide_True.
  - intros Hlen Hrank Hne. unfold QANetOutput_forward.
    assert (cat 2 M1 M2 = Raise IndexError) as ->; [|done].
    unfold cat, cat_should_skip.
    rewrite decide_False; last first.
    { intros [H|H]; rewrite H in *; cbn in *; lia. }
    rewrite (bool_decide_eq_false_2 (shape M1 = [0])) by done.
    destruct (bool_decide (shape M2 = [0])).
    + rewrite decide_False by lia. done.
    + rewrite (lookup_ge_None_2 (shape M1) 2) by lia. done.
  - intros B T H1 HM1 Hrank Hne Hne0. unfold QANetOutput_forward.
    assert (cat 2 M1 M2 = Raise SizeMismatch) as ->; [|done].
    unfold cat, cat_should_skip.
    rewrite decide_False by (intros [H|H]; [by rewrite HM1 in H|done]).
    rewrite (bool_decide_eq_false_2 (shape M1 = [0])) by (by rewrite HM1).
    rewrite (bool_decide_eq_false_2 (shape M2 = [0])) by done.
    rewrite HM1. cbn [lookup list_lookup].
    destruct (shape M2 !! 2); [|done].
    rewrite decide_False; [done|].
    intros Heq. apply (f_equal length) in Heq.
    rewrite !length_insert in Heq. cbn in Heq. lia.
  - intros B T H1 B' T' H2 HM1 HM2 Hne. unfold QANetOutput_forward.
    assert (cat 2 M1 M2 = Raise SizeMismatch) as ->; [|done].
    rewrite (cat_2_rank3 M1 M2 B T H1 B' T' H2 HM1 HM2).
    rewrite decide_False; [done|]. intros [= ??]. lia.
  - intros B T H1 H2 H3 HM1 HM2 HM3 Hne. unfold QANetOutput_forward.
    destruct (cat_2_ok M1 M2 B T H1 H2 HM1 HM2) as (x1 & -> & Hx1). rstep.
    destruct (cat_2_ok M2 M3 B T H2 H3 HM2 HM3) as (x2 & -> & Hx2). rstep.
    assert (Linear_forward (w1 self) x1 = Raise SizeMismatch) as ->; [|done].
    unfold Linear_forward. rewrite Hx1. cbn [last].
    rewrite decide_False; [done|]. rewrite Hw1. cbn [in_features]. lia.
Qed.

Lemma output_layer_rejects_mismatched_encodings_witness :
  exists self,
    QANetOutput_init 1 {| w1_params := zero_linear; w2_params := zero_linear |}
      = Ok self /\
    QANetOutput_forward self (ones []) (ones [2; 3; 1]) (ones [2; 3; 1])
      (ones_mask [2; 3]) = Raise ZeroDimensional /\
    QANetOutput_forward self (ones [2; 3]) (ones [2; 3]) (ones [2; 3; 1])
      (ones_mask [2; 3]) = Raise IndexError /\
    QANetOutput_forward self (ones [2; 3; 1]) (ones [2; 3]) (ones [2; 3; 1])
      (ones_mask [2; 3]) = Raise SizeMismatch /\
    QANetOutput_forward self (ones [2; 3; 1]) (ones [2; 4; 1]) (ones [2; 3; 1])
      (ones_mask [2; 3]) = Raise SizeMismatch /\
    QANetOutput_forward self (ones [2; 3; 1]) (ones [2; 3; 2]) (ones [2; 3; 1])
      (ones_mask [2; 3]) = Raise SizeMismatch.
Proof.
  eexists. split; [reflexivity|].
  destruct (output_layer_rejects_mismatched_encodings 1
              {| w1_params := zero_linear; w2_params := zero_linear |} _
              (ones []) (ones [2; 3; 1]) (ones [2; 3; 1])
              (ones_mask [2; 3]) eq_refl) as (H0 & _).
  destruct (output_layer_rejects_mismatched_encodings 1
              {| w1_params := zero_linear; w2_params := zero_linear |} _
              (ones [2; 3]) (ones [2; 3]) (ones [2; 3; 1])
              (ones_mask [2; 3]) eq_refl) as (_ & H1 & _).
  destruct (output_layer_rejects_mismatched_encodings 1
              {| w1_params := zero_linear; w2_params := zero_linear |} _
              (ones [2; 3; 1]) (ones [2; 3]) (ones [2; 3; 1])
              (ones_mask [2; 3]) eq_refl) as (_ & _ & H2 & _).
  destruct (output_layer_rejects_mismatched_encodings 1
              {| w1_params := zero_linear; w2_params := zero_linear |} _
              (ones [2; 3; 1]) (ones [2; 4; 1]) (ones [2; 3; 1])
              (ones_mask [2; 3]) eq_refl) as (_ & _ & _ & H3 & _).
  destruct (output_layer_rejects_mismatched_encodings 1
              {| w1_params := zero_linear; w2_params := zero_linear |} _
              (ones [2; 3; 1]) (ones [2; 3; 2]) (ones [2; 3; 1])
              (ones_mask [2; 3]) eq_refl) as (_ & _ & _ & _ & H4).
  split; [apply H0; by left|].
  split; [apply H1; [reflexivity|cbn; lia|discriminate]|].
  split; [apply (H2 2 3 1 eq_refl); [cbn; lia|discriminate|discriminate]|].
  split; [apply (H3 2 3 1 2 4 1 eq_refl eq_refl); lia|].
  apply (H4 2 3 1 2 1 eq_refl eq_refl eq_refl). cbn. lia.
Defined.

(** ** More on ensembling *)

(** The exponential of a mean is at most the mean of the exponentials. *)
Lemma exp_tangent (m x : R) : (exp m * (1 + (x - m)) <= exp x)%R.
Proof.
  replace x with (m + (x - m))%R at 2 by lra. rewrite exp_plus.
  apply Rmult_le_compat_l; [left; apply exp_pos|]. apply exp_ineq1_le.
Qed.

Lemma sum_exp_tangent (m : R) (l : list R) :
  (exp m * (INR (length l) + (sum_list l - INR (length l) * m))
   <= sum_list (exp <$> l))%R.
Proof.
  induction l as [|x l IH].
  - unfold sum_list. cbn. lra.
  - rewrite fmap_cons. unfold sum_list in *. cbn [foldr length].
    rewrite S_INR. pose proof (exp_tangent m x). lra.
Qed.

Lemma exp_mean_le_mean_exp (l : list R) :
  l <> [] ->
  (exp (sum_list l / INR (length l))
   <= sum_list (exp <$> l) / INR (length l))%R.
Proof.
  intros Hne.
  assert (0 < INR (length l))%R as Hn.
  { apply lt_0_INR. destruct l; [done|cbn; lia]. }
  pose proof (sum_exp_tangent (sum_list l / INR (length l)) l) as H.
  replace (INR (length l) +
           (sum_list l - INR (length l) * (sum_list l / INR (length l))))%R
    with (INR (length l)) in H by (field; lra).
  apply Rmult_le_reg_r with (INR (length l)); [done|].
  unfold Rdiv at 2. rewrite Rmult_assoc, Rinv_l by lra. lra.
Qed.

Lemma sum_list_const (A : Type) (f : A -> R) (x : R) (l : list A) :
  Forall (fun a => f a = x) l ->
  sum_list (f <$> l) = (INR (length l) * x)%R.
Proof.
  induction 1 as [|a l Ha _ IH].
  - unfold sum_list. cbn. lra.
  - rewrite fmap_cons. unfold sum_list in *. cbn [foldr length].
    rewrite S_INR, IH, Ha. lra.
Qed.

Section MoreDriverProperties.

Variable batch : Type.
Variable cw_idxs_size : batch -> list nat.
Variable load_path : Type.
Variable run_model : load_path -> batch -> result (tensor R * tensor R).

(** X15: every combined value of the ensembling branch lies between 0 and
    the arithmetic mean of the probabilities the models give to the same
    entry. *)
Theorem ensemble_is_at_most_the_mean_probability
    (ensemble_list : list load_path) (b : batch) :
  ensemble_list <> [] ->
  models_return batch load_path run_model (cw_idxs_size b) b ensemble_list ->
  exists p1 p2,
    ensemble_batch batch cw_idxs_size load_path run_model ensemble_list b
      = Ok (p1, p2) /\
    forall idx, in_range (cw_idxs_size b) idx ->
      let n := length ensemble_list in
      let prob1 := (fun lp => exp (model_log_p1 batch load_path run_model lp b idx))
                     <$> ensemble_list in
      let prob2 := (fun lp => exp (model_log_p2 batch load_path run_model lp b idx))
                     <$> ensemble_list in
      (0 <= data p1 idx <= sum_list prob1 / INR n)%R /\
      (0 <= data p2 idx <= sum_list prob2 / INR n)%R.
Proof.
  intros Hne Hl.
  destruct (ensemble_batch_value batch cw_idxs_size load_path run_model
              ensemble_list b Hl) as (p1 & p2 & Hb & _ & _ & Hd).
  exists p1, p2. split; [done|]. intros idx Hr n prob1 prob2.
  destruct (Hd idx Hr) as [-> ->].
  assert (forall f : load_path -> R,
            (exp (sum_list (f <$> ensemble_list) / INR n)
             <= sum_list ((fun lp => exp (f lp)) <$> ensemble_list) / INR n)%R)
    as Hle.
  { intros f.
    pose proof (exp_mean_le_mean_exp (f <$> ensemble_list)) as H.
    rewrite length_fmap, <- list_fmap_compose in H. apply H.
    by destruct ensemble_list. }
  split; (split; [left; apply exp_pos|apply Hle]).
Qed.

(** X16: when every checkpoint of the list returns the same two tensors of
    log-probabilities on a batch (one checkpoint, or several copies of it),
    the combined distributions are the exponentials of these tensors: the
    ensemble of identical models is the single model. *)
Theorem ensemble_of_agreeing_models
    (ensemble_list : list load_path) (b : batch) (l1 l2 : tensor R) :
  ensemble_list <> [] ->
  shape l1 = cw_idxs_size b -> shape l2 = cw_idxs_size b ->
  Forall (fun lp => run_model lp b = Ok (l1, l2)) ensemble_list ->
  exists p1 p2,
    ensemble_batch batch cw_idxs_size load_path run_model ensemble_list b
      = Ok (p1, p2) /\
    forall idx, in_range (cw_idxs_size b) idx ->
      data p1 idx = exp (data l1 idx) /\ data p2 idx = exp (data l2 idx).
Proof.
  intros Hne Hs1 Hs2 Hall.
  assert (models_return batch load_path run_model (cw_idxs_size b) b
            ensemble_list) as Hl.
  { unfold models_return. eapply Forall_impl; [exact Hall|].
    intros lp Hlp. by exists l1, l2. }
  destruct (ensemble_batch_value batch cw_idxs_size load_path run_model
              ensemble_list b Hl) as (p1 & p2 & Hb & _ & _ & Hd).
  exists p1, p2. split; [done|]. intros idx Hr.
  destruct (Hd idx Hr) as [-> ->].
  assert (0 < INR (length ensemble_list))%R as Hn.
  { apply lt_0_INR. destruct ensemble_list; [done|cbn; lia]. }
  rewrite (sum_list_const _ _ (data l1 idx)), (sum_list_const _ _ (data l2 idx)).
  - split; f_equal; field; lra.
  - eapply Forall_impl; [exact Hall|]. intros lp Hlp.
    unfold model_log_p2. by rewrite Hlp.
  - eapply Forall_impl; [exact Hall|]. intros lp Hlp.
    unfold model_log_p1. by rewrite Hlp.
Qed.

Lemma ensemble_loop_app (b : batch) (acc : tensor R * tensor R)
    (l l' : list load_path) :
  ensemble_loop batch load_path run_model b acc (l ++ l') =
    (acc' ← ensemble_loop batch load_path run_model b acc l;
     ensemble_loop batch load_path run_model b acc' l').
Proof.
  revert acc. induction l as [|lp l IH]; intros acc; [done|].
  cbn [app ensemble_loop].
  destruct (accumulate _ _ _ b acc lp) as [acc1|]; rstep; [|done].
  apply IH.
Qed.

(** X17: the first model of the list that fails on a batch stops the
    batch. If the models before it return, the error it raises is the error
    of the whole batch, and log-probabilities that cannot be broadcast
    against [cw_idxs.size()] raise the size mismatch of the accumulation;
    the models after it are not run. *)
Theorem first_failing_model_stops_the_batch
    (pre post : list load_path) (lp : load_path) (b : batch) (e : py_error) :
  models_return batch load_path run_model (cw_idxs_size b) b pre ->
  (run_model lp b = Raise e ->
   ensemble_batch batch cw_idxs_size load_path run_model
     (pre ++ lp :: post) b = Raise e)
  /\ (forall l1 l2,
        run_model lp b = Ok (l1, l2) ->
        broadcast_shapes (cw_idxs_size b) (shape l1) = Raise SizeMismatch ->
        ensemble_batch batch cw_idxs_size load_path run_model
          (pre ++ lp :: post) b = Raise SizeMismatch).
Proof.
  intros Hpre.
  destruct (ensemble_loop_sums batch load_path run_model b (cw_idxs_size b)
              pre (zeros (cw_idxs_size b), zeros (cw_idxs_size b))
              eq_refl eq_refl Hpre) as (a1 & a2 & Hloop & Hs1 & Hs2 & _).
  split.
  - intros Hrun. unfold ensemble_batch.
    rewrite ensemble_loop_app, Hloop. rstep.
    cbn [ensemble_loop]. unfold accumulate. by rewrite Hrun.
  - intros l1 l2 Hrun Hbc. unfold ensemble_batch.
    rewrite ensemble_loop_app, Hloop. rstep.
    cbn [ensemble_loop]. unfold accumulate. rewrite Hrun. rstep.
    assert (tensor_add a1 l1 = Raise SizeMismatch) as ->; [|done].
    unfold tensor_add, tensor_map2. by rewrite Hs1, Hbc.
Qed.

End MoreDriverProperties.

Lemma ensemble_is_at_most_the_mean_probability_witness :
  exists p1 p2,
    ensemble_batch unit (fun _ => [1; 2]) bool two_models [true; false] tt
      = Ok (p1, p2) /\
    (data p1 [0; 0]%nat <=
     sum_list ((fun lp => exp (model_log_p1 unit bool two_models lp tt [0; 0]%nat))
                 <$> [true; false]) / INR 2)%R.
Proof.
  destruct (ensemble_is_at_most_the_mean_probability
              unit (fun _ => [1; 2]) bool two_models [true; false] tt
              ltac:(discriminate) two_models_return)
    as (p1 & p2 & Hb & Hd).
  exists p1, p2. split; [exact Hb|].
  destruct (Hd [0; 0] ltac:(repeat constructor)) as ((_ & H1) & _).
  exact H1.
Defined.

Lemma ensemble_of_agreeing_models_witness :
  exists p1 p2,
    ensemble_batch unit (fun _ => [1; 2]) bool two_models [true; true] tt
      = Ok (p1, p2) /\
    data p1 [0; 1] = exp (data (skewed_log_p true) [0; 1]).
Proof.
  destruct (ensemble_of_agreeing_models
              unit (fun _ => [1; 2]) bool two_models [true; true] tt
              (skewed_log_p true) (skewed_log_p true)
              ltac:(discriminate) eq_refl eq_refl
              ltac:(repeat constructor))
    as (p1 & p2 & Hb & Hd).
  exists p1, p2. split; [exact Hb|].
  destruct (Hd [0; 1] ltac:(repeat constructor)) as (H1 & _).
  exact H1.
Defined.

Lemma first_failing_model_stops_the_batch_witness :
  ensemble_batch unit (fun _ => [1; 2]) bool failing_second [true; false; true] tt
    = Raise ValueError.
Proof.
  destruct (first_failing_model_stops_the_batch
              unit (fun _ => [1; 2]) bool failing_second [true] [true] false tt
              ValueError) as (H & _).
  - repeat constructor. eexists _, _. split; [reflexivity|]. split; reflexivity.
  - apply H. reflexivity.
Defined.

(** ** The driver *)

(** [d.update(e)] over a list of dictionaries. *)
Lemma updates_lookup_absent (s : gmap string string)
    (ds : list (gmap string string)) (k : string) :
  Forall (fun d => d !! k = None) ds ->
  foldl (fun acc d => d ∪ acc) s ds !! k = s !! k.
Proof.
  intros Hds. revert s. induction Hds as [|d ds Hd _ IH]; intros s; [done|].
  cbn [foldl]. rewrite IH. by rewrite lookup_union_r.
Qed.

Lemma updates_lookup_last (s : gmap string string)
    (ds : list (gmap string string)) (i : nat) (d : gmap string string)
    (k v : string) :
  ds !! i = Some d -> d !! k = Some v ->
  (forall j d', i < j -> ds !! j = Some d' -> d' !! k = None) ->
  foldl (fun acc d => d ∪ acc) s ds !! k = Some v.
Proof.
  revert s i. induction ds as [|d0 ds IH]; intros s i Hi Hv Hlater; [done|].
  cbn [foldl]. destruct i as [|i].
  - injection Hi as ->. rewrite updates_lookup_absent.
    + by apply lookup_union_Some_l.
    + apply Forall_lookup. intros j d' Hj. apply (Hlater (S j)); [lia|done].
  - apply (IH _ i); [done|done|].
    intros j d' Hij Hj. apply (Hlater (S j)); [lia|done].
Qed.

Lemma updates_domain (s : gmap string string)
    (ds : list (gmap string string)) (k : string) :
  is_Some (foldl (fun acc d => d ∪ acc) s ds !! k) <->
  is_Some (s !! k) \/ exists d, d ∈ ds /\ is_Some (d !! k).
Proof.
  revert s. induction ds as [|d0 ds IH]; intros s; cbn [foldl].
  - split; [by left|]. intros [?|(d & Hd & _)]; [done|].
    by apply elem_of_nil in Hd.
  - rewrite IH. rewrite lookup_union_is_Some. split.
    + intros [[?|?]|(d & Hd & Hk)].
      * right. exists d0. split; [left|done].
      * by left.
      * right. exists d. split; [by right|done].
    + intros [?|(d & Hd & Hk)]; [left; by right|].
      apply elem_of_cons in Hd as [->|Hd]; [left; by left|].
      right. by exists d.
Qed.

Section MainProperties.

Variable batch : Type.
Variable cw_idxs_size : batch -> list nat.
Variable load_path : Type.
Variable run_model : load_path -> batch -> result (tensor R * tensor R).
Variable decode : batch -> tensor R -> tensor R ->
  result (R * gmap string string * gmap string string).
Variable report : list R -> gmap string string -> result unit.

Lemma for_each_ensemble_step (args : Args load_path) (st st' : eval_state)
    (data_loader : list batch) :
  for_each (ensemble_step batch cw_idxs_size load_path run_model decode args)
    st data_loader = Ok st' ->
  exists ds,
    Forall2 (batch_gives batch cw_idxs_size load_path run_model decode args) data_loader ds /\
    sub_dict st' = foldl (fun acc d => d ∪ acc) (sub_dict st) ds.
Proof.
  revert st. induction data_loader as [|b bs IH]; intros st; cbn [for_each].
  - intros [= <-]. exists []. by split.
  - destruct (ensemble_step _ _ _ _ _ args st b) as [st1|] eqn:Hstep;
      rstep; [|done].
    intros Hrest. destruct (IH _ Hrest) as (ds & Hds & Hsub).
    unfold ensemble_step in Hstep.
    destruct (ensemble_batch _ _ _ _ _ b) as [[p1 p2]|] eqn:Hb;
      revert Hstep; rstep; [|done].
    destruct (decode b p1 p2) as [[[loss i2p] d]|] eqn:Hd; rstep; [|done].
    intros [= <-]. exists (d :: ds). split.
    + constructor; [|done]. by exists p1, p2, loss, i2p.
    + by rewrite Hsub.
Qed.

(** X18: [main] with an empty [args.ensemble_list], the branch of line 201.
    The loop over the checkpoints has nothing to iterate over, so no model is
    run and no batch is read: for the test split the submission file is the
    header row alone, and for another split the results are reported from an
    empty [pred_dict] first (and the file is again the header row when that
    report returns). The outcome does not depend on the data loader, on the
    models or on the decoding. *)
Theorem single_checkpoint_mode_runs_no_model
    (args : Args load_path) (data_loader : list batch) :
  ensemble_list args = [] ->
  valid_model_type (model_type args) = true ->
  main batch cw_idxs_size load_path run_model decode report args data_loader
  = (if decide (split args = "test")
     then Returns ("Id,Predicted" +:+ line_terminator)
     else match report [] ∅ with
          | Ok _ => Returns ("Id,Predicted" +:+ line_terminator)
          | Raise e => Fails (Raised e)
          end).
Proof.
  intros Hl Hv. unfold main. rewrite Hv, Hl. cbn [length].
  rewrite decide_False by (intros H; by apply H).
  cbn [for_each_outcome]. unfold finish. cbn [initial_state nll_meter pred_dict sub_dict].
  assert (write_submission ∅ = "Id,Predicted" +:+ line_terminator) as ->
    by (vm_compute; reflexivity).
  by destruct (decide _).
Qed.


(** X20: when [main] returns in the ensembling branch, every batch of the
    data loader was evaluated and decoded, and the submission file is
    written from a dictionary that holds exactly the ids that some batch
    predicted, one row each; for an id predicted by several batches the
    prediction of the last of them is kept ([sub_dict.update]). *)
Theorem submission_has_one_row_per_uuid
    (args : Args load_path) (data_loader : list batch) (text : string) :
  ensemble_list args <> [] ->
  main batch cw_idxs_size load_path run_model decode report args data_loader
    = Returns text ->
  exists (ds : list (gmap string string)) (sub : gmap string string),
    Forall2 (batch_gives batch cw_idxs_size load_path run_model decode args) data_loader ds /\
    text = write_submission sub /\
    length (sorted sub) = size sub /\
    (forall uuid, is_Some (sub !! uuid) <->
                  exists d, d ∈ ds /\ is_Some (d !! uuid)) /\
    (forall i d uuid answer,
        ds !! i = Some d -> d !! uuid = Some answer ->
        (forall j d', i < j -> ds !! j = Some d' -> d' !! uuid = None) ->
        sub !! uuid = Some answer).
Proof.
  intros Hne. unfold main.
  destruct (valid_model_type _); [|done].
  rewrite decide_True by (by destruct (ensemble_list args)).
  destruct (for_each _ _ _) as [st|] eqn:Hloop; [|done].
  apply for_each_ensemble_step in Hloop as (ds & Hds & Hsub).
  unfold finish.
  destruct (if decide _ then _ else _) as [[]|]; [|done].
  intros [= <-]. exists ds, (sub_dict st).
  split; [done|]. split; [done|].
  split; [apply sorted_spec|].
  rewrite Hsub. cbn [initial_state sub_dict]. split.
  - intros uuid. rewrite updates_domain. rewrite lookup_empty. split.
    + intros [[? [=]]|?]; done.
    + intros ?. by right.
  - intros i d uuid answer. apply updates_lookup_last.
Qed.

Lemma for_each_app {S X : Type} (body : S -> X -> result S) (st : S)
    (l l' : list X) :
  for_each body st (l ++ l') = (st' ← for_each body st l; for_each body st' l').
Proof.
  revert st. induction l as [|x l IH]; intros st; [done|].
  cbn [app for_each]. destruct (body st x) as [st1|]; rstep; [|done].
  apply IH.
Qed.

Lemma for_each_ensemble_step_ok (args : Args load_path) (st : eval_state)
    (data_loader : list batch) (ds : list (gmap string string)) :
  Forall2 (batch_gives batch cw_idxs_size load_path run_model decode args)
    data_loader ds ->
  exists st',
    for_each (ensemble_step batch cw_idxs_size load_path run_model decode args)
      st data_loader = Ok st'.
Proof.
  intros Hds. revert st.
  induction Hds as [|b d bs ds (p1 & p2 & loss & i2p & Hb & Hd) _ IH];
    intros st; cbn [for_each]; [by eexists|].
  assert (exists st1,
            ensemble_step batch cw_idxs_size load_path run_model decode args st b
            = Ok st1) as (st1 & ->).
  { unfold ensemble_step. rewrite Hb. rstep. rewrite Hd. rstep. by eexists. }
  rstep. apply IH.
Qed.

(** X21: in the ensembling branch a batch that fails, in the models or in
    the decoding, makes [main] fail with that error although the batches
    before it were evaluated: the submission file is only written after the
    last batch, so none is written. *)
Theorem failing_batch_writes_no_submission
    (args : Args load_path) (pre post : list batch) (b : batch)
    (ds : list (gmap string string)) (e : py_error) :
  ensemble_list args <> [] ->
  valid_model_type (model_type args) = true ->
  Forall2 (batch_gives batch cw_idxs_size load_path run_model decode args)
    pre ds ->
  (ensemble_batch batch cw_idxs_size load_path run_model
     (ensemble_list args) b = Raise e
   \/ exists p1 p2,
        ensemble_batch batch cw_idxs_size load_path run_model
          (ensemble_list args) b = Ok (p1, p2) /\
        decode b p1 p2 = Raise e) ->
  main batch cw_idxs_size load_path run_model decode report args
    (pre ++ b :: post) = Fails (Raised e).
Proof.
  intros Hne Hv Hpre Hfail. unfold main. rewrite Hv.
  rewrite decide_True by (by destruct (ensemble_list args)).
  rewrite for_each_app.
  destruct (for_each_ensemble_step_ok args initial_state pre ds Hpre)
    as (st & ->).
  rstep. cbn [for_each].
  assert (ensemble_step batch cw_idxs_size load_path run_model decode args st b
          = Raise e) as ->; [|done].
  unfold ensemble_step.
  destruct Hfail as [->|(p1 & p2 & -> & Hd)]; [done|]. rstep. by rewrite Hd.
Qed.

End MainProperties.

Lemma single_checkpoint_mode_runs_no_model_witness :
  main (string * string) (fun _ => [1; 2]) bool sample_models sample_decode
    no_report (sample_args "QANet" "test" []) [("a3", "Paris"); ("b7", "Rome")]
  = Returns ("Id,Predicted" +:+ line_terminator).
Proof.
  apply (single_checkpoint_mode_runs_no_model (string * string)
           (fun _ => [1; 2]) bool sample_models sample_decode no_report
           (sample_args "QANet" "test" []) [("a3", "Paris"); ("b7", "Rome")]);
    reflexivity.
Defined.


Lemma submission_has_one_row_per_uuid_witness :
  exists text sub,
    main (string * string) (fun _ => [1; 2]) bool sample_models sample_decode
      no_report (sample_args "QANet" "dev" [true; false])
      [("a3", "Paris"); ("a3", "Rome")] = Returns text /\
    text = write_submission sub /\
    sub !! "a3" = Some "Rome".
Proof.
  eexists.
  destruct (submission_has_one_row_per_uuid (string * string)
              (fun _ => [1; 2]) bool sample_models sample_decode no_report
              (sample_args "QANet" "dev" [true; false])
              [("a3", "Paris"); ("a3", "Rome")] _ ltac:(discriminate) eq_refl)
    as (ds & sub & Hds & Htext & _ & _ & Hlast).
  exists sub. split; [reflexivity|]. split; [exact Htext|].
  apply Forall2_cons_inv_l in Hds as (d1 & ds1 & _ & Hds & ->).
  apply Forall2_cons_inv_l in Hds as (d2 & ds2 & Hd2 & Hds & ->).
  apply Forall2_nil_inv_l in Hds as ->.
  destruct Hd2 as (p1 & p2 & loss & i2p & _ & Hdec).
  injection Hdec as _ _ <-.
  apply (Hlast 1 {[ "a3" := "Rome" ]} "a3" "Rome"); [reflexivity|reflexivity|].
  intros j d' Hj Hd'. destruct j as [|[|j]]; [lia|lia|done].
Defined.

Lemma failing_batch_writes_no_submission_witness :
  main (string * string) (fun _ => [1; 2]) bool failing_at_b7 sample_decode
    no_report (sample_args "QANet" "dev" [true; false])
    [("a3", "Paris"); ("b7", "Rome"); ("c1", "Oslo")]
  = Fails (Raised ValueError).
Proof.
  apply (failing_batch_writes_no_submission (string * string)
           (fun _ => [1; 2]) bool failing_at_b7 sample_decode no_report
           (sample_args "QANet" "dev" [true; false])
           [("a3", "Paris")] [("c1", "Oslo")] ("b7", "Rome")
           [{[ "a3" := "Paris" ]}] ValueError).
  - discriminate.
  - reflexivity.
  - repeat constructor. eexists _, _, _, _. split; reflexivity.
  - left. reflexivity.
Defined.
